(** * voice_bot.modules.bot_handlers: the synthesis job pipeline

    A shallow embedding of [src/voice_bot/modules/bot_handlers.py]: the
    path derivation of [start_gen_task], the worker coroutine
    [run_gen_audio], the completion callback [eval_gen_task], the two
    front-side routes [post_eval_gen_task] and [post_eval_gen_report_error],
    and [delete_progress_msg], together with the two event loops they run on.

    Python values are modelled as follows: [str] is a list of Unicode code
    points, [int] is [Z], [time.time()] is a rational, exceptions are a
    result type, and coroutines are terms of a small free monad whose
    [await]s on the chat platform are explicit suspension points. *)

From Stdlib Require Import ZArith NArith QArith List Bool Ascii String Lia.
From Stdlib Require Import DecimalString DecimalZ.
Import ListNotations.

Set Implicit Arguments.
Local Open Scope Z_scope.

(* ================================================================== *)
(** * Python strings *)
(* ================================================================== *)

Module PyStr.

(** A Python [str] is a sequence of code points; [len] counts them. *)
Definition char := N.
Definition str := list char.

(** Source literals are written as UTF-8 Rocq strings and decoded here. *)
Fixpoint utf8_go (need : nat) (acc : N) (bs : list N) : str :=
  match bs with
  | [] => []
  | b :: bs' =>
      match need with
      | S k =>
          let acc' := (acc * 64 + b mod 64)%N in
          match k with
          | O => acc' :: utf8_go 0 0%N bs'
          | S _ => utf8_go k acc' bs'
          end
      | O =>
          if (b <? 128)%N then b :: utf8_go 0 0%N bs'
          else if (b <? 224)%N then utf8_go 1 (b mod 32)%N bs'
          else if (b <? 240)%N then utf8_go 2 (b mod 16)%N bs'
          else utf8_go 3 (b mod 8)%N bs'
      end
  end.

Definition lit (s : string) : str :=
  utf8_go 0 0%N (map N_of_ascii (list_ascii_of_string s)).

Definition str_eqb (a b : str) : bool :=
  if list_eq_dec N.eq_dec a b then true else false.

(** [len(s)], for a [str] and for any other sequence. *)
Definition len {A} (s : list A) : Z := Z.of_nat (List.length s).

(** [s[:n]], with Python's reading of a negative bound. *)
Definition slice_to {A} (s : list A) (n : Z) : list A :=
  if n <? 0 then firstn (Z.to_nat (Z.max 0 (len s + n))) s
  else firstn (Z.to_nat n) s.

(** [s.startswith(p)] *)
Fixpoint startswith (p s : str) : bool :=
  match p, s with
  | [], _ => true
  | a :: p', b :: s' => (a =? b)%N && startswith p' s'
  | _ :: _, [] => false
  end.

(** [s.endswith(p)] *)
Definition endswith (p s : str) : bool := startswith (rev p) (rev s).

(** [s.replace(old, new)] for a non-empty [old]: every non-overlapping
    occurrence, leftmost first.  [skip] counts the characters of a
    matched occurrence still to be dropped. *)
Fixpoint replace_go (old new : str) (skip : nat) (s : str) : str :=
  match s with
  | [] => []
  | c :: s' =>
      match skip with
      | S k => replace_go old new k s'
      | O =>
          if startswith old s
          then new ++ replace_go old new (pred (List.length old)) s'
          else c :: replace_go old new 0 s'
      end
  end.

Definition replace (old new s : str) : str := replace_go old new 0 s.

(** [str(z)] for an [int]: decimal digits, with a leading minus sign. *)
Definition str_of_Z (z : Z) : str :=
  map N_of_ascii (list_ascii_of_string (NilEmpty.string_of_int (Z.to_int z))).

(** [s.split(sep)] for a one-character separator. *)
Fixpoint split_on (sep : char) (s : str) : list str :=
  match s with
  | [] => [[]]
  | c :: s' =>
      if (c =? sep)%N then [] :: split_on sep s'
      else match split_on sep s' with
           | comp :: rest => (c :: comp) :: rest
           | [] => [[c]]
           end
  end.

(** [sep.join(l)] *)
Fixpoint join_with (sep : str) (l : list str) : str :=
  match l with
  | [] => []
  | [x] => x
  | x :: r => x ++ sep ++ join_with sep r
  end.

End PyStr.
Import PyStr.

(* ================================================================== *)
(** * [os.path] on POSIX, as used to build the result file names *)
(* ================================================================== *)

Module PosixPath.

Definition sep : str := lit "/".
Definition SLASH : char := 47%N.

(** [posixpath.isabs] *)
Definition isabs (p : str) : bool := startswith sep p.

(** [posixpath.join(a, b)] *)
Definition join (a b : str) : str :=
  if startswith sep b then b
  else if str_eqb a [] || endswith sep a then a ++ b
  else a ++ sep ++ b.

Definition is_nil {A} (l : list A) : bool :=
  match l with [] => true | _ => false end.

(** One round of the component loop of [posixpath.normpath]. *)
Definition normpath_step (initial_slashes : nat) (new_comps : list str) (comp : str)
  : list str :=
  if str_eqb comp [] || str_eqb comp (lit ".") then new_comps
  else if negb (str_eqb comp (lit ".."))
          || (Nat.eqb initial_slashes 0 && is_nil new_comps)
          || (negb (is_nil new_comps) && str_eqb (last new_comps []) (lit ".."))
       then new_comps ++ [comp]
       else removelast new_comps.

(** [posixpath.normpath] *)
Definition normpath (path : str) : str :=
  if str_eqb path [] then lit "."
  else
    let initial_slashes :=
      if startswith sep path
      then if startswith (lit "//") path && negb (startswith (lit "///") path)
           then 2%nat else 1%nat
      else 0%nat in
    let comps := fold_left (normpath_step initial_slashes) (split_on SLASH path) [] in
    let path' := repeat SLASH initial_slashes ++ join_with sep comps in
    if str_eqb path' [] then lit "." else path'.

(** [posixpath.abspath], with the process working directory as a parameter. *)
Definition abspath (cwd path : str) : str :=
  normpath (if isabs path then path else join cwd path).

(** [posixpath.basename]: what follows the last slash. *)
Definition basename (p : str) : str := last (split_on SLASH p) [].

End PosixPath.

(* ================================================================== *)
(** * Result file names and captions *)
(* ================================================================== *)

(** [int(x)] for the float [x = time.time()]: truncation toward zero.
    The clock reading is modelled as a rational. *)
Definition py_int (x : Q) : Z := Z.quot (Qnum x) (Z.pos (Qden x)).

Section Names.

(** [RESULTS_PATH] is imported from [modules.bot_utils]; the working
    directory is what [os.getcwd()] answers inside [abspath]. *)
Variable RESULTS_PATH : str.
Variable cwd : str.

(** ['{}_{}.wav'.format(user.id, int(time.time()))] *)
Definition wav_name (user_id : Z) (now : Q) : str :=
  str_of_Z user_id ++ lit "_" ++ str_of_Z (py_int now) ++ lit ".wav".

(** [start_gen_task], line 210: the output path of a job. *)
Definition filename_result (user_id : Z) (now : Q) : str :=
  PosixPath.abspath cwd (PosixPath.join RESULTS_PATH (wav_name user_id now)).

(** [f'{user.id}_{int(time.time())}.{filetype}'] with [filetype = "ogg"] *)
Definition ogg_name (user_id : Z) (now : Q) : str :=
  str_of_Z user_id ++ lit "_" ++ str_of_Z (py_int now) ++ lit "." ++ lit "ogg".

(** [gen_audio_from_voice], line 174: where the voice message is downloaded. *)
Definition voice_file_path (user_id : Z) (now : Q) : str :=
  PosixPath.abspath cwd (PosixPath.join RESULTS_PATH (ogg_name user_id now)).

End Names.

(** [post_eval_gen_task], line 261:
    [filename_result.replace(".wav", f"_{sample_ind}.wav")] *)
Definition sample_file (filename : str) (sample_ind : Z) : str :=
  replace (lit ".wav") (lit "_" ++ str_of_Z sample_ind ++ lit ".wav") filename.

(** [post_eval_gen_task], lines 266-267, on a [str]:
    [if len(text) > MAX_CHARS_NUM: text = f"{text[:MAX_CHARS_NUM]}..."] *)
Definition elide (MAX_CHARS_NUM : Z) (text : str) : str :=
  if len text >? MAX_CHARS_NUM
  then slice_to text MAX_CHARS_NUM ++ lit "..."
  else text.

(* ================================================================== *)
(** * Data carried through the pipeline *)
(* ================================================================== *)

(** The [telegram] objects, reduced to the attributes the module reads. *)
Record User := { user_id : Z; full_name : str; mention_html : str }.
Record Message := { message_id : Z; caption : option str }.
Record Update := {
  effective_user : option User;
  effective_message : option Message }.
Record UserSettings := { voice : str; emotion : str; samples_num : Z }.

(** Audio samples as loaded by [librosa.load]: a one-dimensional array. *)
Definition ndarray := list Q.

(** [Union[str, ndarray]], the type of [data] in [start_gen_task]. *)
Inductive data :=
| Text (s : str)
| Audio (a : ndarray).

(** Exceptions below [Exception].  [TelegramError] is the one class the
    module tells apart; [cause] is the [from e] of a [raise]. *)
Inductive exn_class := TelegramError | OtherException.
Inductive exn :=
| Exn (cls : exn_class) (msg : str)
| ExnFrom (cls : exn_class) (msg : str) (cause : exn).

Definition exn_cls (e : exn) : exn_class :=
  match e with Exn c _ | ExnFrom c _ _ => c end.

Definition is_telegram_error (e : exn) : bool :=
  match exn_cls e with TelegramError => true | OtherException => false end.

Inductive res (A : Type) :=
| Ok (a : A)
| Err (e : exn).
Arguments Ok {A} a.
Arguments Err {A} e.

(** The two execution contexts: the application's loop and the loop of
    [tts_work_thread]. *)
Inductive ctx := Front | Worker.

(** [concurrent.futures.Future] handles. *)
Definition future := nat.

(** [InlineKeyboardMarkup]: rows of (label, callback data). *)
Definition keyboard := list (list (str * str)).

(** The tuple returned by [run_gen_audio] (line 233), without [app]. *)
Record gen_result := {
  r_update : Update;
  r_progress_msg : Message;
  r_filename_result : str;
  r_data : data;
  r_samples_num : Z }.

(** Coroutine objects: a coroutine function applied to its arguments. *)
Inductive task :=
| T_start_gen_task (update : Update) (d : data) (progress_msg : Message)
| T_run_gen_audio (update : Update) (progerss_msg : Message)
    (filename_result : str) (settings : UserSettings) (d : data)
    (user_voices_dir : str) (app_loop : ctx)
| T_handle_post_eval_gen_report_error (update : Update)
    (progress_msg : Message) (exc : exn)
| T_post_eval_gen_report_error (update : Update) (progress_msg : Message)
    (exc : exn)
| T_post_eval_gen_task (update : Update) (filename_result : str)
    (text : data) (samples_num : Z) (message : option Message)
    (progress_msg : Message)
| T_delete_progress_msg (msg : Message).

Definition is_job (t : task) : bool :=
  match t with T_run_gen_audio _ _ _ _ _ _ _ => true | _ => false end.

(* ================================================================== *)
(** * Coroutines *)
(* ================================================================== *)

(** What a coroutine can ask of its surroundings.  The last three are
    requests to the chat platform and are awaited; all others return
    without giving up the loop. *)
Inductive action : Type -> Type :=
| a_transcribe_voice (a : ndarray) : action (res str)
| a_tts_audio_from_text (filename text voice voices_dir emotion : str)
    (samples : Z) : action (res unit)
| a_convert_to_voice (p : str) : action (res str)
| a_open_rb (p : str) : action (res unit)
| a_clear_dir (d : str) : action unit
| a_time : action Q
| a_log_error (msg : str) (exc_info : option exn) : action unit
| a_log_info (msg : str) : action unit
| a_get_running_loop : action ctx
| a_run_coroutine_threadsafe (t : task) (loop : ctx) : action future
| a_add_done_callback (f : future) : action unit
| a_create_task (t : task) : action unit
| a_msg_delete (m : Message) : action (res unit)
| a_reply_voice (m : Message) (voice : str) (cap : data) (reply_to : Z)
    (markup : keyboard) : action (res unit)
| a_reply_html (m : Message) (text : str) (reply_to : Z) : action (res unit).

(** [await] marks the actions at which a coroutine is suspended. *)
Definition suspends {B} (a : action B) : bool :=
  match a with
  | a_msg_delete _ | a_reply_voice _ _ _ _ _ | a_reply_html _ _ _ => true
  | _ => false
  end.

Inductive Co (A : Type) : Type :=
| Ret (a : A)
| Raise (e : exn)
| Act (B : Type) (a : action B) (k : B -> Co A).
Arguments Ret {A} a.
Arguments Raise {A} e.
Arguments Act {A B} a k.

Fixpoint bind {A B} (m : Co A) (f : A -> Co B) : Co B :=
  match m with
  | Ret a => f a
  | Raise e => Raise e
  | Act a k => Act a (fun b => bind (k b) f)
  end.

(** [try: m  except Exception as e: h e] *)
Fixpoint try_except {A} (m : Co A) (h : exn -> Co A) : Co A :=
  match m with
  | Ret a => Ret a
  | Raise e => h e
  | Act a k => Act a (fun b => try_except (k b) h)
  end.

(** [try: m  except Exception as e: h e  else: els] *)
Fixpoint try_except_else {A B} (m : Co A) (h : exn -> Co B) (els : A -> Co B)
  : Co B :=
  match m with
  | Ret a => els a
  | Raise e => h e
  | Act a k => Act a (fun b => try_except_else (k b) h els)
  end.

(** An action that cannot raise. *)
Definition do {B} (a : action B) : Co B := Act a Ret.

(** A call that returns or raises. *)
Definition call {B} (a : action (res B)) : Co B :=
  Act a (fun r => match r with Ok b => Ret b | Err e => Raise e end).

(** Attribute access on a value that may be [None]. *)
Definition attr {A} (o : option A) : Co A :=
  match o with
  | Some a => Ret a
  | None => Raise (Exn OtherException (lit "AttributeError"))
  end.

(** [for i in range(n)] from index [i], threading the variables in [s]. *)
Fixpoint for_range {S} (n : nat) (i : Z) (body : Z -> S -> Co S) (s : S) : Co S :=
  match n with
  | O => Ret s
  | Datatypes.S n' => bind (body i s) (for_range n' (i + 1) body)
  end.

Declare Scope co_scope.
Delimit Scope co_scope with co.
Notation "x <- m ;; k" := (bind m (fun x => k))
  (at level 61, m at next level, right associativity) : co_scope.
Notation "m ;;; k" := (bind m (fun _ => k))
  (at level 61, right associativity) : co_scope.
Local Open Scope co_scope.

(* ================================================================== *)
(** * The functions of the module *)
(* ================================================================== *)

(** Constants and side-effect-free helpers imported from [modules.bot_utils]
    and [modules.bot_settings], whose code is not part of this file. *)
Record Config := {
  MAX_CHARS_NUM : Z;
  RESULTS_PATH : str;
  QUERY_PATTERN_RETRY : str;
  getcwd : str;
  validate_text : option User -> str -> bool * str;
  get_user_settings : Z -> UserSettings;
  get_user_voice_dir : Z -> str;
  get_cis_locale_dict : str -> list (str * str);
  get_text_locale : option User -> list (str * str) -> str -> str;
  ndarray_str : ndarray -> str }.

Section Handlers.

Variable cfg : Config.

(** Lines 266-267 on whatever [text] holds.  After a failed transcription
    [run_gen_audio] hands the audio array on in place of a text; [len]
    and slicing then act on the array and the f-string prints it. *)
Definition elide_data (text : data) : data :=
  match text with
  | Text s => Text (elide (MAX_CHARS_NUM cfg) s)
  | Audio a =>
      if len a >? MAX_CHARS_NUM cfg
      then Text (ndarray_str cfg (slice_to a (MAX_CHARS_NUM cfg)) ++ lit "...")
      else Audio a
  end.

Definition data_str (d : data) : str :=
  match d with Text s => s | Audio a => ndarray_str cfg a end.

(** Lines 290-294. *)
Definition delete_progress_msg (msg : Message) : Co unit :=
  try_except
    (call (a_msg_delete msg))
    (fun e =>
       if is_telegram_error e
       then do (a_log_error (lit "Failed to delete progress message") None)
       else Raise e).

(** The reply of lines 251-252. *)
Definition failure_reply (u : User) : str :=
  get_text_locale cfg (Some u)
    (get_cis_locale_dict cfg
       (mention_html u ++
        lit ", к сожалению синтез аудио завершился ошибкой, пожалуйста попробуйте еще раз"))
    (lit "Sorry " ++ mention_html u ++
     lit ", your audio generation failed, please try again").

(** Lines 245-253. *)
Definition post_eval_gen_report_error (update : Update) (progress_msg : Message)
    (exc : exn) : Co unit :=
  do (a_clear_dir (RESULTS_PATH cfg)) ;;;
  do (a_log_error (lit "Exception while handling run_gen_audio:") (Some exc)) ;;;
  delete_progress_msg progress_msg ;;;
  match effective_message update, effective_user update with
  | Some m, Some u => call (a_reply_html m (failure_reply u) (message_id m))
  | _, _ => Ret tt
  end.

(** The keyboard of line 264. *)
Definition retry_keyboard (user : option User) : keyboard :=
  [[ (get_text_locale cfg user
        (get_cis_locale_dict cfg (lit "Генерировать снова")) (lit "Regenerate"),
      QUERY_PATTERN_RETRY cfg) ]].

(** One round of the loop of lines 260-270; [text] is the loop-carried
    variable. *)
Definition deliver_sample (user : option User) (filename_result : str)
    (message : option Message) (sample_ind : Z) (text : data) : Co data :=
  let sample := sample_file filename_result sample_ind in
  voice_file <- call (a_convert_to_voice sample) ;;
  call (a_open_rb voice_file) ;;;
  let reply_markup := retry_keyboard user in
  let text := elide_data text in
  m <- attr message ;;
  call (a_reply_voice m voice_file text (message_id m) reply_markup) ;;;
  u <- attr user ;;
  do (a_log_info
        (lit "Audio generation DONE: called by " ++ full_name u ++
         lit ", for sample №" ++ str_of_Z sample_ind ++
         lit ", with query: " ++ data_str text)) ;;;
  Ret text.

(** Lines 256-277. *)
Definition post_eval_gen_task (update : Update) (filename_result : str)
    (text : data) (samples_num : Z) (message : option Message)
    (progress_msg : Message) : Co unit :=
  try_except_else
    (let user := effective_user update in
     for_range (Z.to_nat samples_num) 0
       (deliver_sample user filename_result message) text)
    (fun e =>
       do (a_create_task (T_delete_progress_msg progress_msg)) ;;;
       do (a_clear_dir (RESULTS_PATH cfg)) ;;;
       Raise (ExnFrom TelegramError (lit "Audio generation Error") e))
    (fun _ =>
       do (a_create_task (T_delete_progress_msg progress_msg)) ;;;
       do (a_clear_dir (RESULTS_PATH cfg))).

(** Lines 228-229, the coroutine defined inside the [except] clause. *)
Definition handle_post_eval_gen_report_error (update : Update)
    (progress_msg : Message) (exc : exn) : Co unit :=
  do (a_create_task (T_post_eval_gen_report_error update progress_msg exc)).

(** The [try] block of lines 219-226: the value [data] has when the block
    is left, and how it is left. *)
Definition run_gen_audio_try (update : Update) (filename_result : str)
    (settings : UserSettings) (d : data) (user_voices_dir : str)
  : Co (data * res unit) :=
  let synth text :=
    do (a_tts_audio_from_text filename_result text (voice settings)
          user_voices_dir (emotion settings) (samples_num settings)) in
  match d with
  | Audio a =>
      r <- do (a_transcribe_voice a) ;;
      match r with
      | Err e => Ret (d, Err e)
      | Ok t =>
          let (val_res, val_err_msg) :=
            validate_text cfg (effective_user update) t in
          if negb val_res
          then Ret (Text t,
                    Err (Exn OtherException
                           (lit "text validation error: " ++ val_err_msg)))
          else r' <- synth t ;; Ret (Text t, r')
      end
  | Text t => r' <- synth t ;; Ret (d, r')
  end.

(** Lines 217-233.  No [await] occurs in the body. *)
Definition run_gen_audio (update : Update) (progerss_msg : Message)
    (filename_result : str) (settings : UserSettings) (d : data)
    (user_voices_dir : str) (app_loop : ctx) : Co gen_result :=
  out <- run_gen_audio_try update filename_result settings d user_voices_dir ;;
  match snd out with
  | Err e =>
      _ <- do (a_run_coroutine_threadsafe
                 (T_handle_post_eval_gen_report_error update progerss_msg e)
                 app_loop) ;;
      Ret tt
  | Ok _ => Ret tt
  end ;;;
  Ret {| r_update := update; r_progress_msg := progerss_msg;
         r_filename_result := filename_result; r_data := fst out;
         r_samples_num := samples_num settings |}.

(** Lines 236-242; [outcome] is what [future.result()] returns or raises. *)
Definition eval_gen_task (outcome : res gen_result) : Co unit :=
  match outcome with
  | Err e =>
      do (a_log_error (lit "Exception while handling eval_gen_task:") (Some e))
  | Ok r =>
      do (a_create_task
            (T_post_eval_gen_task (r_update r) (r_filename_result r) (r_data r)
               (r_samples_num r) (effective_message (r_update r))
               (r_progress_msg r)))
  end.

(** Lines 207-214. *)
Definition start_gen_task (update : Update) (d : data) (progress_msg : Message)
  : Co unit :=
  user <- attr (effective_user update) ;;
  now <- do a_time ;;
  let filename_result :=
    filename_result (RESULTS_PATH cfg) (getcwd cfg) (user_id user) now in
  let settings := get_user_settings cfg (user_id user) in
  loop <- do a_get_running_loop ;;
  fut <- do (a_run_coroutine_threadsafe
               (T_run_gen_audio update progress_msg filename_result settings d
                  (get_user_voice_dir cfg (user_id user)) loop)
               Worker) ;;
  do (a_add_done_callback fut).

(** The body of a coroutine object. *)
Definition body (t : task) : Co (option gen_result) :=
  match t with
  | T_start_gen_task u d pm => start_gen_task u d pm ;;; Ret None
  | T_run_gen_audio u pm f s d v l =>
      r <- run_gen_audio u pm f s d v l ;; Ret (Some r)
  | T_handle_post_eval_gen_report_error u pm e =>
      handle_post_eval_gen_report_error u pm e ;;; Ret None
  | T_post_eval_gen_report_error u pm e =>
      post_eval_gen_report_error u pm e ;;; Ret None
  | T_post_eval_gen_task u f t n m pm =>
      post_eval_gen_task u f t n m pm ;;; Ret None
  | T_delete_progress_msg m => delete_progress_msg m ;;; Ret None
  end.

End Handlers.

(* ================================================================== *)
(** * The world the coroutines act on *)
(* ================================================================== *)

Inductive event :=
| E_transcribe (c : ctx) (ok : bool)
| E_tts (c : ctx) (filename : str) (ok : bool)
| E_convert (c : ctx) (p : str) (ok : bool)
| E_open (c : ctx) (p : str) (ok : bool)
| E_clear_dir (c : ctx) (d : str)
| E_log_error (c : ctx) (msg : str) (exc_info : option exn)
| E_log_info (c : ctx) (msg : str)
| E_threadsafe (c : ctx) (t : task) (loop : ctx)
| E_add_done_callback (c : ctx) (f : future)
| E_create_task (c : ctx) (t : task)
| E_msg_delete (c : ctx) (m : Message) (ok : bool)
| E_reply_voice (c : ctx) (m : Message) (voice : str) (cap : data)
    (reply_to : Z) (markup : keyboard) (ok : bool)
| E_reply_html (c : ctx) (m : Message) (text : str) (reply_to : Z) (ok : bool)
| E_started (c : ctx) (t : task)
| E_finished (c : ctx) (t : task) (raised : option exn).

Definition is_ok {A} (r : res A) : bool :=
  match r with Ok _ => true | Err _ => false end.

(** The collaborators outside the module: the engines, the converter, the
    chat platform, the clock.  Each may depend on and change a state [X]
    of its own; the engines and the converter also write files.
    [create_task_loop c] is the loop on which a coroutine handed to
    [Application.create_task] from context [c] is scheduled. *)
Record Platform (X : Type) := {
  transcribe_voice : ndarray -> X -> res str * X;
  tts_audio_from_text :
    str -> str -> str -> str -> str -> Z -> list str -> X
    -> res unit * list str * X;
  convert_to_voice : str -> list str -> X -> res str * list str * X;
  msg_delete : Message -> X -> res unit * X;
  reply_voice : Message -> str -> data -> Z -> keyboard -> X -> res unit * X;
  reply_html : Message -> str -> Z -> X -> res unit * X;
  clock : X -> Q * X;
  create_task_loop : ctx -> ctx }.

Record World (X : Type) := {
  files : list str;
  ext : X;
  trace : list event;
  spawned : list (ctx * task * option future);
  callbacks : list future;
  next_future : future }.

Section Semantics.

Variable cfg : Config.
Variable X : Type.
Variable P : Platform X.

Definition log (e : event) (w : World X) : World X :=
  {| files := files w; ext := ext w; trace := trace w ++ [e];
     spawned := spawned w; callbacks := callbacks w;
     next_future := next_future w |}.

Definition set_ext (x : X) (w : World X) : World X :=
  {| files := files w; ext := x; trace := trace w;
     spawned := spawned w; callbacks := callbacks w;
     next_future := next_future w |}.

Definition set_files (fs : list str) (w : World X) : World X :=
  {| files := fs; ext := ext w; trace := trace w;
     spawned := spawned w; callbacks := callbacks w;
     next_future := next_future w |}.

Definition spawn (loop : ctx) (t : task) (f : option future) (w : World X) : World X :=
  {| files := files w; ext := ext w; trace := trace w;
     spawned := spawned w ++ [(loop, t, f)]; callbacks := callbacks w;
     next_future := next_future w |}.

(** The directory of [d] as a prefix of the paths inside it. *)
Definition dir_prefix (d : str) : str :=
  let a := PosixPath.abspath (getcwd cfg) d in
  if endswith PosixPath.sep a then a else a ++ PosixPath.sep.

Definition in_dir (d p : str) : bool := startswith (dir_prefix d) p.

(** Modelled from the spec: [clear_dir] of [modules.bot_utils], whose code
    is not part of this file.  Section 5 of the specification describes it
    as clearing the entire shared directory: every path inside [d] is
    removed, whichever job wrote it. *)
Definition clear_dir (d : str) (fs : list str) : list str :=
  filter (fun p => negb (in_dir d p)) fs.

(** [open(p, 'rb')] fails when there is no such file. *)
Definition open_rb (p : str) (fs : list str) : res unit :=
  if existsb (str_eqb p) fs then Ok tt
  else Err (Exn OtherException (lit "FileNotFoundError")).

(** One action, carried out from context [c]. *)
Definition perform (c : ctx) {B} (a : action B) (w : World X) : B * World X :=
  match a in action B return B * World X with
  | a_transcribe_voice au =>
      let (r, x) := transcribe_voice P au (ext w) in
      (r, log (E_transcribe c (is_ok r)) (set_ext x w))
  | a_tts_audio_from_text fn text v dir emo n =>
      let '(r, fs, x) := tts_audio_from_text P fn text v dir emo n (files w) (ext w) in
      (r, log (E_tts c fn (is_ok r)) (set_files fs (set_ext x w)))
  | a_convert_to_voice p =>
      let '(r, fs, x) := convert_to_voice P p (files w) (ext w) in
      (r, log (E_convert c p (is_ok r)) (set_files fs (set_ext x w)))
  | a_open_rb p =>
      let r := open_rb p (files w) in
      (r, log (E_open c p (is_ok r)) w)
  | a_clear_dir d =>
      (tt, log (E_clear_dir c d) (set_files (clear_dir d (files w)) w))
  | a_time =>
      let (t, x) := clock P (ext w) in (t, set_ext x w)
  | a_log_error msg exc => (tt, log (E_log_error c msg exc) w)
  | a_log_info msg => (tt, log (E_log_info c msg) w)
  | a_get_running_loop => (c, w)
  | a_run_coroutine_threadsafe t loop =>
      let f := next_future w in
      let w1 := spawn loop t (Some f) (log (E_threadsafe c t loop) w) in
      (f, {| files := files w1; ext := ext w1; trace := trace w1;
             spawned := spawned w1; callbacks := callbacks w1;
             next_future := S f |})
  | a_add_done_callback f =>
      let w1 := log (E_add_done_callback c f) w in
      (tt, {| files := files w1; ext := ext w1; trace := trace w1;
              spawned := spawned w1; callbacks := f :: callbacks w1;
              next_future := next_future w1 |})
  | a_create_task t =>
      (tt, spawn (create_task_loop P c) t None (log (E_create_task c t) w))
  | a_msg_delete m =>
      let (r, x) := msg_delete P m (ext w) in
      (r, log (E_msg_delete c m (is_ok r)) (set_ext x w))
  | a_reply_voice m v cap rt mk =>
      let (r, x) := reply_voice P m v cap rt mk (ext w) in
      (r, log (E_reply_voice c m v cap rt mk (is_ok r)) (set_ext x w))
  | a_reply_html m text rt =>
      let (r, x) := reply_html P m text rt (ext w) in
      (r, log (E_reply_html c m text rt (is_ok r)) (set_ext x w))
  end.

(** A coroutine run from start to end in context [c], its awaits
    answered one after the other. *)
Fixpoint run {A} (m : Co A) (c : ctx) (w : World X) : res A * World X :=
  match m with
  | Ret a => (Ok a, w)
  | Raise e => (Err e, w)
  | Act a k => let (b, w') := perform c a w in run (k b) c w'
  end.

(** A coroutine run until it is suspended at an [await] or ends. *)
Fixpoint advance {A} (m : Co A) (c : ctx) (w : World X) : Co A * World X :=
  match m with
  | Act a k =>
      if suspends a then (m, w)
      else let (b, w') := perform c a w in advance (k b) c w'
  | _ => (m, w)
  end.

(** A suspended coroutine woken up: the awaited request is answered and
    the coroutine runs on to its next [await]. *)
Definition resume {A} (m : Co A) (c : ctx) (w : World X) : Co A * World X :=
  match m with
  | Act a k => let (b, w') := perform c a w in advance (k b) c w'
  | _ => (m, w)
  end.

(* ------------------------------------------------------------------ *)
(** ** The two event loops *)

(** A handle in a loop's ready queue: the coroutine object, the future
    to complete when it ends, and what is left of it once it has run
    ([None] before its first turn). *)
Record entry := {
  e_task : task;
  e_future : option future;
  e_cont : option (Co (option gen_result)) }.

Record Sched := {
  ready_front : list entry;
  ready_worker : list entry;
  world : World X }.

Definition ready (c : ctx) (s : Sched) : list entry :=
  match c with Front => ready_front s | Worker => ready_worker s end.

Definition push (c : ctx) (en : entry) (s : Sched) : Sched :=
  match c with
  | Front => {| ready_front := ready_front s ++ [en];
                ready_worker := ready_worker s; world := world s |}
  | Worker => {| ready_front := ready_front s;
                 ready_worker := ready_worker s ++ [en]; world := world s |}
  end.

Definition set_ready (c : ctx) (q : list entry) (s : Sched) : Sched :=
  match c with
  | Front => {| ready_front := q; ready_worker := ready_worker s;
                world := world s |}
  | Worker => {| ready_front := ready_front s; ready_worker := q;
                 world := world s |}
  end.

Definition fresh (t : task) (f : option future) : entry :=
  {| e_task := t; e_future := f; e_cont := None |}.

(** The coroutines scheduled during a turn join the ready queues. *)
Definition flush (s : Sched) : Sched :=
  let w := world s in
  fold_left (fun s' item => let '(loop, t, f) := item in push loop (fresh t f) s')
    (spawned w)
    {| ready_front := ready_front s; ready_worker := ready_worker s;
       world := {| files := files w; ext := ext w; trace := trace w;
                   spawned := []; callbacks := callbacks w;
                   next_future := next_future w |} |}.

(** What [future.result()] gives the done callback. *)
Definition outcome_of (r : res (option gen_result)) : res gen_result :=
  match r with
  | Ok (Some g) => Ok g
  | Ok None => Err (Exn OtherException (lit "TypeError"))
  | Err e => Err e
  end.

Definition raised_of {A} (r : res A) : option exn :=
  match r with Ok _ => None | Err e => Some e end.

(** A coroutine has ended in context [c]: its future is completed, and
    the done callback registered on it, [eval_gen_task], is called then
    and there.  asyncio completes the future from a callback of the same
    loop, an iteration or two after the coroutine has ended and still on
    the thread of that loop; these iterations are joined to the turn in
    which the coroutine ends.  [start_gen_task] hands the job over and
    registers the callback within one turn (lines 213-214), so no future
    is completed here before its callback is registered: the race in
    which the worker gets there between the two lines, and the callback
    then runs at once on the registering thread, is left out. *)
Definition finish (c : ctx) (en : entry) (r : res (option gen_result))
    (w : World X) : World X :=
  let w1 := log (E_finished c (e_task en) (raised_of r)) w in
  match e_future en with
  | Some f =>
      if existsb (Nat.eqb f) (callbacks w1)
      then snd (run (eval_gen_task (outcome_of r)) c w1)
      else w1
  | None => w1
  end.

Definition with_world (w : World X) (s : Sched) : Sched :=
  {| ready_front := ready_front s; ready_worker := ready_worker s; world := w |}.

(** The first ready handle is started, or woken up, and runs until it is
    suspended or ends. *)
Definition begin_or_resume (c : ctx) (en : entry) (w : World X)
  : Co (option gen_result) * World X :=
  match e_cont en with
  | None => advance (body cfg (e_task en)) c (log (E_started c (e_task en)) w)
  | Some m => resume m c w
  end.

(** What is left to do with the handle: its future is completed when
    the coroutine has ended, and it waits again when it is suspended. *)
Definition settle (c : ctx) (en : entry) (m' : Co (option gen_result))
    (w : World X) : World X * list entry :=
  match m' with
  | Ret v => (finish c en (Ok v) w, [])
  | Raise e => (finish c en (Err e) w, [])
  | Act _ _ =>
      (w, [{| e_task := e_task en; e_future := e_future en; e_cont := Some m' |}])
  end.

(** One turn of the loop of context [c].  The coroutines scheduled
    during the turn are ready before the handle that was suspended in it. *)
Definition turn (c : ctx) (s : Sched) : Sched :=
  match ready c s with
  | [] => s
  | en :: rest =>
      let (m', w1) := begin_or_resume c en (world s) in
      let (w2, again) := settle c en m' w1 in
      let s' := flush (set_ready c rest (with_world w2 s)) in
      set_ready c (ready c s' ++ again) s'
  end.

(** What can happen next: a handler of the application schedules
    [start_gen_task] for a request (lines 88, 112, 140, 190), or one of
    the loops takes a turn. *)
Inductive move :=
| Arrive (update : Update) (d : data) (progress_msg : Message)
| Turn (c : ctx).

Definition step (mv : move) (s : Sched) : Sched :=
  match mv with
  | Arrive u d pm =>
      flush (with_world
               (snd (perform Front (a_create_task (T_start_gen_task u d pm))
                       (world s))) s)
  | Turn c => turn c s
  end.

Definition steps (mvs : list move) (s : Sched) : Sched :=
  fold_left (fun s' mv => step mv s') mvs s.

Definition boot (fs : list str) (x : X) : Sched :=
  {| ready_front := []; ready_worker := [];
     world := {| files := fs; ext := x; trace := []; spawned := [];
                 callbacks := []; next_future := O |} |}.

End Semantics.

(* ================================================================== *)
(** * Reading a trace *)
(* ================================================================== *)

(** The two routes a job outcome can take on the way back. *)
Inductive route := Fan_out | Failure_report.

Definition route_of (t : task) : list route :=
  match t with
  | T_post_eval_gen_task _ _ _ _ _ _ => [Fan_out]
  | T_post_eval_gen_report_error _ _ _ => [Failure_report]
  | _ => []
  end.

(** The routes that were entered, in the order they started. *)
Definition routes_taken (tr : list event) : list route :=
  flat_map (fun e => match e with E_started _ t => route_of t | _ => [] end) tr.

(** The messages whose deletion was attempted. *)
Definition delete_attempts (tr : list event) : list Message :=
  flat_map (fun e => match e with E_msg_delete _ m _ => [m] | _ => [] end) tr.

(** The voice replies that reached the requester: file and caption. *)
Definition delivered (tr : list event) : list (str * data) :=
  flat_map (fun e => match e with
                     | E_reply_voice _ _ v cap _ _ true => [(v, cap)]
                     | _ => []
                     end) tr.

Definition captions (tr : list event) : list data := map snd (delivered tr).

(** The text notices sent with [reply_html]. *)
Definition notices (tr : list event) : list (Message * str * Z) :=
  flat_map (fun e => match e with
                     | E_reply_html _ m text rt _ => [(m, text, rt)]
                     | _ => []
                     end) tr.

(** Calls of the two engines. *)
Definition engine_calls (tr : list event) : nat * nat :=
  (List.length (filter (fun e => match e with E_transcribe _ _ => true | _ => false end) tr),
   List.length (filter (fun e => match e with E_tts _ _ _ => true | _ => false end) tr)).

(** Hand-offs made with [asyncio.run_coroutine_threadsafe]. *)
Definition handoffs (tr : list event) : list (task * ctx) :=
  flat_map (fun e => match e with E_threadsafe _ t l => [(t, l)] | _ => [] end) tr.

(** Direct calls of [Application.create_task], with the calling context. *)
Definition created (tr : list event) : list (ctx * task) :=
  flat_map (fun e => match e with E_create_task c t => [(c, t)] | _ => [] end) tr.

Definition clears (tr : list event) : list str :=
  flat_map (fun e => match e with E_clear_dir _ d => [d] | _ => [] end) tr.

(** Jobs in the order they were handed to a loop. *)
Definition submissions (tr : list event) : list task :=
  flat_map (fun e => match e with
                     | E_threadsafe _ t _ => if is_job t then [t] else []
                     | _ => []
                     end) tr.

(** The start and end marks of jobs. *)
Definition job_mark (e : event) : bool :=
  match e with
  | E_started _ t | E_finished _ t _ => is_job t
  | _ => false
  end.

Definition executions (tr : list event) : list event := filter job_mark tr.

(** Jobs run one after the other on the worker, each to its end. *)
Definition serial (js : list task) : list event :=
  flat_map (fun t => [E_started Worker t; E_finished Worker t None]) js.

(** The start ([true]) and end ([false]) marks of the delivery
    coroutines, with the output path of their job. *)
Definition delivery_marks (tr : list event) : list (bool * str) :=
  flat_map (fun e => match e with
                     | E_started _ (T_post_eval_gen_task _ f _ _ _ _) => [(true, f)]
                     | E_finished _ (T_post_eval_gen_task _ f _ _ _ _) _ => [(false, f)]
                     | _ => []
                     end) tr.

Definition queued_jobs (q : list entry) : list task :=
  filter is_job (map e_task q).

(** [Application.create_task] belongs to the front context: it is safe
    only when called there. *)
Definition front_safe (tr : list event) : Prop :=
  forall c t, In (c, t) (created tr) -> c = Front.

(** A property of every action a coroutine can reach. *)
Fixpoint all_actions {A} (Pa : forall B, action B -> Prop) (m : Co A) : Prop :=
  match m with
  | Act a k => Pa _ a /\ forall b, all_actions Pa (k b)
  | _ => True
  end.

Definition await_free {A} (m : Co A) : Prop :=
  all_actions (fun _ a => suspends a = false) m.

(** Jobs are handed over, never created directly, and only to the worker. *)
Definition submits_to_worker B (a : action B) : Prop :=
  match a with
  | a_run_coroutine_threadsafe t loop => is_job t = true -> loop = Worker
  | a_create_task t => is_job t = false
  | _ => True
  end.

(* ================================================================== *)
(** * Notions used in the proofs *)
(* ================================================================== *)

(** A decimal rendering holds digits and at most a minus sign. *)
Definition digit_or_minus (c : char) : Prop := (c = 45 \/ 48 <= c <= 57)%N.

Definition no_slash (s : str) : Prop := ~ In PosixPath.SLASH s.

(** A name that is a real path component. *)
Definition proper_name (s : str) : Prop :=
  no_slash s /\ s <> [] /\ s <> lit "." /\ s <> lit "..".

(** Empty, or ending with a slash: what may stand before a file name. *)
Definition dirish (y : str) : Prop :=
  y = [] \/ exists z, y = z ++ [PosixPath.SLASH].

(** Events that touch neither the progress message, nor the requester's
    notices, nor the files, nor the loops. *)
Definition quiet (evs : list event) : Prop :=
  delete_attempts evs = [] /\ notices evs = [] /\ clears evs = []
  /\ created evs = [] /\ handoffs evs = [].

(** The last two statements of either branch of [post_eval_gen_task]. *)
Definition cleaned {X} (cfg : Config) (P : Platform X) (pm : Message)
    (c : ctx) (w : World X) : World X :=
  log (E_clear_dir c (RESULTS_PATH cfg))
    (set_files (clear_dir cfg (RESULTS_PATH cfg) (files w))
       (spawn (create_task_loop P c) (T_delete_progress_msg pm) None
          (log (E_create_task c (T_delete_progress_msg pm)) w))).

(** What [run_gen_audio] returns, whatever happened in the [try]. *)
Definition result_of (u : Update) (pm : Message) (fn : str) (st : UserSettings)
    (d' : data) : gen_result :=
  {| r_update := u; r_progress_msg := pm; r_filename_result := fn;
     r_data := d'; r_samples_num := samples_num st |}.

(** The hand-off of the [except] clause. *)
Definition handed_off {X} (cfg : Config) (P : Platform X) (t : task)
    (loop : ctx) (c : ctx) (w : World X) : World X :=
  snd (perform cfg P c (a_run_coroutine_threadsafe t loop) w).

Definition spawned_task (it : ctx * task * option future) : task := snd (fst it).

Definition jobs_spawned (sp : list (ctx * task * option future)) : list task :=
  filter is_job (map spawned_task sp).

(** Every job among the scheduled coroutines is bound for the worker. *)
Definition worker_bound (sp : list (ctx * task * option future)) : Prop :=
  Forall (fun it => is_job (spawned_task it) = true -> fst (fst it) = Worker) sp.

(** From [w] to [w'] the job marks [ex] were written, and every job
    handed over since is still among the scheduled coroutines. *)
Definition grows {X} (ex : list event) (w w' : World X) : Prop :=
  exists evs sp,
    trace w' = trace w ++ evs
    /\ spawned w' = spawned w ++ sp
    /\ executions evs = ex
    /\ submissions evs = jobs_spawned sp
    /\ worker_bound sp.

Definition ctx_eqb (a b : ctx) : bool :=
  match a, b with Front, Front | Worker, Worker => true | _, _ => false end.

(** The handles a flush adds to the queue of loop [c]. *)
Definition flushed_to (c : ctx) (sp : list (ctx * task * option future))
  : list entry :=
  flat_map (fun it => if ctx_eqb (fst (fst it)) c
                      then [fresh (spawned_task it) (snd it)] else []) sp.

(** A handle that has started is not a job and goes on handing jobs to
    the worker only. *)
Definition entry_ok (en : entry) : Prop :=
  match e_cont en with
  | Some m => all_actions submits_to_worker m /\ is_job (e_task en) = false
  | None => True
  end.

(** Between two moves: the jobs run so far ran one after the other, in
    the order they were handed over; the jobs handed over and not yet
    run wait in the worker's queue, in order; no job waits on the front
    loop; no coroutine scheduled is left unqueued. *)
Record Inv {X} (s : Sched X) : Prop := {
  inv_jobs :
    exists done,
      executions (trace (world s)) = serial done
      /\ submissions (trace (world s)) = done ++ queued_jobs (ready_worker s);
  inv_front : queued_jobs (ready_front s) = [];
  inv_cont : Forall entry_ok (ready_front s ++ ready_worker s);
  inv_spawned : spawned (world s) = [] }.

(* ================================================================== *)
(** * What the claims under test say, written out *)
(* ================================================================== *)

(** The caption the specification asks for. *)
Definition caption_spec (MAX : Z) (text : str) : str :=
  if len text <=? MAX then text else firstn (Z.to_nat MAX) text ++ lit "...".

(** Distinct submissions get distinct output paths. *)
Definition prefix_injective (results_path cwd : str) : Prop :=
  forall u1 t1 u2 t2,
    (u1 <> u2 \/ ~ (t1 == t2)%Q) ->
    filename_result results_path cwd u1 t1 <> filename_result results_path cwd u2 t2.



(** The job a coroutine of the pipeline works for, named by the
    progress message of the job. *)
Definition job_of (t : task) : option Message :=
  match t with
  | T_run_gen_audio _ pm _ _ _ _ _ => Some pm
  | T_post_eval_gen_task _ _ _ _ _ pm => Some pm
  | T_post_eval_gen_report_error _ pm _ => Some pm
  | _ => None
  end.

(** The jobs that have reached the terminal state [CleanedUp]: those
    whose delivery, or whose failure report, has run to its end. *)
Definition cleaned_up (tr : list event) : list Message :=
  flat_map (fun e => match e with
                     | E_finished _ (T_post_eval_gen_task _ _ _ _ _ pm) _ => [pm]
                     | E_finished _ (T_post_eval_gen_report_error _ pm _) _ => [pm]
                     | _ => []
                     end) tr.

(** A job starts only after every job handed over before it has
    reached its terminal state. *)
Definition starts_after_cleanup (tr : list event) : Prop :=
  forall before c t after earlier t' between later,
    tr = before ++ E_started c t :: after ->
    is_job t = true ->
    submissions tr = earlier ++ t' :: between ++ t :: later ->
    exists pm, job_of t' = Some pm /\ In pm (cleaned_up before).

(** Claim C8 as it stands: the jobs run in the order they were handed
    over, one at a time, and each starts only after the jobs before it
    have reached their terminal state. *)
Definition serial_and_after_cleanup (tr : list event) : Prop :=
  (exists k, executions tr = serial (firstn k (submissions tr)))
  /\ starts_after_cleanup tr.

(** The coroutines that ended by raising, with what they raised. *)
Definition task_failures (tr : list event) : list (task * exn) :=
  flat_map (fun e => match e with
                     | E_finished _ t (Some x) => [(t, x)]
                     | _ => []
                     end) tr.

(* ================================================================== *)
(** * A small deployment to run the model on *)
(* ================================================================== *)

Module Demo.

Definition cfg : Config := {|
  MAX_CHARS_NUM := 5;
  RESULTS_PATH := lit "/srv/results";
  QUERY_PATTERN_RETRY := lit "retry";
  getcwd := lit "/srv";
  validate_text := fun _ _ => (true, []);
  get_user_settings := fun _ =>
    {| voice := lit "v"; emotion := lit "calm"; samples_num := 2 |};
  get_user_voice_dir := fun _ => lit "/srv/voices";
  get_cis_locale_dict := fun s => [(lit "ru", s)];
  get_text_locale := fun _ _ en => en;
  ndarray_str := fun _ => lit "[...]" |}.

(** The collaborators' state: a clock in quarter seconds and the ids of
    the messages already deleted. *)
Record ext_state := { ticks : Z; deleted : list Z }.

(** The engine fails on the text "boom" and otherwise writes one file per
    sample; the converter needs its input file; a message can be deleted
    once. *)
Definition platform : Platform ext_state := {|
  transcribe_voice := fun _ x => (Ok (lit "heard"), x);
  tts_audio_from_text := fun fn text _ _ _ n fs x =>
    if str_eqb text (lit "boom")
    then (Err (Exn OtherException (lit "engine failure")), fs, x)
    else (Ok tt,
          fs ++ map (fun i => sample_file fn (Z.of_nat i)) (seq 0 (Z.to_nat n)),
          x);
  convert_to_voice := fun p fs x =>
    if existsb (str_eqb p) fs
    then (Ok (p ++ lit ".ogg"), fs ++ [p ++ lit ".ogg"], x)
    else (Err (Exn OtherException (lit "no such file")), fs, x);
  msg_delete := fun m x =>
    if existsb (Z.eqb (message_id m)) (deleted x)
    then (Err (Exn TelegramError (lit "Message to delete not found")), x)
    else (Ok tt, {| ticks := ticks x; deleted := message_id m :: deleted x |});
  reply_voice := fun _ _ _ _ _ x => (Ok tt, x);
  reply_html := fun _ _ _ x => (Ok tt, x);
  clock := fun x => ((ticks x # 4)%Q, {| ticks := ticks x + 1; deleted := deleted x |});
  create_task_loop := fun c => c |}.

Definition alice : User :=
  {| user_id := 7; full_name := lit "Alice"; mention_html := lit "@alice" |}.
Definition bob : User :=
  {| user_id := 8; full_name := lit "Bob"; mention_html := lit "@bob" |}.

Definition request (u : User) (id : Z) : Update :=
  {| effective_user := Some u;
     effective_message := Some {| message_id := id; caption := None |} |}.

Definition progress (id : Z) : Message := {| message_id := id; caption := None |}.

Definition start : Sched ext_state := boot [] {| ticks := 401; deleted := [] |}.

(** Turns enough to bring one request to rest. *)
Definition to_rest : list move :=
  [Turn Front; Turn Worker; Turn Front; Turn Worker; Turn Front; Turn Worker;
   Turn Front; Turn Worker; Turn Front; Turn Worker; Turn Front; Turn Worker].

Definition good_run : Sched ext_state :=
  steps cfg platform
    (Arrive (request alice 11) (Text (lit "hello world")) (progress 12) :: to_rest)
    start.

Definition failing_run : Sched ext_state :=
  steps cfg platform
    (Arrive (request alice 11) (Text (lit "boom")) (progress 12) :: to_rest)
    start.

(** Two requests; both jobs are synthesised, then the first is delivered
    and cleaned up while the second still waits for its delivery. *)
Definition two_jobs_synthesised : Sched ext_state :=
  steps cfg platform
    [Arrive (request alice 11) (Text (lit "one")) (progress 12);
     Arrive (request bob 21) (Text (lit "two")) (progress 22);
     Turn Front; Turn Front; Turn Worker; Turn Worker]
    start.

(** The output path of Alice's request and of Bob's. *)
Definition alice_wav : str := lit "/srv/results/7_100.wav".
Definition bob_wav : str := lit "/srv/results/8_100.wav".

(** The chat platform times out on the second sample of a job. *)
Definition flaky : Platform ext_state := {|
  transcribe_voice := transcribe_voice platform;
  tts_audio_from_text := tts_audio_from_text platform;
  convert_to_voice := convert_to_voice platform;
  msg_delete := msg_delete platform;
  reply_voice := fun _ v _ _ _ x =>
    if endswith (lit "_1.wav.ogg") v
    then (Err (Exn TelegramError (lit "Timed out")), x)
    else (Ok tt, x);
  reply_html := reply_html platform;
  clock := clock platform;
  create_task_loop := create_task_loop platform |}.

(** A world in which the engine has written three samples for Alice. *)
Definition three_samples : World ext_state :=
  {| files := map (sample_file alice_wav) [0; 1; 2];
     ext := {| ticks := 402; deleted := [] |};
     trace := []; spawned := []; callbacks := []; next_future := 1%nat |}.

Definition alice_msg : Message := {| message_id := 11; caption := None |}.

(** The first round of Alice's delivery loop on the flaky platform, and
    the second one, which times out. *)
Definition first_round : res data * World ext_state :=
  run cfg flaky
    (for_range 1 0 (deliver_sample cfg (Some alice) alice_wav (Some alice_msg))
       (Text (lit "hello world")))
    Front three_samples.

Definition second_round : res data * World ext_state :=
  run cfg flaky
    (deliver_sample cfg (Some alice) alice_wav (Some alice_msg) 1
       (Text (lit "hello...")))
    Front (snd first_round).

(** The [try] block of [run_gen_audio] on the text the engine fails on. *)
Definition boom_try : res (data * res unit) * World ext_state :=
  run cfg platform
    (run_gen_audio_try cfg (request alice 11) alice_wav (get_user_settings cfg 7)
       (Text (lit "boom")) (lit "/srv/voices"))
    Worker (world start).

(** Both jobs synthesised, then eight more turns of the loop that
    holds the two delivery coroutines. *)
Definition two_jobs_delivered : Sched ext_state :=
  steps cfg platform
    [Turn Worker; Turn Worker; Turn Worker; Turn Worker;
     Turn Worker; Turn Worker; Turn Worker; Turn Worker]
    two_jobs_synthesised.

End Demo.

(* ================================================================== *)
(** * More ways to read a trace *)
(* ================================================================== *)

(** The calls of [reply_voice], sent or not: the message replied to, the
    [reply_to_message_id] and the keyboard. *)
Definition voice_calls (tr : list event) : list (Message * Z * keyboard) :=
  flat_map (fun e => match e with
                     | E_reply_voice _ m _ _ rt mk _ => [(m, rt, mk)]
                     | _ => []
                     end) tr.

(** The files handed to [convert_to_voice], in order. *)
Definition converted (tr : list event) : list str :=
  flat_map (fun e => match e with E_convert _ p _ => [p] | _ => [] end) tr.

(** The messages written with [logger.error]. *)
Definition error_logs (tr : list event) : list str :=
  flat_map (fun e => match e with E_log_error _ msg _ => [msg] | _ => [] end) tr.

(** [range(n)] from [i] on. *)
Definition indices (i : Z) (n : nat) : list Z :=
  map (fun k => i + Z.of_nat k) (seq 0 n).

(* ================================================================== *)
(** * The handlers of the application *)
(* ================================================================== *)

(** The command, message and button handlers of lines 58-201 and
    [create_progress_msg].  They run on the application's loop, one
    update at a time; a handler is a function from the state of its
    surroundings to an outcome and a new state.  Four of them are wrapped
    by [user_restricted] of [modules.bot_utils]; what stands here is the
    function that is wrapped. *)
Module Bot.

(** [telegram.Voice], [telegram.File], [telegram.Chat] and
    [telegram.CallbackQuery], reduced to what the handlers read. *)
Record Voice := { file_id : str }.
Record File := { remote_path : str }.
Record Chat := { id : Z }.
Record CallbackQuery := { query_id : str; query_message : option Message }.

(** [update.message] with the attributes read by the handlers; [text] is
    read as a [str], the type [validate_text] is given. *)
Record UserMessage := {
  msg : Message;
  text : str;
  voice : option Voice }.

(** An update and its [context.args]. *)
Record Request := {
  update : Update;
  message : option UserMessage;
  callback_query : option CallbackQuery;
  effective_chat : option Chat;
  args : option (list str) }.

(** What a handler gives to [Application.create_task]: a coroutine of the
    pipeline, [answer_query(query)] of [modules.bot_utils], or
    [start_gen_task] called with [None] for its [data]. *)
Inductive scheduled :=
| S_task (t : task)
| S_answer_query (query : option CallbackQuery)
| S_start_gen_task_none (update : Update) (progress_msg : Message).

Inductive event :=
| Init_user (user_id : Z) (ok : bool)
| Reply_text (m : Message) (text : str) (reply_to : Z) (ok : bool)
| Reply_html (m : Message) (text : str) (reply_to : option Z) (ok : bool)
| Chat_action (chat_id : Z) (ok : bool)
| Send_message (chat_id : Z) (text : str) (html : bool) (sent : option Message)
| Create_task (s : scheduled)
| Open_w (p : str) (ok : bool)
| Get_file (v : Voice) (ok : bool)
| Download (p : str) (ok : bool)
| Load (p : str) (ok : bool)
| Remove_temp_file (p : str) (ok : bool)
| Log_error (msg : str) (exc_info : exn).

(** The collaborators of the handlers: the database, the chat platform,
    the file system, the audio loader and the clock.  Each may fail and
    may change a state [X] of its own. *)
Record Services (X : Type) := {
  init_user : Z -> X -> res unit * X;
  reply_text : Message -> str -> Z -> X -> res unit * X;
  reply_html : Message -> str -> option Z -> X -> res unit * X;
  send_chat_action : Z -> X -> res unit * X;
  send_message : Z -> str -> bool -> X -> res Message * X;
  open_w : str -> X -> res unit * X;
  get_file : Voice -> X -> res File * X;
  download_to_drive : File -> str -> X -> res unit * X;
  load : str -> X -> res ndarray * X;
  remove_temp_file : str -> X -> res unit * X;
  time : X -> Q * X }.

(** [user_data] is the entry of [context.user_data], the dictionary kept
    for the user of the update, under [TOGGLE_GEN_INLINE_KEY]. *)
Record State (X : Type) := {
  ext : X;
  user_data : option bool;
  trace : list event }.

Section Handlers.

Variable cfg : Config.
Variable X : Type.
Variable S : Services X.

Definition M (A : Type) : Type := State X -> res A * State X.

Definition ret {A} (a : A) : M A := fun s => (Ok a, s).

Definition raise {A} (e : exn) : M A := fun s => (Err e, s).

Definition bind {A B} (m : M A) (f : A -> M B) : M B :=
  fun s =>
    match m s with
    | (Ok a, s') => f a s'
    | (Err e, s') => (Err e, s')
    end.

Declare Scope bot_scope.
Delimit Scope bot_scope with bot.
Notation "x <- m ;; k" := (bind m (fun x => k))
  (at level 61, m at next level, right associativity) : bot_scope.
Notation "m ;;; k" := (bind m (fun _ => k))
  (at level 61, right associativity) : bot_scope.
Local Open Scope bot_scope.

(** Attribute access on a value that may be [None]. *)
Definition attr {A} (o : option A) : M A :=
  match o with
  | Some a => ret a
  | None => raise (Exn OtherException (lit "AttributeError"))
  end.

(** A call of a collaborator, recorded with the way it ended. *)
Definition ask {A} (f : X -> res A * X) (ev : res A -> event) : M A :=
  fun s =>
    let (r, x) := f (ext s) in
    (r, {| ext := x; user_data := user_data s; trace := trace s ++ [ev r] |}).

Definition sent_of (r : res Message) : option Message :=
  match r with Ok m => Some m | Err _ => None end.

(** [context.application.create_task(coroutine, update=update)] *)
Definition create_task (s : scheduled) : M unit :=
  fun st =>
    (Ok tt, {| ext := ext st; user_data := user_data st;
               trace := trace st ++ [Create_task s] |}).

(** [logger.error(msg=msg, exc_info=exc)] *)
Definition log_error (m : str) (exc : exn) : M unit :=
  fun st =>
    (Ok tt, {| ext := ext st; user_data := user_data st;
               trace := trace st ++ [Log_error m exc] |}).

(** [context.user_data.get(TOGGLE_GEN_INLINE_KEY, None)] *)
Definition get_toggle : M (option bool) := fun st => (Ok (user_data st), st).

(** [context.user_data[TOGGLE_GEN_INLINE_KEY] = b] *)
Definition set_toggle (b : bool) : M unit :=
  fun st => (Ok tt, {| ext := ext st; user_data := Some b; trace := trace st |}).

(** [time.time()] *)
Definition now : M Q :=
  fun st =>
    let (t, x) := time S (ext st) in
    (Ok t, {| ext := x; user_data := user_data st; trace := trace st |}).

(** [try: body  except TelegramError: handler] *)
Definition try_except_telegram {A} (body : M A) (handler : M A) : M A :=
  fun s =>
    match body s with
    | (Ok a, s') => (Ok a, s')
    | (Err e, s') => if is_telegram_error e then handler s' else (Err e, s')
    end.

(** [try: body  except Exception as e: handler e  finally: final].  The
    [finally] clause runs on every way out; an exception it raises
    replaces whatever was on its way. *)
Definition try_except_finally {A} (body : M A) (handler : exn -> M A)
    (final : M unit) : M A :=
  fun s =>
    let (r, s1) :=
      match body s with
      | (Ok a, s') => (Ok a, s')
      | (Err e, s') => handler e s'
      end in
    match final s1 with
    | (Ok _, s2) => (r, s2)
    | (Err e', s2) => (Err e', s2)
    end.

(** [not x] for a value that is [None] or a [bool]. *)
Definition py_not (x : option bool) : bool :=
  match x with Some true => false | _ => true end.

(** Lines 280-287. *)
Definition create_progress_msg (rq : Request) : M Message :=
  chat <- attr (effective_chat rq) ;;
  let chat_id := id chat in
  let wait_emoji_ucode : str := [9203%N] in
  ask (send_chat_action S chat_id) (fun r => Chat_action chat_id (is_ok r)) ;;;
  let text :=
    get_text_locale cfg (effective_user (update rq))
      (get_cis_locale_dict cfg
         (wait_emoji_ucode ++ lit "Синтез в процессе..." ++ wait_emoji_ucode))
      (wait_emoji_ucode ++ lit "Synthesis is in progress..." ++ wait_emoji_ucode) in
  ask (send_message S chat_id text false)
    (fun r => Send_message chat_id text false (sent_of r)).

(** Lines 58-65. *)
Definition start_cmd (rq : Request) : M unit :=
  let user := effective_user (update rq) in
  u <- attr user ;;
  ask (init_user S (user_id u)) (fun r => Init_user (user_id u) (is_ok r)) ;;;
  let reply :=
    get_text_locale cfg user
      (get_cis_locale_dict cfg
         (lit "Здравствуйте, " ++ mention_html u ++
          lit "! Вызовите /help чтобы узнать как пользоваться ботом"))
      (lit "Hi, " ++ mention_html u ++
       lit "! Call /help to get info about bot usage") in
  m <- attr (message rq) ;;
  ask (reply_html S (msg m) reply None)
    (fun r => Reply_html (msg m) reply None (is_ok r)).

(** The reply of lines 83 and 107. *)
Definition invalid_text_reply (user : option User) (val_err_msg : str) : str :=
  get_text_locale cfg user
    (get_cis_locale_dict cfg
       (lit "Ошибка: обнаружен неприемлемый символ в тексте. " ++ val_err_msg))
    (lit "Error: Invalid text detected. " ++ val_err_msg).

(** Lines 68-88. *)
Definition gen_audio_cmd (rq : Request) : M unit :=
  m <- attr (message rq) ;;
  let reply_id := message_id (msg m) in
  let user := effective_user (update rq) in
  u <- attr user ;;
  ask (init_user S (user_id u)) (fun r => Init_user (user_id u) (is_ok r)) ;;;
  match args rq with
  | Some (a :: l) =>
      let text := join_with (lit " ") (a :: l) in
      let (val_res, val_err_msg) := validate_text cfg user text in
      if negb val_res
      then
        let reply := invalid_text_reply user val_err_msg in
        ask (reply_text S (msg m) reply reply_id)
          (fun r => Reply_text (msg m) reply reply_id (is_ok r))
      else
        prog_msg <- create_progress_msg rq ;;
        create_task (S_task (T_start_gen_task (update rq) (Text text) prog_msg))
  | _ =>
      let reply :=
        get_text_locale cfg user
          (get_cis_locale_dict cfg
             (lit "Ошибка: неверно вызвана команда, предоставьте текст вместе с командой (прим. /gen текст)"))
          (lit "Error: invalid arguments provided, provide text next to the command") in
      ask (reply_text S (msg m) reply reply_id)
        (fun r => Reply_text (msg m) reply reply_id (is_ok r))
  end.

(** The hint of lines 99-100. *)
Definition inline_hint (user : option User) : str :=
  get_text_locale cfg user
    (get_cis_locale_dict cfg
       (lit "Подсказка: если вы пытаетесь вызвать синтез, пожалуйста включите данный режим командой /toggle_inline"))
    (lit "Hint: if you trying to start audio synthesis, please enable the inline mode via /toggle_inline").

(** Lines 91-112. *)
Definition gen_audio_inline (rq : Request) : M unit :=
  inline_toggle <- get_toggle ;;
  m <- attr (message rq) ;;
  let reply_id := message_id (msg m) in
  let user := effective_user (update rq) in
  u <- attr user ;;
  ask (init_user S (user_id u)) (fun r => Init_user (user_id u) (is_ok r)) ;;;
  if py_not inline_toggle
  then
    let reply := inline_hint user in
    ask (reply_html S (msg m) reply (Some reply_id))
      (fun r => Reply_html (msg m) reply (Some reply_id) (is_ok r))
  else
    let text := text m in
    let (val_res, val_err_msg) := validate_text cfg user text in
    if negb val_res
    then
      let reply := invalid_text_reply user val_err_msg in
      ask (reply_text S (msg m) reply reply_id)
        (fun r => Reply_text (msg m) reply reply_id (is_ok r))
    else
      prog_msg <- create_progress_msg rq ;;
      create_task (S_task (T_start_gen_task (update rq) (Text text) prog_msg)).

(** The reply of lines 125-126. *)
Definition toggle_reply (user : option User) (inline_toggle : bool) : str :=
  get_text_locale cfg user
    (get_cis_locale_dict cfg
       (lit "Режим синтеза через текстовые сообщения " ++
        (if inline_toggle then lit "Включен" else lit "Выключен")))
    (lit "Inline audio generation mode is " ++
     (if inline_toggle then lit "On" else lit "Off")).

(** Lines 115-127. *)
Definition toggle_inline_cmd (rq : Request) : M unit :=
  m <- attr (message rq) ;;
  let reply_id := message_id (msg m) in
  inline_toggle <- get_toggle ;;
  let inline_toggle :=
    match inline_toggle with
    | None => true
    | Some b => py_not (Some b)
    end in
  set_toggle inline_toggle ;;;
  let reply := toggle_reply (effective_user (update rq)) inline_toggle in
  ask (reply_text S (msg m) reply reply_id)
    (fun r => Reply_text (msg m) reply reply_id (is_ok r)).

(** Lines 130-140. *)
Definition retry_button (rq : Request) : M unit :=
  let query := callback_query rq in
  let user := effective_user (update rq) in
  u <- attr user ;;
  ask (init_user S (user_id u)) (fun r => Init_user (user_id u) (is_ok r)) ;;;
  create_task (S_answer_query query) ;;;
  prog_msg <- create_progress_msg rq ;;
  q <- attr query ;;
  qm <- attr (query_message q) ;;
  create_task
    match caption qm with
    | Some c => S_task (T_start_gen_task (update rq) (Text c) prog_msg)
    | None => S_start_gen_task_none (update rq) prog_msg
    end.

(** The [try] block of lines 176-180. *)
Definition download_voice (v : Voice) (file_path : str) : M ndarray :=
  ask (open_w S file_path) (fun r => Open_w file_path (is_ok r)) ;;;
  file <- ask (get_file S v) (fun r => Get_file v (is_ok r)) ;;
  ask (download_to_drive S file file_path)
    (fun r => Download file_path (is_ok r)) ;;;
  ask (load S file_path) (fun r => Load file_path (is_ok r)).

(** Lines 167-190. *)
Definition gen_audio_from_voice (rq : Request) : M unit :=
  let user := effective_user (update rq) in
  u <- attr user ;;
  ask (init_user S (user_id u)) (fun r => Init_user (user_id u) (is_ok r)) ;;;
  m <- attr (message rq) ;;
  audio <-
    match voice m with
    | Some v =>
        t <- now ;;
        let file_path :=
          voice_file_path (RESULTS_PATH cfg) (getcwd cfg) (user_id u) t in
        let remove :=
          ask (remove_temp_file S file_path)
            (fun r => Remove_temp_file file_path (is_ok r)) in
        try_except_finally
          (download_voice v file_path)
          (fun e =>
             remove ;;;
             raise (ExnFrom TelegramError
                      (lit "Audio from voice Error: download failure") e))
          remove
    | None => raise (Exn TelegramError (lit "Audio from voice Error: no voice"))
    end ;;
  prog_msg <- create_progress_msg rq ;;
  create_task (S_task (T_start_gen_task (update rq) (Audio audio) prog_msg)).

(** The reply of lines 196-197. *)
Definition internal_error_reply (u : User) : str :=
  get_text_locale cfg (Some u)
    (get_cis_locale_dict cfg
       (mention_html u ++
        lit ", к сожалению произошла внутренняя ошибка сервера во время обработки команды, пожалуйста попробуйте еще раз"))
    (lit "Sorry " ++ mention_html u ++
     lit ", there has been a Server Internal Error when processing your command, please try again").

(** Lines 193-201; [rq] is [None] for an error raised outside of an
    update, [error] is [context.error]. *)
Definition error_handler (rq : option Request) (error : exn) : M unit :=
  log_error (lit "Exception while handling an update:") error ;;;
  match rq with
  | Some r =>
      match effective_message (update r), effective_user (update r) with
      | Some m, Some u =>
          let reply := internal_error_reply u in
          try_except_telegram
            (ask (reply_html S m reply (Some (message_id m)))
               (fun r' => Reply_html m reply (Some (message_id m)) (is_ok r')))
            (chat <- attr (effective_chat r) ;;
             ask (send_message S (id chat) reply true)
               (fun r' => Send_message (id chat) reply true (sent_of r')) ;;;
             ret tt)
      | _, _ => ret tt
      end
  | None => ret tt
  end.

End Handlers.

(* ------------------------------------------------------------------ *)
(** ** Reading a handler's trace *)

(** The coroutines given to [Application.create_task], in order. *)
Definition scheduled_by (tr : list event) : list scheduled :=
  flat_map (fun e => match e with Create_task s => [s] | _ => [] end) tr.

(** The users initialised in the database. *)
Definition initialised (tr : list event) : list Z :=
  flat_map (fun e => match e with Init_user u true => [u] | _ => [] end) tr.

(** The paths given to [remove_temp_file]. *)
Definition removals (tr : list event) : list str :=
  flat_map (fun e => match e with Remove_temp_file p _ => [p] | _ => [] end) tr.

(** The texts sent to the chat, by any of the three ways. *)
Definition texts_sent (tr : list event) : list str :=
  flat_map (fun e => match e with
                     | Reply_text _ t _ _ | Reply_html _ t _ _
                     | Send_message _ t _ _ => [t]
                     | _ => []
                     end) tr.

(** The progress messages the platform has sent. *)
Definition progress_msgs (tr : list event) : list Message :=
  flat_map (fun e => match e with
                     | Send_message _ _ false (Some m) => [m]
                     | _ => []
                     end) tr.

(** The removals that raised. *)
Definition failed_removals (tr : list event) : list str :=
  flat_map (fun e => match e with Remove_temp_file p false => [p] | _ => [] end) tr.

(** Whether a step of the [try] block of lines 176-180 has raised. *)
Definition download_failed (tr : list event) : bool :=
  existsb (fun e => match e with
                    | Open_w _ false | Get_file _ false
                    | Download _ false | Load _ false => true
                    | _ => false
                    end) tr.

(** The replies made with [reply_html]. *)
Definition html_replies (tr : list event) : list str :=
  flat_map (fun e => match e with Reply_html _ t _ _ => [t] | _ => [] end) tr.

(** The events that come from the chat platform, the file system, the
    loader, and the scheduling of coroutines: everything but the
    database and the log. *)
Definition visible (e : event) : bool :=
  match e with
  | Init_user _ _ | Log_error _ _ => false
  | _ => true
  end.

(** A handler that does nothing one can see unless it has initialised a
    user, and initialises no one but the user of the update. *)
Definition acts_for_initialised_user (rq : Request) (evs : list event) : Prop :=
  (initialised evs = [] -> filter visible evs = [])
  /\ (forall uid,
        In uid (initialised evs) ->
        exists u, effective_user (update rq) = Some u /\ user_id u = uid).

(** Whether a scheduled coroutine is a call of [start_gen_task]. *)
Definition is_gen_task (sc : scheduled) : bool :=
  match sc with
  | S_task (T_start_gen_task _ _ _) | S_start_gen_task_none _ _ => true
  | _ => false
  end.

End Bot.

(* ------------------------------------------------------------------ *)
(** ** Requests to run the handlers on *)

Module BotDemo.

(** Collaborators that never fail; the state counts the messages sent,
    and a sent message gets the count as its id. *)
Definition services : Bot.Services Z := {|
  Bot.init_user := fun _ x => (Ok tt, x);
  Bot.reply_text := fun _ _ _ x => (Ok tt, x + 1);
  Bot.reply_html := fun _ _ _ x => (Ok tt, x + 1);
  Bot.send_chat_action := fun _ x => (Ok tt, x);
  Bot.send_message := fun _ _ _ x =>
    (Ok {| message_id := x; caption := None |}, x + 1);
  Bot.open_w := fun _ x => (Ok tt, x);
  Bot.get_file := fun v x => (Ok {| Bot.remote_path := Bot.file_id v |}, x);
  Bot.download_to_drive := fun _ _ x => (Ok tt, x);
  Bot.load := fun _ x => (Ok [1 # 2; 1 # 4]%Q, x);
  Bot.remove_temp_file := fun _ x => (Ok tt, x);
  Bot.time := fun x => ((401 # 4)%Q, x) |}.

(** A configuration whose [validate_text] rejects every text. *)
Definition strict : Config := {|
  MAX_CHARS_NUM := MAX_CHARS_NUM Demo.cfg;
  RESULTS_PATH := RESULTS_PATH Demo.cfg;
  QUERY_PATTERN_RETRY := QUERY_PATTERN_RETRY Demo.cfg;
  getcwd := getcwd Demo.cfg;
  validate_text := fun _ _ => (false, lit "bad character");
  get_user_settings := get_user_settings Demo.cfg;
  get_user_voice_dir := get_user_voice_dir Demo.cfg;
  get_cis_locale_dict := get_cis_locale_dict Demo.cfg;
  get_text_locale := get_text_locale Demo.cfg;
  ndarray_str := ndarray_str Demo.cfg |}.

(** Alice sends the text message 11 in chat 5. *)
Definition text_request : Bot.Request := {|
  Bot.update := Demo.request Demo.alice 11;
  Bot.message :=
    Some {| Bot.msg := Demo.alice_msg; Bot.text := lit "hello world";
            Bot.voice := None |};
  Bot.callback_query := None;
  Bot.effective_chat := Some {| Bot.id := 5 |};
  Bot.args := Some [lit "hello"; lit "world"] |}.

(** Alice presses the button under a voice reply captioned "hello...". *)
Definition retry_request : Bot.Request := {|
  Bot.update := Demo.request Demo.alice 11;
  Bot.message := None;
  Bot.callback_query :=
    Some {| Bot.query_id := lit "q1";
            Bot.query_message :=
              Some {| message_id := 30; caption := Some (lit "hello...") |} |};
  Bot.effective_chat := Some {| Bot.id := 5 |};
  Bot.args := None |}.

Definition idle : Bot.State Z :=
  {| Bot.ext := 40; Bot.user_data := None; Bot.trace := [] |}.

End BotDemo.

(** The two jobs of [Demo.two_jobs_synthesised], and what the delivery
    of a job without sample files raises. *)
Module DemoJobs.

Definition alice_job : task :=
  T_run_gen_audio (Demo.request Demo.alice 11) (Demo.progress 12)
    Demo.alice_wav (get_user_settings Demo.cfg 7) (Text (lit "one"))
    (lit "/srv/voices") Front.

Definition bob_job : task :=
  T_run_gen_audio (Demo.request Demo.bob 21) (Demo.progress 22)
    Demo.bob_wav (get_user_settings Demo.cfg 8) (Text (lit "two"))
    (lit "/srv/voices") Front.

Definition delivery_error : exn :=
  ExnFrom TelegramError (lit "Audio generation Error")
    (Exn OtherException (lit "no such file")).

End DemoJobs.

(* ================================================================== *)
(** * Checks on small inputs *)
(* ================================================================== *)

Example lit_ascii : lit "a_b.wav" = [97; 95; 98; 46; 119; 97; 118]%N.
Proof. reflexivity. Qed.

Example lit_cyrillic : lit "Да" = [1044; 1072]%N.
Proof. reflexivity. Qed.

Example str_of_Z_examples :
  str_of_Z 0 = lit "0" /\ str_of_Z 1700000000 = lit "1700000000"
  /\ str_of_Z (-42) = lit "-42".
Proof. repeat split; reflexivity. Qed.

Example replace_example :
  replace (lit ".wav") (lit "_1.wav") (lit "/r/7_100.wav") = lit "/r/7_100_1.wav".
Proof. reflexivity. Qed.

Example slice_examples :
  slice_to (lit "hello") 3 = lit "hel" /\ slice_to (lit "hello") 9 = lit "hello"
  /\ slice_to (lit "hello") (-1) = lit "hell".
Proof. repeat split; reflexivity. Qed.

Example sample_file_example :
  sample_file Demo.alice_wav 1 = lit "/srv/results/7_100_1.wav".
Proof. reflexivity. Qed.

Example filename_result_example :
  filename_result (lit "results") (lit "/srv/bot") 7 (1700000000 # 1)%Q
  = lit "/srv/bot/results/7_1700000000.wav"
  /\ filename_result (lit "../out/") (lit "/srv/bot") 7 (3 # 2)%Q
     = lit "/srv/out/7_1.wav".
Proof. split; vm_compute; reflexivity. Qed.

Example elide_short_and_long :
  elide 5 (lit "hello") = lit "hello"
  /\ elide 5 (lit "hello world") = lit "hello..."
  /\ elide 0 (lit "hi") = lit "...".
Proof. repeat split; reflexivity. Qed.

(** With a negative maximum Python's slice counts from the end, and
    cutting twice is no longer cutting once. *)
Example elide_negative_maximum :
  elide (-1) (lit "ab") = lit "a..."
  /\ elide (-1) (lit "a...") = lit "a.....".
Proof. split; reflexivity. Qed.

(** A request that succeeds takes the delivery route only, and both
    samples carry the cut caption. *)
Example good_run_routes :
  routes_taken (trace (world Demo.good_run)) = [Fan_out]
  /\ captions (trace (world Demo.good_run))
     = [Text (lit "hello..."); Text (lit "hello...")]
  /\ notices (trace (world Demo.good_run)) = []
  /\ files (world Demo.good_run) = [].
Proof. vm_compute. auto. Qed.

(** Two requests are synthesised in the order they arrived. *)
Example two_jobs_in_order :
  map r_filename_result
    (flat_map (fun t => match t with
                        | T_post_eval_gen_task u f d n _ pm =>
                            [{| r_update := u; r_progress_msg := pm;
                                r_filename_result := f; r_data := d;
                                r_samples_num := n |}]
                        | _ => []
                        end)
       (map e_task (ready_worker Demo.two_jobs_synthesised)))
  = [Demo.alice_wav; Demo.bob_wav].
Proof. vm_compute. reflexivity. Qed.

(** The two jobs run on the worker one after the other, each from its
    start mark to its end mark. *)
Example two_jobs_execute_serially :
  executions (trace (world Demo.two_jobs_synthesised))
  = serial (submissions (trace (world Demo.two_jobs_synthesised)))
  /\ List.length (submissions (trace (world Demo.two_jobs_synthesised))) = 2%nat.
Proof. vm_compute. auto. Qed.

(** The delivery coroutines await the chat platform and do overlap:
    Bob's delivery starts before Alice's has ended. *)
Example deliveries_overlap :
  delivery_marks (trace (world Demo.two_jobs_delivered))
  = [(true, Demo.alice_wav); (true, Demo.bob_wav);
     (false, Demo.alice_wav); (false, Demo.bob_wav)].
Proof. vm_compute. reflexivity. Qed.

(* ================================================================== *)
(** * Facts about strings *)
(* ================================================================== *)

Lemma str_eqb_eq (a b : str) : str_eqb a b = true <-> a = b.
Proof.
  unfold str_eqb. destruct (list_eq_dec N.eq_dec a b); split; congruence.
Qed.

Lemma str_eqb_neq (a b : str) : a <> b -> str_eqb a b = false.
Proof.
  intros H. destruct (str_eqb a b) eqn:E; auto.
  apply str_eqb_eq in E. contradiction.
Qed.

Lemma len_app {A} (a b : list A) : len (a ++ b) = len a + len b.
Proof. unfold len. rewrite length_app. lia. Qed.

Lemma slice_to_nonneg {A} (s : list A) (n : Z) :
  0 <= n -> slice_to s n = firstn (Z.to_nat n) s.
Proof.
  intros H. unfold slice_to.
  destruct (n <? 0) eqn:E; auto. apply Z.ltb_lt in E. lia.
Qed.

(** The caption rule of lines 266-267 is the one the specification
    states. *)
Lemma elide_caption_spec (MAX : Z) (t : str) :
  0 <= MAX -> elide MAX t = caption_spec MAX t.
Proof.
  intros H. unfold elide, caption_spec.
  rewrite slice_to_nonneg by assumption.
  destruct (len t >? MAX) eqn:G; destruct (len t <=? MAX) eqn:L; auto.
  - apply Z.leb_le in L. rewrite Z.gtb_ltb in G. apply Z.ltb_lt in G. lia.
  - apply Z.leb_gt in L. rewrite Z.gtb_ltb in G. apply Z.ltb_ge in G. lia.
Qed.

(** Cutting a caption that was already cut changes nothing. *)
Lemma elide_idempotent (MAX : Z) (t : str) :
  0 <= MAX -> elide MAX (elide MAX t) = elide MAX t.
Proof.
  intros H. unfold elide at 2 3.
  destruct (len t >? MAX) eqn:G; [|unfold elide; now rewrite G].
  rewrite Z.gtb_ltb in G. apply Z.ltb_lt in G.
  rewrite slice_to_nonneg by assumption.
  assert (L : List.length (firstn (Z.to_nat MAX) t) = Z.to_nat MAX).
  { apply firstn_length_le. unfold len in G. lia. }
  unfold elide.
  replace (len (firstn (Z.to_nat MAX) t ++ lit "...") >? MAX) with true.
  - rewrite slice_to_nonneg by assumption.
    rewrite firstn_app, L, Nat.sub_diag. simpl firstn at 2.
    rewrite app_nil_r, firstn_firstn, Nat.min_id. reflexivity.
  - symmetry. rewrite Z.gtb_ltb. apply Z.ltb_lt.
    rewrite len_app. unfold len at 1. rewrite L.
    change (len (lit "...")) with 3. lia.
Qed.

(* ------------------------------------------------------------------ *)
(** ** Decimal rendering *)

Lemma map_N_of_ascii_inj (a b : list ascii) :
  map N_of_ascii a = map N_of_ascii b -> a = b.
Proof.
  revert b. induction a as [|x a IH]; destruct b as [|y b]; simpl; try discriminate; auto.
  intros [= Hxy Hab]. f_equal; auto.
  rewrite <- (ascii_N_embedding x), <- (ascii_N_embedding y). now rewrite Hxy.
Qed.

Lemma str_of_Z_inj (a b : Z) : str_of_Z a = str_of_Z b -> a = b.
Proof.
  unfold str_of_Z. intros H.
  apply map_N_of_ascii_inj in H.
  apply (f_equal string_of_list_ascii) in H.
  rewrite !string_of_list_ascii_of_string in H.
  apply (f_equal NilEmpty.int_of_string) in H.
  rewrite !NilEmpty.isi in H.
  injection H as H. now apply DecimalZ.to_int_inj.
Qed.

Lemma string_of_uint_digits (d : Decimal.uint) :
  Forall digit_or_minus
    (map N_of_ascii (list_ascii_of_string (NilEmpty.string_of_uint d))).
Proof.
  induction d; simpl; constructor; auto; right; vm_compute; split; discriminate.
Qed.

Lemma str_of_Z_digits (z : Z) : Forall digit_or_minus (str_of_Z z).
Proof.
  unfold str_of_Z. destruct (Z.to_int z) as [d|d]; simpl.
  - apply string_of_uint_digits.
  - constructor; [now left | apply string_of_uint_digits].
Qed.

Lemma str_of_Z_avoids (c : char) (z : Z) :
  ~ digit_or_minus c -> ~ In c (str_of_Z z).
Proof.
  intros Hc Hin. pose proof (str_of_Z_digits z) as F.
  rewrite Forall_forall in F. auto.
Qed.

(* ------------------------------------------------------------------ *)
(** ** File names *)

(** Two texts with the same separator-free head before a separator. *)
Lemma app_sep_inj (c : char) (a a' b b' : str) :
  ~ In c a -> ~ In c a' -> a ++ c :: b = a' ++ c :: b' -> a = a' /\ b = b'.
Proof.
  revert a'. induction a as [|x a IH]; intros [|y a'] Ha Ha' E; simpl in *.
  - injection E as E. auto.
  - injection E as E1 E2. subst. tauto.
  - injection E as E1 E2. subst. tauto.
  - injection E as E1 E2. subst.
    destruct (IH a') as [-> ->]; tauto.
Qed.

(** [str(u) + "_" + str(i) + suffix], the shape of both file names. *)
Lemma stamped_inj (u1 u2 i1 i2 : Z) (suffix : str) :
  str_of_Z u1 ++ lit "_" ++ str_of_Z i1 ++ suffix
  = str_of_Z u2 ++ lit "_" ++ str_of_Z i2 ++ suffix ->
  u1 = u2 /\ i1 = i2.
Proof.
  change (lit "_") with [95%N]. simpl app. intros E.
  apply app_sep_inj in E.
  - destruct E as [E1 E2]. apply str_of_Z_inj in E1.
    apply app_inv_tail in E2. apply str_of_Z_inj in E2. auto.
  - apply str_of_Z_avoids. unfold digit_or_minus. lia.
  - apply str_of_Z_avoids. unfold digit_or_minus. lia.
Qed.

Lemma wav_name_inj (u1 u2 : Z) (t1 t2 : Q) :
  wav_name u1 t1 = wav_name u2 t2 -> u1 = u2 /\ py_int t1 = py_int t2.
Proof. apply stamped_inj. Qed.

Lemma ogg_name_inj (u1 u2 : Z) (t1 t2 : Q) :
  ogg_name u1 t1 = ogg_name u2 t2 -> u1 = u2 /\ py_int t1 = py_int t2.
Proof. unfold ogg_name. apply (@stamped_inj u1 u2 _ _ (lit "." ++ lit "ogg")). Qed.

Lemma stamped_proper (u i : Z) (suffix : str) :
  no_slash suffix ->
  proper_name (str_of_Z u ++ lit "_" ++ str_of_Z i ++ suffix).
Proof.
  intros Hs.
  assert (H : In 95%N (str_of_Z u ++ lit "_" ++ str_of_Z i ++ suffix)).
  { rewrite !in_app_iff. right. left. now left. }
  repeat split.
  - unfold no_slash in *. rewrite !in_app_iff. intros [G|[G|[G|G]]].
    + revert G. apply str_of_Z_avoids. unfold digit_or_minus, PosixPath.SLASH. lia.
    + vm_compute in G. intuition discriminate.
    + revert G. apply str_of_Z_avoids. unfold digit_or_minus, PosixPath.SLASH. lia.
    + auto.
  - intros E. rewrite E in H. inversion H.
  - intros E. rewrite E in H. vm_compute in H. intuition discriminate.
  - intros E. rewrite E in H. vm_compute in H. intuition discriminate.
Qed.

Lemma wav_name_proper (u : Z) (t : Q) : proper_name (wav_name u t).
Proof.
  apply stamped_proper. unfold no_slash. vm_compute. intuition discriminate.
Qed.

Lemma ogg_name_proper (u : Z) (t : Q) : proper_name (ogg_name u t).
Proof.
  apply (@stamped_proper u (py_int t) (lit "." ++ lit "ogg")).
  unfold no_slash. vm_compute. intuition discriminate.
Qed.

(* ------------------------------------------------------------------ *)
(** ** Paths *)

Import PosixPath.

Lemma split_on_nonempty (c : char) (s : str) : split_on c s <> [].
Proof.
  destruct s as [|x s]; simpl; [discriminate|].
  destruct (x =? c)%N; [discriminate|].
  destruct (split_on c s); discriminate.
Qed.

Lemma split_on_no_sep (s : str) : no_slash s -> split_on SLASH s = [s].
Proof.
  unfold no_slash. induction s as [|x s IH]; simpl; intros H; auto.
  destruct (N.eqb_spec x SLASH) as [->|_]; [tauto|].
  rewrite IH by tauto. reflexivity.
Qed.

Lemma split_on_app_sep (z name : str) :
  no_slash name ->
  split_on SLASH (z ++ SLASH :: name) = split_on SLASH z ++ [name].
Proof.
  intros Hn. induction z as [|x z IH]; simpl.
  - rewrite ?N.eqb_refl, split_on_no_sep by assumption. reflexivity.
  - destruct (x =? SLASH)%N.
    + now rewrite IH.
    + rewrite IH. pose proof (split_on_nonempty SLASH z) as NE.
      destruct (split_on SLASH z); [contradiction|reflexivity].
Qed.

Lemma dirish_app (a y : str) : dirish a -> dirish y -> dirish (a ++ y).
Proof.
  intros Ha [->|[z ->]].
  - now rewrite app_nil_r.
  - right. exists (a ++ z). now rewrite app_assoc.
Qed.

Lemma split_on_dirish (y name : str) :
  dirish y -> no_slash name ->
  exists cs, split_on SLASH (y ++ name) = cs ++ [name].
Proof.
  intros [->|[z ->]] Hn.
  - exists []. now apply split_on_no_sep.
  - exists (split_on SLASH z). rewrite <- app_assoc. now apply split_on_app_sep.
Qed.

Lemma basename_dirish (y name : str) :
  dirish y -> no_slash name -> basename (y ++ name) = name.
Proof.
  intros Hy Hn. unfold basename.
  destruct (split_on_dirish Hy Hn) as [cs ->]. apply last_last.
Qed.

Lemma proper_not_abs (name : str) : proper_name name -> startswith sep name = false.
Proof.
  intros (Hn & Hne & _). destruct name as [|x name]; [contradiction|].
  unfold no_slash in Hn. change sep with [SLASH]. cbn [startswith].
  destruct (N.eqb_spec SLASH x) as [<-|_]; [|reflexivity].
  exfalso. apply Hn. now left.
Qed.

Lemma endswith_sep_dirish (a : str) : endswith sep a = true -> dirish a.
Proof.
  unfold endswith. change (rev sep) with [SLASH]. intros H. right.
  destruct (rev a) as [|x r] eqn:E; cbn [startswith] in H; [discriminate|].
  apply andb_true_iff in H as [H _]. apply N.eqb_eq in H. subst x.
  exists (rev r). rewrite <- (rev_involutive a), E. reflexivity.
Qed.

Lemma join_dirish (a y name : str) :
  dirish y -> startswith sep (y ++ name) = false ->
  exists y', dirish y' /\ join a (y ++ name) = y' ++ name.
Proof.
  intros Hy Hrel. unfold join. rewrite Hrel.
  destruct (str_eqb a [] || endswith sep a) eqn:E.
  - exists (a ++ y). split; [|now rewrite app_assoc].
    apply dirish_app; auto. apply orb_true_iff in E as [E|E].
    + apply str_eqb_eq in E. now left.
    + now apply endswith_sep_dirish.
  - exists ((a ++ sep) ++ y). split; [|now rewrite <- !app_assoc].
    apply dirish_app; auto. right. now exists a.
Qed.

Lemma join_with_snoc (s : str) (acc : list str) (x : str) :
  join_with s (acc ++ [x]) =
  match acc with [] => x | _ => join_with s acc ++ s ++ x end.
Proof.
  induction acc as [|a acc IH]; [reflexivity|].
  destruct acc as [|b acc]; [reflexivity|].
  change (join_with s ((a :: b :: acc) ++ [x]))
    with (a ++ s ++ join_with s ((b :: acc) ++ [x])).
  rewrite IH.
  change (join_with s (a :: b :: acc)) with (a ++ s ++ join_with s (b :: acc)).
  now rewrite <- !app_assoc.
Qed.

Lemma normpath_step_proper (k : nat) (acc : list str) (name : str) :
  proper_name name -> normpath_step k acc name = acc ++ [name].
Proof.
  intros (_ & H0 & H1 & H2). unfold normpath_step.
  rewrite (str_eqb_neq H0), (str_eqb_neq H1), (str_eqb_neq H2). reflexivity.
Qed.

Lemma repeat_slash_dirish (k : nat) : dirish (repeat SLASH k).
Proof.
  destruct k; [now left|]. right. exists (repeat SLASH k).
  change [SLASH] with (repeat SLASH 1). rewrite <- repeat_app.
  f_equal. lia.
Qed.

Lemma normpath_dirish (y name : str) :
  dirish y -> proper_name name ->
  exists y', dirish y' /\ normpath (y ++ name) = y' ++ name.
Proof.
  intros Hy Hp. pose proof Hp as (Hn & Hne & _).
  unfold normpath.
  assert (NE : forall p, p ++ name <> []).
  { intros p E. apply app_eq_nil in E. tauto. }
  rewrite (str_eqb_neq (NE y)).
  set (k := if startswith sep (y ++ name) then _ else _).
  destruct (split_on_dirish Hy Hn) as [cs ->].
  rewrite fold_left_app.
  set (acc := fold_left (normpath_step k) cs []).
  cbn [fold_left]. rewrite normpath_step_proper by assumption.
  rewrite join_with_snoc.
  destruct acc as [|a acc'] eqn:Eacc.
  - rewrite (str_eqb_neq (NE _)). eexists. split; [|reflexivity].
    apply repeat_slash_dirish.
  - rewrite !app_assoc. rewrite (str_eqb_neq (NE _)).
    eexists. split; [|reflexivity].
    right. eexists. reflexivity.
Qed.

Lemma abspath_join_basename (cwd results_path name : str) :
  proper_name name ->
  basename (abspath cwd (join results_path name)) = name.
Proof.
  intros Hp. pose proof Hp as (Hn & _).
  destruct (@join_dirish results_path [] name) as (y1 & Hy1 & E1);
    [now left | now apply proper_not_abs |].
  simpl app in E1. rewrite E1. unfold abspath, isabs.
  destruct (startswith sep (y1 ++ name)) eqn:A.
  - destruct (@normpath_dirish y1 name Hy1 Hp) as (y2 & Hy2 & ->).
    now apply basename_dirish.
  - destruct (@join_dirish cwd y1 name Hy1 A) as (y2 & Hy2 & ->).
    destruct (@normpath_dirish y2 name Hy2 Hp) as (y3 & Hy3 & ->).
    now apply basename_dirish.
Qed.

Lemma filename_result_basename (results_path cwd : str) (u : Z) (t : Q) :
  basename (filename_result results_path cwd u t) = wav_name u t.
Proof. apply abspath_join_basename, wav_name_proper. Qed.

Lemma voice_file_path_basename (results_path cwd : str) (u : Z) (t : Q) :
  basename (voice_file_path results_path cwd u t) = ogg_name u t.
Proof. apply abspath_join_basename, ogg_name_proper. Qed.

(* ================================================================== *)
(** * Running coroutines *)
(* ================================================================== *)

Lemma quiet_nil : quiet [].
Proof. repeat split. Qed.

Lemma quiet_app (a b : list event) : quiet a -> quiet b -> quiet (a ++ b).
Proof.
  unfold quiet, delete_attempts, notices, clears, created, handoffs.
  intros (A1 & A2 & A3 & A4 & A5) (B1 & B2 & B3 & B4 & B5).
  rewrite !flat_map_app, A1, A2, A3, A4, A5, B1, B2, B3, B4, B5.
  repeat split.
Qed.

Lemma delivered_app (a b : list event) :
  delivered (a ++ b) = delivered a ++ delivered b.
Proof. apply flat_map_app. Qed.

Lemma captions_app (a b : list event) :
  captions (a ++ b) = captions a ++ captions b.
Proof. unfold captions. now rewrite delivered_app, map_app. Qed.

Section RunFacts.

Variable cfg : Config.
Variable X : Type.
Variable P : Platform X.

Lemma run_bind A B (m : Co A) (f : A -> Co B) c (w : World X) :
  run cfg P (bind m f) c w =
  match run cfg P m c w with
  | (Ok a, w1) => run cfg P (f a) c w1
  | (Err e, w1) => (Err e, w1)
  end.
Proof.
  revert w. induction m as [a|e|B0 a k IH]; intros w; simpl; auto.
  destruct (perform cfg P c a w) as [b w1]. apply IH.
Qed.

Lemma run_try_except_else A B (m : Co A) (h : exn -> Co B) (els : A -> Co B)
    c (w : World X) :
  run cfg P (try_except_else m h els) c w =
  match run cfg P m c w with
  | (Ok a, w1) => run cfg P (els a) c w1
  | (Err e, w1) => run cfg P (h e) c w1
  end.
Proof.
  revert w. induction m as [a|e|B0 a k IH]; intros w; simpl; auto.
  destruct (perform cfg P c a w) as [b w1]. apply IH.
Qed.

Lemma run_try_except A (m : Co A) (h : exn -> Co A) c (w : World X) :
  run cfg P (try_except m h) c w =
  match run cfg P m c w with
  | (Ok a, w1) => (Ok a, w1)
  | (Err e, w1) => run cfg P (h e) c w1
  end.
Proof.
  revert w. induction m as [a|e|B0 a k IH]; intros w; simpl; auto.
  destruct (perform cfg P c a w) as [b w1]. apply IH.
Qed.

(** The loop of the first [k + 1 + r] rounds is the first [k] rounds,
    round [k], and the rest. *)
Lemma for_range_split S (body : Z -> S -> Co S) (k r : nat) (i : Z) (s : S)
    c (w : World X) :
  run cfg P (for_range (k + Datatypes.S r) i body s) c w =
  match run cfg P (for_range k i body s) c w with
  | (Ok s1, w1) =>
      match run cfg P (body (i + Z.of_nat k) s1) c w1 with
      | (Ok s2, w2) => run cfg P (for_range r (i + Z.of_nat k + 1) body s2) c w2
      | (Err e, w2) => (Err e, w2)
      end
  | (Err e, w1) => (Err e, w1)
  end.
Proof.
  revert i s w. induction k as [|k IH]; intros i s w.
  - cbn [Nat.add for_range run]. rewrite run_bind. rewrite Z.add_0_r. reflexivity.
  - cbn [Nat.add for_range]. rewrite !run_bind.
    destruct (run cfg P (body i s) c w) as [[s1|e] w1]; auto.
    rewrite IH. replace (i + 1 + Z.of_nat k) with (i + Z.of_nat (Datatypes.S k)) by lia.
    reflexivity.
Qed.

(* ------------------------------------------------------------------ *)
(** ** One round of the delivery loop *)

Ltac world_eq := cbn [trace spawned files ext log set_ext set_files spawn fst snd].

Lemma deliver_sample_events (user : option User) (fn : str)
    (msg : option Message) (i : Z) (text : data) c (w : World X) :
  exists r w' evs,
    run cfg P (deliver_sample cfg user fn msg i text) c w = (r, w')
    /\ trace w' = trace w ++ evs
    /\ spawned w' = spawned w
    /\ quiet evs
    /\ (captions evs = [] \/ captions evs = [elide_data cfg text])
    /\ (forall d, r = Ok d ->
          d = elide_data cfg text /\ List.length (delivered evs) = 1%nat)
    /\ (forall e, r = Err e -> user <> None -> delivered evs = []).
Proof.
  unfold deliver_sample. cbn [run bind call do attr perform].
  destruct (convert_to_voice P (sample_file fn i) (files w) (ext w))
    as [[[v|e] fs] x]; cbn [run bind call do attr perform].
  2:{ do 3 eexists. split; [reflexivity|]. world_eq.
      split; [reflexivity|]. repeat split; auto; try discriminate. }
  world_eq.
  destruct (open_rb v fs) as [[]|e]; cbn [run bind call do attr perform is_ok].
  2:{ do 3 eexists. split; [reflexivity|]. world_eq. rewrite <- app_assoc.
      split; [reflexivity|]. repeat split; auto; try discriminate. }
  destruct msg as [m|]; cbn [run bind call do attr perform].
  2:{ do 3 eexists. split; [reflexivity|]. world_eq. rewrite <- app_assoc.
      split; [reflexivity|]. repeat split; auto; try discriminate. }
  world_eq.
  destruct (reply_voice P m v (elide_data cfg text) (message_id m)
              (retry_keyboard cfg user) x) as [[[]|e] x'];
    cbn [run bind call do attr perform is_ok].
  2:{ do 3 eexists. split; [reflexivity|]. world_eq. rewrite <- !app_assoc.
      split; [reflexivity|]. repeat split; auto; try discriminate. }
  destruct user as [u|]; cbn [run bind call do attr perform].
  2:{ do 3 eexists. split; [reflexivity|]. world_eq. rewrite <- !app_assoc.
      split; [reflexivity|]. repeat split; auto; try discriminate.
      intros e _ H. now contradiction H. }
  do 3 eexists. split; [reflexivity|]. world_eq. rewrite <- !app_assoc.
  split; [reflexivity|]. repeat split; auto; try discriminate.
  all: congruence.
Qed.

(* ------------------------------------------------------------------ *)
(** ** The delivery loop *)

Lemma loop_events (user : option User) (fn : str) (msg : option Message)
    (n : nat) (i : Z) (text : data) c (w : World X) :
  exists r w' evs,
    run cfg P (for_range n i (deliver_sample cfg user fn msg) text) c w = (r, w')
    /\ trace w' = trace w ++ evs
    /\ spawned w' = spawned w
    /\ quiet evs
    /\ (forall d, r = Ok d -> List.length (delivered evs) = n)
    /\ (forall e, r = Err e -> user <> None -> (List.length (delivered evs) < n)%nat).
Proof.
  revert i text w. induction n as [|n IH]; intros i text w.
  - exists (Ok text), w, []. cbn [for_range run]. rewrite app_nil_r.
    repeat split; auto; discriminate.
  - cbn [for_range]. rewrite run_bind.
    destruct (deliver_sample_events user fn msg i text c w)
      as (r1 & w1 & evs1 & -> & T1 & S1 & Q1 & _ & OK1 & ER1).
    destruct r1 as [d1|e1].
    + destruct (IH (i + 1) d1 w1) as (r & w' & evs & -> & T & S & Q & OK & ER).
      exists r, w', (evs1 ++ evs). split; [reflexivity|].
      split. { now rewrite T, T1, <- app_assoc. }
      split. { congruence. }
      split. { now apply quiet_app. }
      split.
      * intros d E. rewrite delivered_app, length_app, (OK d E).
        destruct (OK1 d1 eq_refl) as [_ ->]. reflexivity.
      * intros e E U. rewrite delivered_app, length_app.
        destruct (OK1 d1 eq_refl) as [_ ->]. specialize (ER e E U). lia.
    + exists (Err e1), w1, evs1. split; [reflexivity|].
      do 3 (split; [assumption|]). split; [discriminate|].
      intros e E U. rewrite (ER1 e1 eq_refl U). simpl. lia.
Qed.

Lemma loop_captions (user : option User) (fn : str) (msg : option Message)
    (n : nat) (i : Z) (s e : str) c (w : World X) :
  elide (MAX_CHARS_NUM cfg) s = e ->
  elide (MAX_CHARS_NUM cfg) e = e ->
  exists evs,
    trace (snd (run cfg P (for_range n i (deliver_sample cfg user fn msg) (Text s)) c w))
    = trace w ++ evs
    /\ Forall (eq (Text e)) (captions evs).
Proof.
  intros Hs He. revert i s Hs w. induction n as [|n IH]; intros i s Hs w.
  - exists []. cbn [for_range run snd]. now rewrite app_nil_r.
  - cbn [for_range]. rewrite run_bind.
    destruct (deliver_sample_events user fn msg i (Text s) c w)
      as (r1 & w1 & evs1 & -> & T1 & _ & _ & C1 & OK1 & _).
    assert (F1 : Forall (eq (Text e)) (captions evs1)).
    { destruct C1 as [->| ->]; [constructor|].
      cbn [elide_data]. rewrite Hs. repeat constructor. }
    destruct r1 as [d1|e1]; cbn [snd].
    + destruct (OK1 d1 eq_refl) as [-> _]. cbn [elide_data]. rewrite Hs.
      destruct (IH (i + 1) e He w1) as (evs & -> & F).
      exists (evs1 ++ evs). rewrite T1, <- app_assoc. split; [reflexivity|].
      rewrite captions_app. now apply Forall_app.
    + exists evs1. auto.
Qed.

(* ------------------------------------------------------------------ *)
(** ** Removing the progress message *)

Lemma delete_progress_msg_events (pm : Message) c (w : World X) :
  exists r w' evs,
    run cfg P (delete_progress_msg pm) c w = (r, w')
    /\ trace w' = trace w ++ evs
    /\ delete_attempts evs = [pm]
    /\ notices evs = [] /\ clears evs = [] /\ created evs = []
    /\ files w' = files w
    /\ match r with
       | Ok _ => True
       | Err e => is_telegram_error e = false
                  /\ exists x, msg_delete P pm (ext w) = (Err e, x)
       end.
Proof.
  unfold delete_progress_msg. rewrite run_try_except.
  cbn [run call perform].
  destruct (msg_delete P pm (ext w)) as [[[]|e] x] eqn:D; cbn [run is_ok].
  - do 3 eexists. split; [reflexivity|]. world_eq. repeat split; reflexivity.
  - destruct (is_telegram_error e) eqn:T; cbn [run do perform].
    + do 3 eexists. split; [reflexivity|]. world_eq. rewrite <- app_assoc.
      repeat split; reflexivity.
    + do 3 eexists. split; [reflexivity|]. world_eq.
      repeat split; try reflexivity; eauto.
Qed.

End RunFacts.

Section RouteFacts.

Variable cfg : Config.
Variable X : Type.
Variable P : Platform X.

Lemma post_eval_gen_task_run (u : Update) (fn : str) (text : data) (n : Z)
    (msg : option Message) (pm : Message) c (w : World X) :
  run cfg P (post_eval_gen_task cfg u fn text n msg pm) c w =
  match run cfg P (for_range (Z.to_nat n) 0
                     (deliver_sample cfg (effective_user u) fn msg) text) c w with
  | (Ok _, w1) => (Ok tt, cleaned cfg P pm c w1)
  | (Err e, w1) =>
      (Err (ExnFrom TelegramError (lit "Audio generation Error") e),
       cleaned cfg P pm c w1)
  end.
Proof.
  unfold post_eval_gen_task. rewrite run_try_except_else.
  destruct (run cfg P _ c w) as [[d|e] w1]; reflexivity.
Qed.

Lemma cleaned_trace (pm : Message) c (w : World X) :
  trace (cleaned cfg P pm c w) =
  trace w ++ [E_create_task c (T_delete_progress_msg pm);
              E_clear_dir c (RESULTS_PATH cfg)].
Proof. unfold cleaned. cbn [trace log set_files spawn]. now rewrite <- app_assoc. Qed.


Lemma post_eval_gen_task_events (u : Update) (fn : str) (text : data) (n : Z)
    (msg : option Message) (pm : Message) c (w : World X) :
  exists r w1 evs,
    run cfg P (for_range (Z.to_nat n) 0
                 (deliver_sample cfg (effective_user u) fn msg) text) c w = (r, w1)
    /\ trace w1 = trace w ++ evs /\ quiet evs
    /\ snd (run cfg P (post_eval_gen_task cfg u fn text n msg pm) c w)
       = cleaned cfg P pm c w1.
Proof.
  destruct (loop_events cfg P (effective_user u) fn msg (Z.to_nat n) 0 text c w)
    as (r & w1 & evs & E & T & _ & Q & _).
  exists r, w1, evs. repeat split; try apply Q; auto.
  rewrite post_eval_gen_task_run, E. now destruct r.
Qed.

(** The captions of one run of [post_eval_gen_task] on a text. *)
Lemma post_eval_gen_task_captions (u : Update) (fn t : str) (n : Z)
    (msg : option Message) (pm : Message) c (w : World X) :
  0 <= MAX_CHARS_NUM cfg ->
  exists evs,
    trace (snd (run cfg P (post_eval_gen_task cfg u fn (Text t) n msg pm) c w))
    = trace w ++ evs
    /\ Forall (eq (Text (elide (MAX_CHARS_NUM cfg) t))) (captions evs).
Proof.
  intros H.
  destruct (post_eval_gen_task_events u fn (Text t) n msg pm c w)
    as (r & w1 & evs & E & T & Q & ->).
  destruct (@loop_captions cfg X P (effective_user u) fn msg (Z.to_nat n) 0 t
              (elide (MAX_CHARS_NUM cfg) t) c w eq_refl
              (elide_idempotent t H)) as (evs' & T' & F).
  rewrite E in T'. cbn [snd] in T'. rewrite T in T'.
  apply app_inv_head in T'. subst evs'.
  eexists. rewrite cleaned_trace, T, <- app_assoc. split; [reflexivity|].
  rewrite captions_app. apply Forall_app. split; [assumption|constructor].
Qed.

(** The delivery route sends voice replies only, never a text notice. *)
Lemma post_eval_gen_task_sends_no_notice (u : Update) (fn : str) (text : data)
    (n : Z) (msg : option Message) (pm : Message) c (w : World X) :
  exists evs,
    trace (snd (run cfg P (post_eval_gen_task cfg u fn text n msg pm) c w))
    = trace w ++ evs
    /\ notices evs = [].
Proof.
  destruct (post_eval_gen_task_events u fn text n msg pm c w)
    as (r & w1 & evs & E & T & Q & ->).
  eexists. rewrite cleaned_trace, T, <- app_assoc. split; [reflexivity|].
  destruct Q as (_ & N & _). unfold notices in *.
  now rewrite flat_map_app, N.
Qed.

End RouteFacts.

(* ================================================================== *)
(** * The failure route *)
(* ================================================================== *)

Section WorkerFacts.

Variable cfg : Config.
Variable X : Type.
Variable P : Platform X.

(** The [try] block never escapes with an exception of its own: how it
    was left is part of its value.  Each engine is called at most once. *)
Lemma run_gen_audio_try_events (u : Update) (fn : str) (st : UserSettings)
    (d : data) (vd : str) c (w : World X) :
  exists d' r w1 evs,
    run cfg P (run_gen_audio_try cfg u fn st d vd) c w = (Ok (d', r), w1)
    /\ trace w1 = trace w ++ evs
    /\ spawned w1 = spawned w
    /\ handoffs evs = [] /\ created evs = []
    /\ (fst (engine_calls evs) <= 1 /\ snd (engine_calls evs) <= 1)%nat.
Proof.
  unfold run_gen_audio_try. destruct d as [t|a]; cbn [run bind do perform].
  - destruct (tts_audio_from_text P _ _ _ _ _ _ _ _) as [[r fs] x].
    cbn [run]. do 4 eexists. split; [reflexivity|].
    cbn [trace spawned log set_files set_ext]. repeat split; simpl; lia.
  - destruct (transcribe_voice P a (ext w)) as [[t|e] x]; cbn [run].
    + destruct (validate_text cfg (effective_user u) t) as [val_res val_err_msg].
      destruct val_res; cbn [negb run bind do perform].
      * destruct (tts_audio_from_text P _ _ _ _ _ _ _ _) as [[r fs] x'].
        cbn [run]. do 4 eexists. split; [reflexivity|].
        cbn [trace spawned log set_files set_ext]. rewrite <- app_assoc.
        repeat split; simpl; lia.
      * do 4 eexists. split; [reflexivity|].
        cbn [trace spawned log set_files set_ext]. repeat split; simpl; lia.
    + do 4 eexists. split; [reflexivity|].
      cbn [trace spawned log set_files set_ext]. repeat split; simpl; lia.
Qed.

Lemma run_gen_audio_run (u : Update) (pm : Message) (fn : str)
    (st : UserSettings) (d : data) (vd : str) (loop : ctx) c (w : World X)
    (d' : data) (r : res unit) (w1 : World X) :
  run cfg P (run_gen_audio_try cfg u fn st d vd) c w = (Ok (d', r), w1) ->
  run cfg P (run_gen_audio cfg u pm fn st d vd loop) c w =
  (Ok (result_of u pm fn st d'),
   match r with
   | Ok _ => w1
   | Err e => handed_off cfg P (T_handle_post_eval_gen_report_error u pm e) loop c w1
   end).
Proof.
  intros E. unfold run_gen_audio. rewrite run_bind, E. cbn [snd fst].
  destruct r as [[]|e]; reflexivity.
Qed.

(** No exception leaves [run_gen_audio]. *)
Lemma run_gen_audio_returns (u : Update) (pm : Message) (fn : str)
    (st : UserSettings) (d : data) (vd : str) (loop : ctx) c (w : World X) :
  exists g, fst (run cfg P (run_gen_audio cfg u pm fn st d vd loop) c w) = Ok g.
Proof.
  destruct (run_gen_audio_try_events u fn st d vd c w)
    as (d' & r & w1 & evs & E & _).
  erewrite run_gen_audio_run by eassumption. cbn [fst]. eexists. reflexivity.
Qed.

Lemma post_eval_gen_report_error_notices (u : Update) (usr : User)
    (m pm : Message) (exc : exn) c (w : World X) :
  effective_user u = Some usr ->
  effective_message u = Some m ->
  (forall mm x ee x',
     msg_delete P mm x = (Err ee, x') -> is_telegram_error ee = true) ->
  exists evs,
    trace (snd (run cfg P (post_eval_gen_report_error cfg u pm exc) c w))
    = trace w ++ evs
    /\ notices evs = [(m, failure_reply cfg usr, message_id m)]
    /\ delete_attempts evs = [pm].
Proof.
  intros Hu Hm Htg. unfold post_eval_gen_report_error.
  cbn [run bind do perform]. rewrite run_bind.
  set (w0 := log _ (log _ _)).
  destruct (delete_progress_msg_events cfg P pm c w0)
    as (r0 & w' & evs0 & -> & T & D & N & _ & _ & _ & R).
  destruct r0 as [[]|e0].
  - rewrite Hu, Hm. cbn [run call perform].
    destruct (reply_html P _ _ _ _) as [[[]|?] ?]; cbn [run snd trace log set_ext];
      rewrite T; subst w0; cbn [trace log set_files];
      rewrite <- !app_assoc; (eexists; split; [reflexivity|]);
      unfold notices, delete_attempts in *; rewrite !flat_map_app;
      cbn [flat_map app]; rewrite ?flat_map_app, ?N, ?D; auto.
  - destruct R as (Tg & x & Hx). apply Htg in Hx. congruence.
Qed.

End WorkerFacts.

(* ================================================================== *)
(** * What a coroutine can reach *)
(* ================================================================== *)

Section Reach.

Variable Pa : forall B, action B -> Prop.

Lemma all_actions_bind A B (m : Co A) (f : A -> Co B) :
  all_actions Pa m -> (forall a, all_actions Pa (f a)) ->
  all_actions Pa (bind m f).
Proof.
  intros Hm Hf. induction m as [a|e|B0 a k IH]; cbn [bind all_actions] in *; auto.
  destruct Hm as [Ha Hk]. split; auto.
Qed.

Lemma all_actions_try_except A (m : Co A) (h : exn -> Co A) :
  all_actions Pa m -> (forall e, all_actions Pa (h e)) ->
  all_actions Pa (try_except m h).
Proof.
  intros Hm Hh. induction m as [a|e|B0 a k IH];
    cbn [try_except all_actions] in *; auto.
  destruct Hm as [Ha Hk]. split; auto.
Qed.

Lemma all_actions_try_except_else A B (m : Co A) (h : exn -> Co B)
    (els : A -> Co B) :
  all_actions Pa m -> (forall e, all_actions Pa (h e)) ->
  (forall a, all_actions Pa (els a)) ->
  all_actions Pa (try_except_else m h els).
Proof.
  intros Hm Hh He. induction m as [a|e|B0 a k IH];
    cbn [try_except_else all_actions] in *; auto.
  destruct Hm as [Ha Hk]. split; auto.
Qed.

Lemma all_actions_for_range S (body : Z -> S -> Co S) (n : nat) (i : Z) (s : S) :
  (forall j s', all_actions Pa (body j s')) ->
  all_actions Pa (for_range n i body s).
Proof.
  intros Hb. revert i s. induction n as [|n IH]; intros i s; cbn [for_range].
  - exact I.
  - apply all_actions_bind; auto.
Qed.

Lemma all_actions_call B (a : action (res B)) : Pa a -> all_actions Pa (call a).
Proof. intros H. split; auto. intros [b|e]; exact I. Qed.

Lemma all_actions_do B (a : action B) : Pa a -> all_actions Pa (do a).
Proof. intros H. split; auto. intros b. exact I. Qed.

Lemma all_actions_attr A (o : option A) : all_actions Pa (attr o).
Proof. destruct o; exact I. Qed.

End Reach.

Ltac reach :=
  repeat first
    [ apply all_actions_bind
    | apply all_actions_try_except
    | apply all_actions_try_except_else
    | apply all_actions_for_range
    | apply all_actions_call
    | apply all_actions_do
    | apply all_actions_attr
    | exact I
    | reflexivity
    | intro ].

Section BodyFacts.

Variable cfg : Config.

Lemma run_gen_audio_try_reach (Pa : forall B, action B -> Prop)
    (u : Update) (fn : str) (st : UserSettings) (d : data) (vd : str) :
  (forall a, Pa _ (a_transcribe_voice a)) ->
  (forall f t v dir emo n, Pa _ (a_tts_audio_from_text f t v dir emo n)) ->
  all_actions Pa (run_gen_audio_try cfg u fn st d vd).
Proof.
  intros Htr Htts. unfold run_gen_audio_try.
  destruct d as [t|a]; reach; auto.
  destruct a0 as [t|e]; [|exact I].
  destruct (validate_text cfg (effective_user u) t) as [val_res val_err_msg].
  destruct val_res; cbn [negb]; reach; auto.
Qed.

Lemma run_gen_audio_reach (Pa : forall B, action B -> Prop)
    (u : Update) (pm : Message) (fn : str) (st : UserSettings) (d : data)
    (vd : str) (loop : ctx) :
  (forall a, Pa _ (a_transcribe_voice a)) ->
  (forall f t v dir emo n, Pa _ (a_tts_audio_from_text f t v dir emo n)) ->
  (forall e, Pa _ (a_run_coroutine_threadsafe
                     (T_handle_post_eval_gen_report_error u pm e) loop)) ->
  all_actions Pa (run_gen_audio cfg u pm fn st d vd loop).
Proof.
  intros Htr Htts Hh. unfold run_gen_audio. reach.
  - now apply run_gen_audio_try_reach.
  - destruct (snd a) as [[]|e]; reach. apply Hh.
Qed.

(** The worker coroutine contains no [await]. *)
Lemma run_gen_audio_await_free (u : Update) (pm : Message) (fn : str)
    (st : UserSettings) (d : data) (vd : str) (loop : ctx) :
  await_free (body cfg (T_run_gen_audio u pm fn st d vd loop)).
Proof.
  unfold await_free. cbn [body].
  apply all_actions_bind; [|intro; exact I].
  apply run_gen_audio_reach; reflexivity.
Qed.

Lemma eval_gen_task_reach (r : res gen_result) :
  all_actions submits_to_worker (eval_gen_task r).
Proof. destruct r; cbn; auto. Qed.

(** Every coroutine of the module hands jobs to the worker loop only. *)
Lemma body_reach (t : task) : all_actions submits_to_worker (body cfg t).
Proof.
  destruct t; cbn [body].
  - unfold start_gen_task. reach; cbn; auto.
  - apply all_actions_bind; [|intro; exact I].
    apply run_gen_audio_reach; cbn; auto; discriminate.
  - unfold handle_post_eval_gen_report_error. reach; cbn; auto.
  - unfold post_eval_gen_report_error, delete_progress_msg. reach; cbn; auto.
    + destruct (is_telegram_error e); reach; cbn; auto.
    + destruct (effective_message update); [destruct (effective_user update)|];
        reach; cbn; auto.
  - unfold post_eval_gen_task, deliver_sample. reach; cbn; auto.
  - unfold delete_progress_msg. reach; cbn; auto.
    destruct (is_telegram_error e); reach; cbn; auto.
Qed.

End BodyFacts.

(* ================================================================== *)
(** * The loops *)
(* ================================================================== *)

Lemma executions_app (a b : list event) :
  executions (a ++ b) = executions a ++ executions b.
Proof. apply filter_app. Qed.

Lemma submissions_app (a b : list event) :
  submissions (a ++ b) = submissions a ++ submissions b.
Proof. apply flat_map_app. Qed.

Lemma serial_app (a b : list task) : serial (a ++ b) = serial a ++ serial b.
Proof. apply flat_map_app. Qed.

Lemma jobs_spawned_app (a b : list (ctx * task * option future)) :
  jobs_spawned (a ++ b) = jobs_spawned a ++ jobs_spawned b.
Proof. unfold jobs_spawned. now rewrite map_app, filter_app. Qed.

Lemma queued_jobs_app (a b : list entry) :
  queued_jobs (a ++ b) = queued_jobs a ++ queued_jobs b.
Proof. unfold queued_jobs. now rewrite map_app, filter_app. Qed.

Section Growth.

Variable cfg : Config.
Variable X : Type.
Variable P : Platform X.

Lemma grows_refl (w : World X) : grows [] w w.
Proof.
  exists [], []. rewrite !app_nil_r. repeat split. constructor.
Qed.

Lemma grows_trans (a b : list event) (w1 w2 w3 : World X) :
  grows a w1 w2 -> grows b w2 w3 -> grows (a ++ b) w1 w3.
Proof.
  intros (e1 & s1 & T1 & S1 & X1 & U1 & B1) (e2 & s2 & T2 & S2 & X2 & U2 & B2).
  exists (e1 ++ e2), (s1 ++ s2).
  rewrite T2, T1, S2, S1, <- !app_assoc, executions_app, submissions_app,
    jobs_spawned_app, X1, X2, U1, U2.
  repeat split. now apply Forall_app.
Qed.

Lemma grows_trans0 (w1 w2 w3 : World X) :
  grows [] w1 w2 -> grows [] w2 w3 -> grows [] w1 w3.
Proof. intros A B. exact (grows_trans A B). Qed.

Lemma grows_log (e : event) (w : World X) :
  submissions [e] = [] -> grows (executions [e]) w (log e w).
Proof.
  intros S. exists [e], []. cbn [trace spawned log]. rewrite app_nil_r.
  repeat split; auto. constructor.
Qed.

Lemma perform_grows B (a : action B) c (w : World X) :
  submits_to_worker a -> grows [] w (snd (perform cfg P c a w)).
Proof.
  intros Ha.
  destruct a; cbn [perform];
    try (destruct (transcribe_voice P _ _) as [? ?]);
    try (destruct (tts_audio_from_text P _ _ _ _ _ _ _ _) as [[? ?] ?]);
    try (destruct (convert_to_voice P _ _ _) as [[? ?] ?]);
    try (destruct (clock P _) as [? ?]);
    try (destruct (msg_delete P _ _) as [? ?]);
    try (destruct (reply_voice P _ _ _ _ _ _) as [? ?]);
    try (destruct (reply_html P _ _ _ _) as [? ?]);
    cbn [snd].
  all: try (eexists [_], []; cbn [trace spawned log set_ext set_files];
            rewrite app_nil_r; repeat split; constructor).
  - exists [], []. cbn [trace spawned set_ext]. rewrite !app_nil_r.
    repeat split. constructor.
  - exists [], []. rewrite !app_nil_r. repeat split. constructor.
  - exists [E_threadsafe c t loop], [(loop, t, Some (next_future w))].
    cbn [trace spawned log spawn]. repeat split.
    + unfold jobs_spawned. cbn. now destruct (is_job t).
    + constructor; [|constructor]. exact Ha.
  - exists [E_create_task c t], [(create_task_loop P c, t, None)].
    cbn [trace spawned log spawn]. repeat split.
    + unfold jobs_spawned. cbn. cbn in Ha. now rewrite Ha.
    + constructor; [|constructor]. cbn in *. congruence.
Qed.

Lemma run_grows A (m : Co A) c (w : World X) :
  all_actions submits_to_worker m -> grows [] w (snd (run cfg P m c w)).
Proof.
  revert w. induction m as [a|e|B a k IH]; intros w H; cbn [run snd].
  - apply grows_refl.
  - apply grows_refl.
  - destruct H as [Ha Hk].
    pose proof (perform_grows a c w Ha) as G.
    destruct (perform cfg P c a w) as [b w1]. cbn [snd] in G.
    exact (grows_trans0 G (IH b w1 (Hk b))).
Qed.

Lemma advance_grows A (m : Co A) c (w : World X) :
  all_actions submits_to_worker m ->
  grows [] w (snd (advance cfg P m c w))
  /\ all_actions submits_to_worker (fst (advance cfg P m c w)).
Proof.
  revert w. induction m as [a|e|B a k IH]; intros w H; cbn [advance].
  - split; [apply grows_refl|exact I].
  - split; [apply grows_refl|exact I].
  - destruct (suspends a); [split; [apply grows_refl|exact H]|].
    destruct H as [Ha Hk].
    pose proof (perform_grows a c w Ha) as G.
    destruct (perform cfg P c a w) as [b w1]. cbn [snd] in G.
    destruct (IH b w1 (Hk b)) as [G' R]. split; [|exact R].
    exact (grows_trans0 G G').
Qed.

Lemma resume_grows A (m : Co A) c (w : World X) :
  all_actions submits_to_worker m ->
  grows [] w (snd (resume cfg P m c w))
  /\ all_actions submits_to_worker (fst (resume cfg P m c w)).
Proof.
  intros H. destruct m as [a|e|B a k]; cbn [resume].
  - split; [apply grows_refl|exact I].
  - split; [apply grows_refl|exact I].
  - destruct H as [Ha Hk].
    pose proof (perform_grows a c w Ha) as G.
    destruct (perform cfg P c a w) as [b w1]. cbn [snd] in G.
    destruct (advance_grows (k b) c w1 (Hk b)) as [G' R]. split; [|exact R].
    exact (grows_trans0 G G').
Qed.

(** A coroutine without [await] is never suspended: one turn runs it
    from start to end. *)
Lemma advance_await_free A (m : Co A) c (w : World X) :
  await_free m ->
  advance cfg P m c w =
  (match fst (run cfg P m c w) with Ok a => Ret a | Err e => Raise e end,
   snd (run cfg P m c w)).
Proof.
  revert w. induction m as [a|e|B a k IH]; intros w H; cbn [advance run fst snd].
  - reflexivity.
  - reflexivity.
  - destruct H as [Ha Hk]. cbn beta in Ha. rewrite Ha.
    destruct (perform cfg P c a w) as [b w1]. apply IH, Hk.
Qed.

End Growth.

Section SchedFacts.

Variable cfg : Config.
Variable X : Type.
Variable P : Platform X.

Lemma fold_push (sp : list (ctx * task * option future)) (s0 : Sched X) :
  let s1 := fold_left
              (fun s' item => let '(loop, t, f) := item in push loop (fresh t f) s')
              sp s0 in
  ready_front s1 = ready_front s0 ++ flushed_to Front sp
  /\ ready_worker s1 = ready_worker s0 ++ flushed_to Worker sp
  /\ world s1 = world s0.
Proof.
  revert s0. induction sp as [|[[loop t] f] sp IH]; intros s0; cbn [fold_left].
  - cbn. now rewrite !app_nil_r.
  - destruct (IH (push loop (fresh t f) s0)) as (F & W & E).
    cbn zeta in *. rewrite F, W, E.
    destruct loop; cbn [push ready_front ready_worker world flushed_to flat_map
                          fst snd ctx_eqb spawned_task app];
      rewrite <- ?app_assoc; auto.
Qed.

Lemma flush_spec (s : Sched X) :
  ready_front (flush s) = ready_front s ++ flushed_to Front (spawned (world s))
  /\ ready_worker (flush s)
     = ready_worker s ++ flushed_to Worker (spawned (world s))
  /\ trace (world (flush s)) = trace (world s)
  /\ spawned (world (flush s)) = [].
Proof.
  unfold flush.
  match goal with
  | |- context [fold_left ?f ?sp ?s0] =>
      destruct (fold_push sp s0) as (F & W & E)
  end.
  cbn zeta in *. rewrite F, W, E. cbn. auto.
Qed.

Lemma flushed_worker_jobs (sp : list (ctx * task * option future)) :
  worker_bound sp -> queued_jobs (flushed_to Worker sp) = jobs_spawned sp.
Proof.
  unfold worker_bound, jobs_spawned, queued_jobs.
  induction 1 as [|[[loop t] f] sp H _ IH]; [reflexivity|].
  cbn [flushed_to flat_map map filter fst snd spawned_task] in *.
  rewrite map_app, filter_app.
  change (flat_map _ sp) with (flushed_to Worker sp). rewrite IH.
  destruct (is_job t) eqn:J.
  - rewrite (H eq_refl). cbn. now rewrite J.
  - destruct (ctx_eqb loop Worker); cbn; rewrite ?J; reflexivity.
Qed.

Lemma flushed_front_jobs (sp : list (ctx * task * option future)) :
  worker_bound sp -> queued_jobs (flushed_to Front sp) = [].
Proof.
  unfold worker_bound, queued_jobs.
  induction 1 as [|[[loop t] f] sp H _ IH]; [reflexivity|].
  cbn [flushed_to flat_map map filter fst snd spawned_task] in *.
  rewrite map_app, filter_app.
  change (flat_map _ sp) with (flushed_to Front sp). rewrite IH, app_nil_r.
  destruct (is_job t) eqn:J.
  - rewrite (H eq_refl). reflexivity.
  - destruct (ctx_eqb loop Front); cbn; rewrite ?J; reflexivity.
Qed.

Lemma flushed_ok (c : ctx) (sp : list (ctx * task * option future)) :
  Forall entry_ok (flushed_to c sp).
Proof.
  unfold flushed_to. induction sp as [|it sp IH]; cbn [flat_map]; [constructor|].
  apply Forall_app. split; [|exact IH].
  destruct (ctx_eqb _ c); repeat constructor.
Qed.

Lemma boot_inv (fs : list str) (x : X) : Inv (boot fs x).
Proof.
  split; cbn; auto. exists []. auto.
Qed.

(** The world after flushing what a turn or an arrival left behind. *)
Lemma flush_inv (qf qw : list entry) (w w2 : World X) (done js : list task) :
  executions (trace w) = serial done ->
  submissions (trace w) = done ++ js ++ queued_jobs qw ->
  spawned w = [] ->
  grows (serial js) w w2 ->
  queued_jobs qf = [] ->
  Forall entry_ok (qf ++ qw) ->
  Inv (flush {| ready_front := qf; ready_worker := qw; world := w2 |}).
Proof.
  intros Ex Su Sp (evs & sp & T & S & E & U & B) Qf Ok.
  rewrite Sp in S. cbn [app] in S.
  destruct (flush_spec {| ready_front := qf; ready_worker := qw; world := w2 |})
    as (F & W & Tr & Sp').
  cbn [ready_front ready_worker world] in *.
  split.
  - exists (done ++ js). rewrite Tr, T, W, executions_app, submissions_app,
      queued_jobs_app, serial_app, Ex, Su, E, U, S, flushed_worker_jobs by assumption.
    now rewrite <- !app_assoc.
  - rewrite F, S, queued_jobs_app, Qf, flushed_front_jobs by assumption. reflexivity.
  - rewrite F, W. apply Forall_app in Ok as [Okf Okw].
    repeat (apply Forall_app; split); auto using flushed_ok.
  - exact Sp'.
Qed.

Lemma requeue_inv (c : ctx) (again : list entry) (s : Sched X) :
  Inv s -> Forall entry_ok again -> queued_jobs again = [] ->
  Inv (set_ready c (ready c s ++ again) s).
Proof.
  intros [(done & Ex & Su) Qf Ok Sp] A J.
  apply Forall_app in Ok as [Okf Okw].
  destruct c; cbn [set_ready ready]; split;
    cbn [ready_front ready_worker world]; auto.
  - exists done. auto.
  - now rewrite queued_jobs_app, Qf, J.
  - repeat (apply Forall_app; split); auto.
  - exists done. now rewrite queued_jobs_app, J, app_nil_r.
  - repeat (apply Forall_app; split); auto.
Qed.

Lemma finish_grows (c : ctx) (en : entry) (r : res (option gen_result))
    (w : World X) :
  grows (executions [E_finished c (e_task en) (raised_of r)]) w
    (finish cfg P c en r w).
Proof.
  unfold finish.
  set (w1 := log _ w).
  assert (G : grows (executions [E_finished c (e_task en) (raised_of r)]) w w1)
    by now apply grows_log.
  destruct (e_future en) as [f|]; [|exact G].
  destruct (existsb _ _); [|exact G].
  rewrite <- (app_nil_r (executions _)).
  exact (grows_trans G (run_grows cfg P _ c w1 (eval_gen_task_reach _))).
Qed.

(** A turn given to a handle that is not a job writes no job mark. *)
Lemma turn_other (c : ctx) (en : entry) (w w1 w2 : World X)
    (m' : Co (option gen_result)) (again : list entry) :
  entry_ok en -> is_job (e_task en) = false ->
  begin_or_resume cfg P c en w = (m', w1) ->
  settle cfg P c en m' w1 = (w2, again) ->
  grows (serial []) w w2 /\ Forall entry_ok again /\ queued_jobs again = [].
Proof.
  intros Ok J B S. unfold begin_or_resume, entry_ok in *.
  assert (G1 : grows [] w w1 /\ all_actions submits_to_worker m').
  { destruct (e_cont en) as [m|].
    - destruct (resume_grows cfg P m c w (proj1 Ok)) as [G R].
      rewrite B in G, R. auto.
    - set (w0 := log _ w) in B.
      assert (G0 : grows [] w w0).
      { replace (@nil event) with (executions [E_started c (e_task en)]).
        - now apply grows_log.
        - unfold executions. cbn. now rewrite J. }
      destruct (advance_grows cfg P (body cfg (e_task en)) c w0 (body_reach cfg _))
        as [G R].
      rewrite B in G, R. split; [exact (grows_trans0 G0 G)|exact R]. }
  destruct G1 as [G1 R].
  assert (F : forall r, grows [] w1 (finish cfg P c en r w1)).
  { intros r. pose proof (finish_grows c en r w1) as G.
    unfold executions in G. cbn in G. now rewrite J in G. }
  destruct m' as [v|e|B0 a k]; cbn [settle] in S; injection S as <- <-.
  - split; [exact (grows_trans0 G1 (F _))|]. split; [constructor|reflexivity].
  - split; [exact (grows_trans0 G1 (F _))|]. split; [constructor|reflexivity].
  - split; [exact G1|]. split.
    + constructor; [|constructor]. cbn [e_cont e_task]. split; assumption.
    + unfold queued_jobs. cbn. now rewrite J.
Qed.

(** A turn given to a job runs it from start to end. *)
Lemma turn_job (en : entry) (w w1 w2 : World X)
    (m' : Co (option gen_result)) (again : list entry) :
  e_cont en = None -> is_job (e_task en) = true ->
  begin_or_resume cfg P Worker en w = (m', w1) ->
  settle cfg P Worker en m' w1 = (w2, again) ->
  grows (serial [e_task en]) w w2 /\ again = [].
Proof.
  intros C J B S. unfold begin_or_resume in B. rewrite C in B.
  destruct (e_task en) as [| u pm fn st d vd loop | | | |] eqn:T; try discriminate.
  rewrite advance_await_free in B by apply run_gen_audio_await_free.
  set (w0 := log _ w) in B.
  assert (G0 : grows [E_started Worker (T_run_gen_audio u pm fn st d vd loop)]
                 w w0).
  { exact (grows_log (E_started Worker (T_run_gen_audio u pm fn st d vd loop))
             w eq_refl). }
  pose proof (run_grows cfg P (body cfg (T_run_gen_audio u pm fn st d vd loop))
                Worker w0 (body_reach cfg _)) as G1.
  assert (R : exists g,
             fst (run cfg P (body cfg (T_run_gen_audio u pm fn st d vd loop))
                    Worker w0) = Ok (Some g)).
  { cbn [body]. rewrite run_bind.
    destruct (run_gen_audio_returns cfg P u pm fn st d vd loop Worker w0) as [g Hg].
    destruct (run cfg P (run_gen_audio cfg u pm fn st d vd loop) Worker w0)
      as [r w']. cbn [fst] in Hg. subst r. cbn. eauto. }
  destruct R as [g R]. rewrite R in B. injection B as <- <-.
  cbn [settle] in S. injection S as <- <-.
  split; [|reflexivity].
  pose proof (finish_grows Worker en (Ok (Some g))
                (snd (run cfg P (body cfg (T_run_gen_audio u pm fn st d vd loop))
                        Worker w0))) as G2.
  rewrite T in G2. cbn [raised_of] in G2.
  exact (grows_trans (grows_trans G0 G1) G2).
Qed.

Lemma turn_inv (c : ctx) (s : Sched X) : Inv s -> Inv (turn cfg P c s).
Proof.
  intros I. unfold turn.
  destruct (ready c s) as [|en rest] eqn:R; [exact I|].
  destruct (begin_or_resume cfg P c en (world s)) as [m' w1] eqn:B.
  destruct (settle cfg P c en m' w1) as [w2 again] eqn:S.
  destruct I as [(done & Ex & Su) Qf Ok Sp].
  assert (Oken : entry_ok en).
  { rewrite Forall_forall in Ok. apply Ok. rewrite in_app_iff.
    destruct c; cbn [ready] in R; rewrite R; [left|right]; now left. }
  destruct (is_job (e_task en)) eqn:J.
  - (* a job: it waits on the worker and has not started *)
    assert (c = Worker) as ->.
    { destruct c; [|reflexivity]. cbn [ready] in R. rewrite R in Qf.
      unfold queued_jobs in Qf. cbn in Qf. rewrite J in Qf. discriminate. }
    assert (C : e_cont en = None).
    { unfold entry_ok in Oken. destruct (e_cont en); [|reflexivity].
      destruct Oken. congruence. }
    pose proof turn_job as TJ.
    destruct (TJ en (world s) w1 w2 m' again C J B S) as [G ->]. clear TJ.
    cbn [ready] in R. rewrite R in Su, Ok.
    rewrite app_nil_r.
    match goal with |- Inv (set_ready _ ?q ?s') =>
      replace (set_ready Worker q s') with s' end.
    2:{ now destruct (flush _). }
    cbn [set_ready with_world ready_front ready_worker world].
    eapply flush_inv; eauto.
    + unfold queued_jobs in *. cbn [map filter] in Su. rewrite J in Su.
      exact Su.
    + apply Forall_app in Ok as [Okf Okw]. inversion Okw; subst.
      apply Forall_app; auto.
  - pose proof turn_other as TO.
    destruct (TO c en (world s) w1 w2 m' again Oken J B S) as (G & A & QA).
    clear TO.
    apply requeue_inv; auto.
    destruct c; cbn [ready] in R; rewrite R in *;
      cbn [set_ready with_world ready_front ready_worker world].
    + eapply flush_inv with (js := []); eauto.
      * unfold queued_jobs in *. cbn [map filter] in Qf. now rewrite J in Qf.
      * apply Forall_app in Ok as [Okf Okw]. inversion Okf; subst.
        apply Forall_app; auto.
    + eapply flush_inv with (js := []); eauto.
      * unfold queued_jobs in *. cbn [map filter] in Su. now rewrite J in Su.
      * apply Forall_app in Ok as [Okf Okw]. inversion Okw; subst.
        apply Forall_app; auto.
Qed.

Lemma step_inv (mv : move) (s : Sched X) : Inv s -> Inv (step cfg P mv s).
Proof.
  destruct mv as [u d pm|c]; cbn [step]; [|apply turn_inv].
  intros [(done & Ex & Su) Qf Ok Sp].
  unfold with_world. eapply flush_inv with (js := []); eauto.
  apply (perform_grows cfg P (a_create_task (T_start_gen_task u d pm))).
  reflexivity.
Qed.

Lemma steps_inv (mvs : list move) (s : Sched X) :
  Inv s -> Inv (steps cfg P mvs s).
Proof.
  revert s. induction mvs as [|mv mvs IH]; intros s I; cbn; auto.
  apply IH, step_inv, I.
Qed.

End SchedFacts.

Section Routing.

Variable cfg : Config.
Variable X : Type.
Variable P : Platform X.

(** Whatever it is given, the done callback calls
    [Application.create_task] itself, in the context it runs in. *)
Lemma eval_gen_task_creates_directly (g : gen_result) c (w : World X) :
  trace (snd (run cfg P (eval_gen_task (Ok g)) c w))
  = trace w
    ++ [E_create_task c
          (T_post_eval_gen_task (r_update g) (r_filename_result g) (r_data g)
             (r_samples_num g) (effective_message (r_update g))
             (r_progress_msg g))].
Proof. reflexivity. Qed.

(** The three ways in which the [try] block of [run_gen_audio] is left by
    an exception: the synthesis raises, the transcription raises, or the
    transcribed text is rejected.  After a failed transcription [data]
    is still the audio array. *)
Lemma try_left_by_exception (u : Update) (fn : str) (st : UserSettings)
    (vd : str) c (w : World X) :
  (forall t e fs x,
     tts_audio_from_text P fn t (voice st) vd (emotion st) (samples_num st)
       (files w) (ext w) = (Err e, fs, x) ->
     fst (run cfg P (run_gen_audio_try cfg u fn st (Text t) vd) c w)
     = Ok (Text t, Err e))
  /\ (forall a e x,
        transcribe_voice P a (ext w) = (Err e, x) ->
        fst (run cfg P (run_gen_audio_try cfg u fn st (Audio a) vd) c w)
        = Ok (Audio a, Err e))
  /\ (forall a t x val_err_msg,
        transcribe_voice P a (ext w) = (Ok t, x) ->
        validate_text cfg (effective_user u) t = (false, val_err_msg) ->
        fst (run cfg P (run_gen_audio_try cfg u fn st (Audio a) vd) c w)
        = Ok (Text t,
              Err (Exn OtherException
                     (lit "text validation error: " ++ val_err_msg)))).
Proof.
  repeat split.
  - intros t e fs x E. cbn [run_gen_audio_try run bind do perform].
    now rewrite E.
  - intros a e x E. cbn [run_gen_audio_try run bind do perform].
    now rewrite E.
  - intros a t x msg E V. cbn [run_gen_audio_try run bind do perform].
    rewrite E. cbn [run]. now rewrite V.
Qed.

(** A job whose [try] block is left by an exception is handed to the
    failure report, and its coroutine still returns the tuple on which
    the done callback schedules the delivery. *)
Lemma failure_also_schedules_delivery (u : Update) (pm : Message) (fn : str)
    (st : UserSettings) (d : data) (vd : str) (loop : ctx) c (w : World X)
    (d' : data) (e : exn) (w0 : World X) :
  run cfg P (run_gen_audio_try cfg u fn st d vd) c w = (Ok (d', Err e), w0) ->
  exists w1,
    run cfg P (run_gen_audio cfg u pm fn st d vd loop) c w
    = (Ok (result_of u pm fn st d'), w1)
    /\ In (T_handle_post_eval_gen_report_error u pm e, loop) (handoffs (trace w1))
    /\ forall c' (w' : World X),
         created (trace (snd (run cfg P (eval_gen_task
                                           (Ok (result_of u pm fn st d'))) c' w')))
         = created (trace w')
           ++ [(c', T_post_eval_gen_task u fn d' (samples_num st)
                      (effective_message u) pm)].
Proof.
  intros E. erewrite run_gen_audio_run by exact E.
  eexists. split; [reflexivity|]. split.
  - unfold handed_off, handoffs. cbn [perform snd trace spawn log].
    rewrite flat_map_app, in_app_iff. right. now left.
  - intros c' w'. rewrite eval_gen_task_creates_directly.
    unfold created. now rewrite flat_map_app.
Qed.

End Routing.

(* ================================================================== *)
(** * The claims *)
(* ================================================================== *)

(** C1 fails on the code.  A job whose synthesis raises is brought to
    rest with both routes entered: [run_gen_audio] hands the exception to
    the failure report and then returns its tuple all the same, so the
    done callback schedules the delivery as well. *)
Theorem C1_failed_job_takes_both_routes :
  ready_front Demo.failing_run = []
  /\ ready_worker Demo.failing_run = []
  /\ routes_taken (trace (world Demo.failing_run)) = [Fan_out; Failure_report].
Proof. vm_compute. auto. Qed.

(** C2 fails on the code.  For the same job the deletion of the progress
    message is attempted twice, once by each route; a job that succeeds
    sees one attempt. *)
Theorem C2_failed_job_deletes_progress_twice :
  delete_attempts (trace (world Demo.failing_run))
  = [Demo.progress 12; Demo.progress 12]
  /\ delete_attempts (trace (world Demo.good_run)) = [Demo.progress 12].
Proof. vm_compute. auto. Qed.



(** On the demo platform a deletion fails with [TelegramError] only. *)
Lemma demo_delete_fails_with_telegram_error :
  forall mm x ee x',
    msg_delete Demo.platform mm x = (Err ee, x') -> is_telegram_error ee = true.
Proof.
  intros mm x ee x'. cbn [msg_delete Demo.platform].
  destruct (existsb _ _); intros [= <- _]. reflexivity.
Defined.

(** When the try block of [run_gen_audio] is left by an exception
    [e] (raised by the transcription, by the check of the transcribed
    text, or by the synthesis), the coroutine still returns normally, has
    called each engine at most once, and has handed exactly one
    [handle_post_eval_gen_report_error] carrying [e] to the application
    loop.  That coroutine schedules [post_eval_gen_report_error], which
    sends exactly one notice: the fixed localized text addressed to the
    requester, in which [e] does not occur.  The delivery route, which the
    job is sent down as well, sends no notice. *)
Lemma worker_exception_takes_failure_route (cfg : Config) (X : Type)
    (P : Platform X) (u : Update) (usr : User) (m pm : Message) (fn : str)
    (st : UserSettings) (d : data) (vd : str) (loop c : ctx) (w : World X)
    (d' : data) (e : exn) (w0 : World X) :
  effective_user u = Some usr ->
  effective_message u = Some m ->
  (forall mm x ee x',
     msg_delete P mm x = (Err ee, x') -> is_telegram_error ee = true) ->
  run cfg P (run_gen_audio_try cfg u fn st d vd) c w = (Ok (d', Err e), w0) ->
  exists g w1 evs,
    run cfg P (run_gen_audio cfg u pm fn st d vd loop) c w = (Ok g, w1)
    /\ trace w1 = trace w ++ evs
    /\ handoffs evs = [(T_handle_post_eval_gen_report_error u pm e, loop)]
    /\ (fst (engine_calls evs) <= 1 /\ snd (engine_calls evs) <= 1)%nat
    /\ (forall c1 (w2 : World X),
          trace (snd (run cfg P (handle_post_eval_gen_report_error u pm e) c1 w2))
          = trace w2 ++ [E_create_task c1 (T_post_eval_gen_report_error u pm e)])
    /\ (forall c2 (w3 : World X),
          exists evs3,
            trace (snd (run cfg P (post_eval_gen_report_error cfg u pm e) c2 w3))
            = trace w3 ++ evs3
            /\ notices evs3 = [(m, failure_reply cfg usr, message_id m)])
    /\ (forall fn4 text4 n4 msg4 c4 (w4 : World X),
          exists evs4,
            trace (snd (run cfg P (post_eval_gen_task cfg u fn4 text4 n4 msg4 pm)
                          c4 w4))
            = trace w4 ++ evs4
            /\ notices evs4 = []).
Proof.
  intros Hu Hm Htg Htry.
  destruct (run_gen_audio_try_events cfg P u fn st d vd c w)
    as (d1 & r1 & w1 & evs & E & T & _ & H & _ & EC).
  rewrite Htry in E. injection E as <- <- <-.
  erewrite run_gen_audio_run by exact Htry.
  eexists _, _, (evs ++ [E_threadsafe c (T_handle_post_eval_gen_report_error u pm e) loop]).
  split; [reflexivity|].
  split. { unfold handed_off. cbn [perform snd trace spawn log]. now rewrite T, app_assoc. }
  split. { unfold handoffs in *. now rewrite flat_map_app, H. }
  split. { unfold engine_calls in *. cbn [fst snd] in *.
           rewrite !filter_app, !length_app. simpl. lia. }
  split. { reflexivity. }
  split.
  - intros c2 w3.
    destruct (@post_eval_gen_report_error_notices cfg X P u usr m pm e c2 w3
                Hu Hm Htg) as (evs3 & T3 & N3 & _).
    eauto.
  - intros fn4 text4 n4 msg4 c4 w4.
    apply post_eval_gen_task_sends_no_notice.
Qed.

(** The lemma above on the job whose text makes the engine fail. *)
Lemma worker_exception_on_demo :
  effective_user (Demo.request Demo.alice 11) = Some Demo.alice
  /\ effective_message (Demo.request Demo.alice 11) = Some Demo.alice_msg
  /\ Demo.boom_try
     = (Ok (Text (lit "boom"), Err (Exn OtherException (lit "engine failure"))),
        snd Demo.boom_try)
  /\ exists g w1 evs,
       run Demo.cfg Demo.platform
         (run_gen_audio Demo.cfg (Demo.request Demo.alice 11) (Demo.progress 12)
            Demo.alice_wav (get_user_settings Demo.cfg 7) (Text (lit "boom"))
            (lit "/srv/voices") Front)
         Worker (world Demo.start)
       = (Ok g, w1)
       /\ trace w1 = trace (world Demo.start) ++ evs
       /\ handoffs evs
          = [(T_handle_post_eval_gen_report_error (Demo.request Demo.alice 11)
                (Demo.progress 12) (Exn OtherException (lit "engine failure")),
              Front)]
       /\ (fst (engine_calls evs) <= 1 /\ snd (engine_calls evs) <= 1)%nat
       /\ (forall c1 (w2 : World Demo.ext_state),
             trace (snd (run Demo.cfg Demo.platform
                           (handle_post_eval_gen_report_error
                              (Demo.request Demo.alice 11) (Demo.progress 12)
                              (Exn OtherException (lit "engine failure"))) c1 w2))
             = trace w2
               ++ [E_create_task c1
                     (T_post_eval_gen_report_error (Demo.request Demo.alice 11)
                        (Demo.progress 12)
                        (Exn OtherException (lit "engine failure")))])
       /\ (forall c2 (w3 : World Demo.ext_state),
             exists evs3,
               trace (snd (run Demo.cfg Demo.platform
                             (post_eval_gen_report_error Demo.cfg
                                (Demo.request Demo.alice 11) (Demo.progress 12)
                                (Exn OtherException (lit "engine failure"))) c2 w3))
               = trace w3 ++ evs3
               /\ notices evs3
                  = [(Demo.alice_msg, failure_reply Demo.cfg Demo.alice,
                      message_id Demo.alice_msg)])
       /\ (forall fn4 text4 n4 msg4 c4 (w4 : World Demo.ext_state),
             exists evs4,
               trace (snd (run Demo.cfg Demo.platform
                             (post_eval_gen_task Demo.cfg
                                (Demo.request Demo.alice 11) fn4 text4 n4 msg4
                                (Demo.progress 12)) c4 w4))
               = trace w4 ++ evs4
               /\ notices evs4 = []).
Proof.
  split; [reflexivity|]. split; [reflexivity|].
  split; [vm_compute; reflexivity|].
  refine (@worker_exception_takes_failure_route Demo.cfg _ Demo.platform
            (Demo.request Demo.alice 11) Demo.alice Demo.alice_msg
            (Demo.progress 12) Demo.alice_wav (get_user_settings Demo.cfg 7)
            (Text (lit "boom")) (lit "/srv/voices") Front Worker
            (world Demo.start) (Text (lit "boom"))
            (Exn OtherException (lit "engine failure")) (snd Demo.boom_try)
            _ _ demo_delete_fails_with_telegram_error _).
  - reflexivity.
  - reflexivity.
  - vm_compute. reflexivity.
Defined.

(** C4 fails on the code, by the defect of C1 as the requester sees it.
    The job whose synthesis raises is reported by
    [post_eval_gen_report_error], which sends the failure notice; the
    job is sent down the delivery route as well, where the conversion of
    the first sample finds no file and [post_eval_gen_task] ends by
    raising the [TelegramError] "Audio generation Error".  That coroutine
    was made with [Application.create_task(..., update=update)], which
    gives an exception leaving it, with the update, to the error handler
    of the application; and [error_handler] answers it with a notice of
    its own, a reply to the same message.  The requester is told twice,
    in two different texts. *)
Theorem C4_failed_job_is_notified_twice :
  notices (trace (world Demo.failing_run))
  = [(Demo.alice_msg, failure_reply Demo.cfg Demo.alice, 11)]
  /\ task_failures (trace (world Demo.failing_run))
     = [(T_post_eval_gen_task (Demo.request Demo.alice 11) Demo.alice_wav
           (Text (lit "boom")) 2 (Some Demo.alice_msg) (Demo.progress 12),
         DemoJobs.delivery_error)]
  /\ Bot.update BotDemo.text_request = Demo.request Demo.alice 11
  /\ Bot.trace (snd (Bot.error_handler Demo.cfg BotDemo.services
                       (Some BotDemo.text_request) DemoJobs.delivery_error
                       BotDemo.idle))
     = [Bot.Log_error (lit "Exception while handling an update:")
          DemoJobs.delivery_error;
        Bot.Reply_html Demo.alice_msg
          (Bot.internal_error_reply Demo.cfg Demo.alice) (Some 11) true]
  /\ failure_reply Demo.cfg Demo.alice
     <> Bot.internal_error_reply Demo.cfg Demo.alice.
Proof.
  split; [vm_compute; reflexivity|].
  split; [vm_compute; reflexivity|].
  split; [reflexivity|].
  split; [vm_compute; reflexivity|].
  vm_compute. discriminate.
Qed.

(** C5.  Every caption delivered by [post_eval_gen_task] for a job whose
    text is [t] is [t] itself when [len t <= MAX_CHARS_NUM] and
    [t[0:MAX_CHARS_NUM] + "..."] otherwise, for a maximum that is not
    negative. *)
Theorem C5_caption_is_text_or_cut (cfg : Config) (X : Type) (P : Platform X)
    (u : Update) (fn t : str) (n : Z) (msg : option Message) (pm : Message)
    (c : ctx) (w : World X) :
  0 <= MAX_CHARS_NUM cfg ->
  exists evs,
    trace (snd (run cfg P (post_eval_gen_task cfg u fn (Text t) n msg pm) c w))
    = trace w ++ evs
    /\ Forall (eq (Text (caption_spec (MAX_CHARS_NUM cfg) t))) (captions evs).
Proof.
  intros H. rewrite <- elide_caption_spec by assumption.
  now apply post_eval_gen_task_captions.
Qed.

(** C5 on three samples of the text "hello world" with a maximum of 5. *)
Lemma C5_witness :
  0 <= MAX_CHARS_NUM Demo.cfg
  /\ exists evs,
       trace (snd (run Demo.cfg Demo.platform
                     (post_eval_gen_task Demo.cfg (Demo.request Demo.alice 11)
                        Demo.alice_wav (Text (lit "hello world")) 3
                        (Some Demo.alice_msg) (Demo.progress 12))
                     Front Demo.three_samples))
       = trace Demo.three_samples ++ evs
       /\ Forall (eq (Text (caption_spec (MAX_CHARS_NUM Demo.cfg) (lit "hello world"))))
            (captions evs).
Proof.
  split; [vm_compute; discriminate|].
  apply C5_caption_is_text_or_cut. vm_compute. discriminate.
Defined.

(** C6.  When the first [k] samples of a job go through and the next one
    raises [e] during conversion, opening or sending, then
    [post_eval_gen_task] has made exactly those [k] deliveries and no
    other, has scheduled the removal of the progress message, has cleared
    the results directory, and only then raises
    [TelegramError("Audio generation Error")] from [e]; the scheduled
    removal attempts the deletion once. *)
Theorem C6_partial_fan_out (cfg : Config) (X : Type) (P : Platform X)
    (u : Update) (usr : User) (fn : str) (text : data) (n : Z)
    (msg : option Message) (pm : Message) (c : ctx) (w : World X)
    (k : nat) (tk : data) (wk : World X) (e : exn) (we : World X) :
  effective_user u = Some usr ->
  (k < Z.to_nat n)%nat ->
  run cfg P (for_range k 0 (deliver_sample cfg (effective_user u) fn msg) text) c w
  = (Ok tk, wk) ->
  run cfg P (deliver_sample cfg (effective_user u) fn msg (Z.of_nat k) tk) c wk
  = (Err e, we) ->
  exists w' evs,
    run cfg P (post_eval_gen_task cfg u fn text n msg pm) c w
    = (Err (ExnFrom TelegramError (lit "Audio generation Error") e), w')
    /\ trace w' = trace w ++ evs
                  ++ [E_create_task c (T_delete_progress_msg pm);
                      E_clear_dir c (RESULTS_PATH cfg)]
    /\ List.length (delivered evs) = k
    /\ quiet evs
    /\ files w' = clear_dir cfg (RESULTS_PATH cfg) (files we)
    /\ spawned w'
       = spawned w ++ [(create_task_loop P c, T_delete_progress_msg pm, None)]
    /\ forall c0 (w0 : World X),
         exists evs0,
           trace (snd (run cfg P (delete_progress_msg pm) c0 w0)) = trace w0 ++ evs0
           /\ delete_attempts evs0 = [pm].
Proof.
  intros Hu Hk Hloop Hfail.
  assert (U : effective_user u <> None) by (rewrite Hu; discriminate).
  destruct (loop_events cfg P (effective_user u) fn msg k 0 text c w)
    as (r1 & w1 & evs1 & E1 & T1 & S1 & Q1 & OK1 & _).
  rewrite Hloop in E1. injection E1 as <- <-.
  destruct (deliver_sample_events cfg P (effective_user u) fn msg (Z.of_nat k) tk c wk)
    as (r2 & w2 & evs2 & E2 & T2 & S2 & Q2 & _ & _ & ER2).
  rewrite Hfail in E2. injection E2 as <- <-.
  exists (cleaned cfg P pm c we), (evs1 ++ evs2).
  split.
  { rewrite post_eval_gen_task_run.
    replace (Z.to_nat n) with (k + S (Z.to_nat n - k - 1))%nat by lia.
    rewrite for_range_split, Hloop. cbn [Z.add]. now rewrite Hfail. }
  split. { now rewrite cleaned_trace, T2, T1, <- !app_assoc. }
  split. { rewrite delivered_app, length_app, (OK1 tk eq_refl),
             (ER2 e eq_refl U). simpl. lia. }
  split. { now apply quiet_app. }
  split. { reflexivity. }
  split. { unfold cleaned. cbn [spawned log set_files spawn]. congruence. }
  intros c0 w0.
  destruct (delete_progress_msg_events cfg P pm c0 w0)
    as (r & w' & evs & -> & T & D & _).
  exists evs. auto.
Qed.

(** C6 on three samples, the second of which times out when it is sent. *)
Lemma C6_witness :
  effective_user (Demo.request Demo.alice 11) = Some Demo.alice
  /\ (1 < Z.to_nat 3)%nat
  /\ Demo.first_round = (Ok (Text (lit "hello...")), snd Demo.first_round)
  /\ Demo.second_round
     = (Err (Exn TelegramError (lit "Timed out")), snd Demo.second_round)
  /\ exists w' evs,
       run Demo.cfg Demo.flaky
         (post_eval_gen_task Demo.cfg (Demo.request Demo.alice 11) Demo.alice_wav
            (Text (lit "hello world")) 3 (Some Demo.alice_msg) (Demo.progress 12))
         Front Demo.three_samples
       = (Err (ExnFrom TelegramError (lit "Audio generation Error")
                 (Exn TelegramError (lit "Timed out"))), w')
       /\ trace w' = trace Demo.three_samples ++ evs
                     ++ [E_create_task Front (T_delete_progress_msg (Demo.progress 12));
                         E_clear_dir Front (RESULTS_PATH Demo.cfg)]
       /\ List.length (delivered evs) = 1%nat
       /\ quiet evs
       /\ files w' = clear_dir Demo.cfg (RESULTS_PATH Demo.cfg)
                       (files (snd Demo.second_round))
       /\ spawned w'
          = spawned Demo.three_samples
            ++ [(create_task_loop Demo.flaky Front,
                 T_delete_progress_msg (Demo.progress 12), None)]
       /\ forall c0 (w0 : World Demo.ext_state),
            exists evs0,
              trace (snd (run Demo.cfg Demo.flaky
                            (delete_progress_msg (Demo.progress 12)) c0 w0))
              = trace w0 ++ evs0
              /\ delete_attempts evs0 = [Demo.progress 12].
Proof.
  split; [reflexivity|]. split; [vm_compute; lia|].
  split; [vm_compute; reflexivity|]. split; [vm_compute; reflexivity|].
  refine (@C6_partial_fan_out Demo.cfg _ Demo.flaky (Demo.request Demo.alice 11)
            Demo.alice Demo.alice_wav (Text (lit "hello world")) 3
            (Some Demo.alice_msg) (Demo.progress 12) Front Demo.three_samples
            1%nat (Text (lit "hello...")) (snd Demo.first_round)
            (Exn TelegramError (lit "Timed out")) (snd Demo.second_round)
            _ _ _ _).
  - reflexivity.
  - vm_compute. lia.
  - vm_compute. reflexivity.
  - vm_compute. reflexivity.
Defined.

(** C7 fails on the code.  Two requests of one user a quarter of a second
    apart get the same output path. *)
Lemma C7_same_second_same_path :
  ~ prefix_injective (lit "/srv/results") (lit "/srv").
Proof.
  intros H. apply (H 7 (401 # 4)%Q 7 (402 # 4)%Q).
  - right. intros E. vm_compute in E. discriminate.
  - vm_compute. reflexivity.
Qed.

(** C7, as the code has it.  The output path of a job, and likewise the
    path a voice message is downloaded to, is determined by the id of the
    requester and the whole second of the clock reading, and determines
    both: two submissions share a path exactly when they come from the
    same requester within the same second. *)
Theorem C7_path_names_user_and_second (results_path cwd : str)
    (u1 u2 : Z) (t1 t2 : Q) :
  (filename_result results_path cwd u1 t1 = filename_result results_path cwd u2 t2
   <-> u1 = u2 /\ py_int t1 = py_int t2)
  /\ (voice_file_path results_path cwd u1 t1 = voice_file_path results_path cwd u2 t2
      <-> u1 = u2 /\ py_int t1 = py_int t2).
Proof.
  split; split.
  - intros E. apply (f_equal PosixPath.basename) in E.
    rewrite !filename_result_basename in E. now apply wav_name_inj.
  - intros [-> E]. unfold filename_result, wav_name. now rewrite E.
  - intros E. apply (f_equal PosixPath.basename) in E.
    rewrite !voice_file_path_basename in E. now apply ogg_name_inj.
  - intros [-> E]. unfold voice_file_path, ogg_name. now rewrite E.
Qed.

(** C8 as stated fails on the code.  With two jobs handed over, the
    second one starts on the worker, and runs to its end, while the first
    one has only been synthesised: its delivery has not started, and
    neither job has been cleaned up. *)
Lemma C8_second_job_starts_before_first_is_cleaned_up :
  ~ serial_and_after_cleanup (trace (world Demo.two_jobs_synthesised)).
Proof.
  intros [_ H].
  destruct (H (firstn 14 (trace (world Demo.two_jobs_synthesised))) Worker
              DemoJobs.bob_job
              (skipn 15 (trace (world Demo.two_jobs_synthesised)))
              [] DemoJobs.alice_job [] [])
    as (pm & J & I).
  - vm_compute. reflexivity.
  - reflexivity.
  - vm_compute. reflexivity.
  - clear J. revert I. vm_compute. intros [].
Qed.

(** In that state nothing has been delivered, cleared or deleted yet. *)
Example two_jobs_synthesised_nothing_cleaned :
  executions (trace (world Demo.two_jobs_synthesised))
  = serial [DemoJobs.alice_job; DemoJobs.bob_job]
  /\ delivered (trace (world Demo.two_jobs_synthesised)) = []
  /\ clears (trace (world Demo.two_jobs_synthesised)) = []
  /\ delete_attempts (trace (world Demo.two_jobs_synthesised)) = []
  /\ cleaned_up (trace (world Demo.two_jobs_synthesised)) = [].
Proof. vm_compute. auto 6. Qed.

(** A turn of the worker whose first handle is a job runs that job from
    its start to its end. *)
Lemma worker_turn_runs_job (cfg : Config) (X : Type) (P : Platform X)
    (s : Sched X) (en : entry) (rest : list entry) :
  Inv s -> ready_worker s = en :: rest -> is_job (e_task en) = true ->
  executions (trace (world (turn cfg P Worker s)))
  = executions (trace (world s)) ++ serial [e_task en].
Proof.
  intros I R J. unfold turn. cbn [ready]. rewrite R.
  destruct (begin_or_resume cfg P Worker en (world s)) as [m' w1] eqn:B.
  destruct (settle cfg P Worker en m' w1) as [w2 again] eqn:St.
  assert (C : e_cont en = None).
  { destruct I as [_ _ Ok _]. apply Forall_app in Ok as [_ Okw].
    rewrite R in Okw. inversion Okw as [|? ? Oken _]; subst.
    unfold entry_ok in Oken. destruct (e_cont en); [|reflexivity].
    destruct Oken. congruence. }
  destruct (@turn_job cfg X P en (world s) w1 w2 m' again C J B St)
    as [(evs & sp & T & _ & E & _) _].
  match goal with
  | |- context [flush ?s'] => destruct (flush_spec s') as (_ & _ & Tf & _)
  end.
  unfold set_ready at 1. cbn [world]. rewrite Tf.
  cbn [world with_world set_ready].
  now rewrite T, executions_app, E.
Qed.

(** C8, amended.  Whatever requests arrive and however the turns of the
    two loops interleave, the jobs that have run are the first [k] jobs
    handed to the worker, in that order; each was started and brought to
    the end of its execution on the worker before the next one was
    started; the jobs handed over and not yet run wait in the worker's
    queue in the order they were handed over; and a turn of the worker
    that finds a job first in its queue runs that job from start to end.
    The end of a job's execution is the return of [run_gen_audio], not
    the delivery or the cleanup of the job. *)
Theorem C8_jobs_run_serially_in_order (cfg : Config) (X : Type)
    (P : Platform X) (mvs : list move) (fs : list str) (x : X) :
  let s := steps cfg P mvs (boot fs x) in
  (exists k,
     executions (trace (world s))
     = serial (firstn k (submissions (trace (world s))))
     /\ queued_jobs (ready_worker s) = skipn k (submissions (trace (world s)))
     /\ queued_jobs (ready_front s) = [])
  /\ (forall en rest,
        ready_worker s = en :: rest ->
        is_job (e_task en) = true ->
        executions (trace (world (turn cfg P Worker s)))
        = executions (trace (world s)) ++ serial [e_task en]).
Proof.
  cbn zeta.
  pose proof (steps_inv cfg P mvs (boot_inv fs x)) as I.
  split.
  - destruct I as [(done & Ex & Su) Qf _ _].
    exists (List.length done). rewrite Su, Ex.
    rewrite firstn_app, Nat.sub_diag, firstn_all, firstn_O, app_nil_r.
    rewrite skipn_app, Nat.sub_diag, skipn_all. cbn. auto.
  - intros en rest R J. now apply worker_turn_runs_job with (rest := rest).
Qed.

(** C9 fails on the code.  The done callback [eval_gen_task] runs where
    the future is completed, on the worker, and calls
    [Application.create_task] there directly; the failure path of
    [run_gen_audio] crosses over with [run_coroutine_threadsafe]. *)
Theorem C9_done_callback_creates_task_on_worker :
  In (Worker,
      T_post_eval_gen_task (Demo.request Demo.alice 11) Demo.alice_wav
        (Text (lit "hello world")) 2 (Some Demo.alice_msg) (Demo.progress 12))
     (created (trace (world Demo.good_run)))
  /\ ~ front_safe (trace (world Demo.good_run))
  /\ In (T_handle_post_eval_gen_report_error (Demo.request Demo.alice 11)
           (Demo.progress 12) (Exn OtherException (lit "engine failure")),
         Front)
        (handoffs (trace (world Demo.failing_run))).
Proof.
  assert (H : In (Worker,
      T_post_eval_gen_task (Demo.request Demo.alice 11) Demo.alice_wav
        (Text (lit "hello world")) 2 (Some Demo.alice_msg) (Demo.progress 12))
     (created (trace (world Demo.good_run)))).
  { vm_compute. auto. }
  split; [exact H|]. split.
  - intros S. pose proof (S _ _ H) as E. discriminate.
  - clear H. vm_compute. right. left. reflexivity.
Qed.

(** C10.  Cutting a caption twice is cutting it once, and so every sample
    of one job is delivered with the caption of the first one. *)
Theorem C10_all_samples_share_caption (cfg : Config) (X : Type) (P : Platform X)
    (u : Update) (fn t : str) (n : Z) (msg : option Message) (pm : Message)
    (c : ctx) (w : World X) :
  0 <= MAX_CHARS_NUM cfg ->
  elide (MAX_CHARS_NUM cfg) (elide (MAX_CHARS_NUM cfg) t)
  = elide (MAX_CHARS_NUM cfg) t
  /\ exists evs,
       trace (snd (run cfg P (post_eval_gen_task cfg u fn (Text t) n msg pm) c w))
       = trace w ++ evs
       /\ forall i cap_i cap_0,
            nth_error (captions evs) i = Some cap_i ->
            nth_error (captions evs) 0 = Some cap_0 ->
            cap_i = cap_0.
Proof.
  intros H. split; [now apply elide_idempotent|].
  destruct (@post_eval_gen_task_captions cfg X P u fn t n msg pm c w H)
    as (evs & T & F).
  exists evs. split; [assumption|].
  intros i ci c0 Hi H0. rewrite Forall_forall in F.
  apply nth_error_In in Hi, H0. rewrite <- (F _ Hi), <- (F _ H0). reflexivity.
Qed.

(** C10 on three samples of the text "hello world" with a maximum of 5. *)
Lemma C10_witness :
  0 <= MAX_CHARS_NUM Demo.cfg
  /\ elide (MAX_CHARS_NUM Demo.cfg) (elide (MAX_CHARS_NUM Demo.cfg) (lit "hello world"))
     = elide (MAX_CHARS_NUM Demo.cfg) (lit "hello world")
  /\ exists evs,
       trace (snd (run Demo.cfg Demo.platform
                     (post_eval_gen_task Demo.cfg (Demo.request Demo.alice 11)
                        Demo.alice_wav (Text (lit "hello world")) 3
                        (Some Demo.alice_msg) (Demo.progress 12))
                     Front Demo.three_samples))
       = trace Demo.three_samples ++ evs
       /\ forall i cap_i cap_0,
            nth_error (captions evs) i = Some cap_i ->
            nth_error (captions evs) 0 = Some cap_0 ->
            cap_i = cap_0.
Proof.
  split; [vm_compute; discriminate|].
  apply C10_all_samples_share_caption. vm_compute. discriminate.
Defined.

(* ================================================================== *)
(** * Further properties of the module *)
(* ================================================================== *)

(* ------------------------------------------------------------------ *)
(** ** The sample files of a job *)

Lemma startswith_app (old post : str) : startswith old (old ++ post) = true.
Proof.
  induction old as [|a old IH]; [reflexivity|].
  cbn [startswith app]. now rewrite N.eqb_refl, IH.
Qed.

(** With an occurrence of [old] in [s], [replace] keeps what stands
    before the first one and puts [new] next. *)
Lemma replace_first_occurrence (old : str) (s pre0 post0 : str) :
  old <> [] -> s = pre0 ++ old ++ post0 ->
  exists pre rest,
    forall new, replace old new s = pre ++ new ++ rest new.
Proof.
  intros Hold. revert pre0. induction s as [|c s IH]; intros pre0 E.
  - symmetry in E. apply app_eq_nil in E as [_ E].
    apply app_eq_nil in E as [E _]. contradiction.
  - unfold replace in *. destruct (startswith old (c :: s)) eqn:SW.
    + exists [], (fun new => replace_go old new (pred (List.length old)) s).
      intros new. cbn [replace_go app]. now rewrite SW.
    + destruct pre0 as [|c0 pre0].
      * cbn [app] in E. rewrite E, startswith_app in SW. discriminate.
      * injection E as <- E. destruct (IH pre0 E) as (pre & rest & R).
        exists (c :: pre), rest. intros new. cbn [replace_go].
        rewrite SW. cbn [app]. now rewrite R.
Qed.

Lemma abspath_join_suffix (cwd results_path name : str) :
  proper_name name ->
  exists y, PosixPath.abspath cwd (PosixPath.join results_path name) = y ++ name.
Proof.
  intros Hp.
  destruct (@join_dirish results_path [] name) as (y1 & Hy1 & E1);
    [now left | now apply proper_not_abs |].
  simpl app in E1. rewrite E1. unfold PosixPath.abspath, PosixPath.isabs.
  destruct (startswith PosixPath.sep (y1 ++ name)) eqn:A.
  - destruct (@normpath_dirish y1 name Hy1 Hp) as (y2 & Hy2 & ->). eauto.
  - destruct (@join_dirish cwd y1 name Hy1 A) as (y2 & Hy2 & ->).
    destruct (@normpath_dirish y2 name Hy2 Hp) as (y3 & Hy3 & ->). eauto.
Qed.

(** X1.  The sample files of one job are pairwise distinct: for the
    output path that [start_gen_task] builds, two sample indices give
    the same sample path only when they are equal. *)
Theorem X1_sample_files_distinct (results_path cwd : str) (u : Z) (t : Q)
    (i j : Z) :
  sample_file (filename_result results_path cwd u t) i
  = sample_file (filename_result results_path cwd u t) j
  <-> i = j.
Proof.
  split; [|now intros ->].
  destruct (@abspath_join_suffix cwd results_path (wav_name u t)
              (wav_name_proper u t)) as (y & Ey).
  unfold filename_result. rewrite Ey. unfold wav_name, sample_file.
  set (stem := str_of_Z u ++ lit "_" ++ str_of_Z (py_int t)).
  destruct (@replace_first_occurrence (lit ".wav") (y ++ stem ++ lit ".wav")
              (y ++ stem) []) as (pre & rest & R).
  - discriminate.
  - now rewrite <- !app_assoc.
  - replace (y ++ str_of_Z u ++ lit "_" ++ str_of_Z (py_int t) ++ lit ".wav")
      with (y ++ stem ++ lit ".wav") by (unfold stem; now rewrite <- !app_assoc).
    rewrite !R. intros E. apply app_inv_head in E.
    change (lit "_") with [95%N] in E. change (lit ".wav") with (46%N :: lit "wav") in E.
    cbn [app] in E. injection E as E. rewrite <- !app_assoc in E.
    cbn [app] in E. apply app_sep_inj in E.
    + now apply str_of_Z_inj.
    + apply str_of_Z_avoids. unfold digit_or_minus. lia.
    + apply str_of_Z_avoids. unfold digit_or_minus. lia.
Qed.

(* ------------------------------------------------------------------ *)
(** ** The delivery route *)

Lemma elide_length (MAX : Z) (t : str) :
  0 <= MAX -> len (elide MAX t) <= MAX + 3.
Proof.
  intros H. unfold elide. destruct (len t >? MAX) eqn:G.
  - rewrite slice_to_nonneg, len_app by assumption.
    change (len (lit "...")) with 3. unfold len. rewrite length_firstn. lia.
  - rewrite Z.gtb_ltb in G. apply Z.ltb_ge in G. lia.
Qed.

Lemma indices_cons (i : Z) (n : nat) :
  indices i (S n) = i :: indices (i + 1) n.
Proof.
  unfold indices. cbn [seq map]. rewrite Z.add_0_r. f_equal.
  rewrite <- seq_shift, map_map. apply map_ext. intros k. lia.
Qed.

Lemma voice_calls_app (a b : list event) :
  voice_calls (a ++ b) = voice_calls a ++ voice_calls b.
Proof. apply flat_map_app. Qed.

Lemma converted_app (a b : list event) :
  converted (a ++ b) = converted a ++ converted b.
Proof. apply flat_map_app. Qed.

Section DeliveryFacts.

Variable cfg : Config.
Variable X : Type.
Variable P : Platform X.

(** How one round of the loop addresses its reply. *)
Definition addressed (user : option User) (msg : option Message)
    (call : Message * Z * keyboard) : Prop :=
  msg = Some (fst (fst call))
  /\ snd (fst call) = message_id (fst (fst call))
  /\ snd call = retry_keyboard cfg user.

Lemma deliver_sample_calls (user : option User) (fn : str)
    (msg : option Message) (i : Z) (text : data) c (w : World X) :
  exists evs,
    trace (snd (run cfg P (deliver_sample cfg user fn msg i text) c w))
    = trace w ++ evs
    /\ converted evs = [sample_file fn i]
    /\ Forall (addressed user msg) (voice_calls evs).
Proof.
  unfold deliver_sample. cbn [run bind call do attr perform].
  destruct (convert_to_voice P (sample_file fn i) (files w) (ext w))
    as [[[v|e] fs] x]; cbn [run bind call do attr perform].
  2:{ eexists. cbn [snd trace log set_files set_ext].
      split; [reflexivity|]. split; [reflexivity|constructor]. }
  cbn [trace spawned files ext log set_ext set_files spawn fst snd].
  destruct (open_rb v fs) as [[]|e]; cbn [run bind call do attr perform is_ok].
  2:{ eexists. cbn [snd trace log set_files set_ext]. rewrite <- app_assoc.
      split; [reflexivity|]. split; [reflexivity|constructor]. }
  destruct msg as [m|]; cbn [run bind call do attr perform].
  2:{ eexists. cbn [snd trace log set_files set_ext]. rewrite <- app_assoc.
      split; [reflexivity|]. split; [reflexivity|constructor]. }
  cbn [trace spawned files ext log set_ext set_files spawn fst snd].
  destruct (reply_voice P m v (elide_data cfg text) (message_id m)
              (retry_keyboard cfg user) x) as [[[]|e] x'];
    cbn [run bind call do attr perform is_ok].
  2:{ eexists. cbn [snd trace log set_files set_ext]. rewrite <- !app_assoc.
      split; [reflexivity|]. split; [reflexivity|].
      repeat constructor. }
  destruct user as [u|]; cbn [run bind call do attr perform];
    eexists; cbn [snd trace log set_files set_ext]; rewrite <- !app_assoc;
    (split; [reflexivity|]); (split; [reflexivity|]); repeat constructor.
Qed.

Lemma loop_calls (user : option User) (fn : str) (msg : option Message)
    (n : nat) (i : Z) (text : data) c (w : World X) :
  exists evs j,
    trace (snd (run cfg P (for_range n i (deliver_sample cfg user fn msg) text) c w))
    = trace w ++ evs
    /\ (j <= n)%nat
    /\ converted evs = map (sample_file fn) (indices i j)
    /\ Forall (addressed user msg) (voice_calls evs)
    /\ (forall d,
          fst (run cfg P (for_range n i (deliver_sample cfg user fn msg) text) c w)
          = Ok d -> j = n).
Proof.
  revert i text w. induction n as [|n IH]; intros i text w.
  - exists [], O. cbn [for_range run snd fst]. rewrite app_nil_r.
    split; [reflexivity|]. split; [lia|]. split; [reflexivity|].
    split; [constructor|reflexivity].
  - cbn [for_range]. rewrite run_bind.
    destruct (deliver_sample_calls user fn msg i text c w) as (e1 & T1 & C1 & A1).
    destruct (run cfg P (deliver_sample cfg user fn msg i text) c w)
      as [[d1|x1] w1]; cbn [snd] in T1.
    + destruct (IH (i + 1) d1 w1) as (e2 & j & T2 & L & C2 & A2 & F).
      exists (e1 ++ e2), (S j). rewrite T2, T1, <- app_assoc.
      split; [reflexivity|]. split; [lia|].
      split. { now rewrite converted_app, C1, C2, indices_cons. }
      split. { rewrite voice_calls_app. now apply Forall_app. }
      intros d E. f_equal. eauto.
    + exists e1, 1%nat. cbn [snd fst]. split; [assumption|]. split; [lia|].
      split. { rewrite C1. unfold indices. cbn. now rewrite Z.add_0_r. }
      split; [assumption|]. discriminate.
Qed.

End DeliveryFacts.

(** X2.  No caption that [post_eval_gen_task] delivers for a text is
    longer than [MAX_CHARS_NUM + 3] characters, for a maximum that is not
    negative. *)
Theorem X2_caption_length_bounded (cfg : Config) (X : Type) (P : Platform X)
    (u : Update) (fn t : str) (n : Z) (msg : option Message) (pm : Message)
    (c : ctx) (w : World X) :
  0 <= MAX_CHARS_NUM cfg ->
  exists evs,
    trace (snd (run cfg P (post_eval_gen_task cfg u fn (Text t) n msg pm) c w))
    = trace w ++ evs
    /\ Forall (fun cap => exists s, cap = Text s /\ len s <= MAX_CHARS_NUM cfg + 3)
         (captions evs).
Proof.
  intros H.
  destruct (@post_eval_gen_task_captions cfg X P u fn t n msg pm c w H)
    as (evs & T & F).
  exists evs. split; [assumption|].
  eapply Forall_impl; [|exact F].
  intros cap <-. eexists. split; [reflexivity|]. now apply elide_length.
Qed.

(** X2 on three samples of the text "hello world" with a maximum of 5. *)
Lemma X2_witness :
  0 <= MAX_CHARS_NUM Demo.cfg
  /\ exists evs,
       trace (snd (run Demo.cfg Demo.platform
                     (post_eval_gen_task Demo.cfg (Demo.request Demo.alice 11)
                        Demo.alice_wav (Text (lit "hello world")) 3
                        (Some Demo.alice_msg) (Demo.progress 12))
                     Front Demo.three_samples))
       = trace Demo.three_samples ++ evs
       /\ Forall (fun cap => exists s,
                    cap = Text s /\ len s <= MAX_CHARS_NUM Demo.cfg + 3)
            (captions evs).
Proof.
  split; [vm_compute; discriminate|].
  apply X2_caption_length_bounded. vm_compute. discriminate.
Defined.

(** X3.  When [post_eval_gen_task] returns normally, every one of the
    [samples_num] samples has been delivered, the removal of the progress
    message has been scheduled once, the results directory has been
    cleared once, and nothing else was deleted or announced. *)
Theorem X3_normal_return_means_all_delivered (cfg : Config) (X : Type)
    (P : Platform X) (u : Update) (fn : str) (text : data) (n : Z)
    (msg : option Message) (pm : Message) (c : ctx) (w : World X) :
  fst (run cfg P (post_eval_gen_task cfg u fn text n msg pm) c w) = Ok tt ->
  exists evs,
    trace (snd (run cfg P (post_eval_gen_task cfg u fn text n msg pm) c w))
    = trace w ++ evs
    /\ List.length (delivered evs) = Z.to_nat n
    /\ converted evs = map (sample_file fn) (indices 0 (Z.to_nat n))
    /\ created evs = [(c, T_delete_progress_msg pm)]
    /\ clears evs = [RESULTS_PATH cfg]
    /\ delete_attempts evs = [] /\ notices evs = [].
Proof.
  intros R. rewrite post_eval_gen_task_run in *.
  destruct (loop_events cfg P (effective_user u) fn msg (Z.to_nat n) 0 text c w)
    as (r & w1 & evs & E & T & _ & Q & OK & _).
  destruct (loop_calls cfg P (effective_user u) fn msg (Z.to_nat n) 0 text c w)
    as (evs' & j & T' & _ & C & _ & J).
  rewrite E in *. cbn [snd fst] in *.
  rewrite T in T'. apply app_inv_head in T'. subst evs'.
  destruct r as [d|e]; [|discriminate]. cbn [snd].
  rewrite (J d eq_refl) in C.
  exists (evs ++ [E_create_task c (T_delete_progress_msg pm);
                  E_clear_dir c (RESULTS_PATH cfg)]).
  rewrite cleaned_trace, T, <- app_assoc. split; [reflexivity|].
  destruct Q as (Q1 & Q2 & Q3 & Q4 & Q5).
  unfold created, clears, delete_attempts, notices in *.
  rewrite delivered_app, converted_app, !flat_map_app, length_app,
    (OK d eq_refl), C, Q1, Q2, Q3, Q4.
  cbn. rewrite Nat.add_0_r, app_nil_r.
  repeat (split; [reflexivity|]). reflexivity.
Qed.

(** X3 on the two samples Alice's job wrote in the demo. *)
Lemma X3_witness :
  fst (run Demo.cfg Demo.platform
         (post_eval_gen_task Demo.cfg (Demo.request Demo.alice 11) Demo.alice_wav
            (Text (lit "one")) 2 (Some Demo.alice_msg) (Demo.progress 12))
         Worker (world Demo.two_jobs_synthesised)) = Ok tt
  /\ exists evs,
       trace (snd (run Demo.cfg Demo.platform
                     (post_eval_gen_task Demo.cfg (Demo.request Demo.alice 11)
                        Demo.alice_wav (Text (lit "one")) 2
                        (Some Demo.alice_msg) (Demo.progress 12))
                     Worker (world Demo.two_jobs_synthesised)))
       = trace (world Demo.two_jobs_synthesised) ++ evs
       /\ List.length (delivered evs) = Z.to_nat 2
       /\ converted evs = map (sample_file Demo.alice_wav) (indices 0 (Z.to_nat 2))
       /\ created evs = [(Worker, T_delete_progress_msg (Demo.progress 12))]
       /\ clears evs = [RESULTS_PATH Demo.cfg]
       /\ delete_attempts evs = [] /\ notices evs = [].
Proof.
  split; [vm_compute; reflexivity|].
  apply X3_normal_return_means_all_delivered. vm_compute. reflexivity.
Defined.

(** X4.  With a sample count of zero or less [post_eval_gen_task]
    converts and sends nothing; it still schedules the removal of the
    progress message, clears the results directory and returns normally. *)
Theorem X4_no_samples_still_cleans_up (cfg : Config) (X : Type)
    (P : Platform X) (u : Update) (fn : str) (text : data) (n : Z)
    (msg : option Message) (pm : Message) (c : ctx) (w : World X) :
  n <= 0 ->
  run cfg P (post_eval_gen_task cfg u fn text n msg pm) c w
  = (Ok tt, cleaned cfg P pm c w)
  /\ trace (cleaned cfg P pm c w)
     = trace w ++ [E_create_task c (T_delete_progress_msg pm);
                   E_clear_dir c (RESULTS_PATH cfg)].
Proof.
  intros H. rewrite post_eval_gen_task_run.
  replace (Z.to_nat n) with O by lia. cbn [for_range run].
  split; [reflexivity|apply cleaned_trace].
Qed.

(** X4 with a sample count of zero. *)
Lemma X4_witness :
  0 <= 0
  /\ run Demo.cfg Demo.platform
       (post_eval_gen_task Demo.cfg (Demo.request Demo.alice 11) Demo.alice_wav
          (Text (lit "one")) 0 (Some Demo.alice_msg) (Demo.progress 12))
       Front Demo.three_samples
     = (Ok tt, cleaned Demo.cfg Demo.platform (Demo.progress 12) Front
                 Demo.three_samples)
  /\ trace (cleaned Demo.cfg Demo.platform (Demo.progress 12) Front
              Demo.three_samples)
     = trace Demo.three_samples
       ++ [E_create_task Front (T_delete_progress_msg (Demo.progress 12));
           E_clear_dir Front (RESULTS_PATH Demo.cfg)].
Proof.
  split; [lia|].
  apply X4_no_samples_still_cleans_up. lia.
Defined.

(** X5.  Whatever happens, [post_eval_gen_task] converts the samples in
    the order of their indices, from sample 0 on, without gap and never
    more than [samples_num] of them; and every [reply_voice] it calls is
    a reply to the requester's message, quotes that message's id and
    carries the one-button keyboard with [QUERY_PATTERN_RETRY]. *)
Theorem X5_deliveries_in_order_and_addressed (cfg : Config) (X : Type)
    (P : Platform X) (u : Update) (fn : str) (text : data) (n : Z)
    (msg : option Message) (pm : Message) (c : ctx) (w : World X) :
  exists evs j,
    trace (snd (run cfg P (post_eval_gen_task cfg u fn text n msg pm) c w))
    = trace w ++ evs
    /\ (j <= Z.to_nat n)%nat
    /\ converted evs = map (sample_file fn) (indices 0 j)
    /\ Forall (fun call =>
                 msg = Some (fst (fst call))
                 /\ snd (fst call) = message_id (fst (fst call))
                 /\ snd call
                    = [[(get_text_locale cfg (effective_user u)
                           (get_cis_locale_dict cfg (lit "Генерировать снова"))
                           (lit "Regenerate"),
                         QUERY_PATTERN_RETRY cfg)]])
         (voice_calls evs).
Proof.
  destruct (post_eval_gen_task_events cfg P u fn text n msg pm c w)
    as (r & w1 & evs & E & T & Q & ->).
  destruct (loop_calls cfg P (effective_user u) fn msg (Z.to_nat n) 0 text c w)
    as (evs' & j & T' & L & C & A & _).
  rewrite E in T'. cbn [snd] in T'. rewrite T in T'.
  apply app_inv_head in T'. subst evs'.
  exists (evs ++ [E_create_task c (T_delete_progress_msg pm);
                  E_clear_dir c (RESULTS_PATH cfg)]), j.
  rewrite cleaned_trace, T, <- app_assoc. split; [reflexivity|].
  split; [assumption|].
  rewrite converted_app, voice_calls_app, C. cbn. rewrite !app_nil_r.
  split; [reflexivity|]. exact A.
Qed.

(* ------------------------------------------------------------------ *)
(** ** The progress message and the failure report *)

(** X6.  [delete_progress_msg] asks once for the deletion.  A
    [TelegramError] from the platform is logged and goes no further;
    any other exception leaves the coroutine, unlogged. *)
Theorem X6_progress_removal_swallows_telegram_errors (cfg : Config)
    (X : Type) (P : Platform X) (pm : Message) (c : ctx) (w : World X) :
  exists evs,
    trace (snd (run cfg P (delete_progress_msg pm) c w)) = trace w ++ evs
    /\ delete_attempts evs = [pm]
    /\ match fst (msg_delete P pm (ext w)) with
       | Ok _ =>
           fst (run cfg P (delete_progress_msg pm) c w) = Ok tt
           /\ error_logs evs = []
       | Err e =>
           if is_telegram_error e
           then fst (run cfg P (delete_progress_msg pm) c w) = Ok tt
                /\ error_logs evs = [lit "Failed to delete progress message"]
           else fst (run cfg P (delete_progress_msg pm) c w) = Err e
                /\ error_logs evs = []
       end.
Proof.
  unfold delete_progress_msg. rewrite run_try_except.
  cbn [run call perform].
  destruct (msg_delete P pm (ext w)) as [[[]|e] x]; cbn [run is_ok fst snd].
  - eexists. cbn [trace log set_ext]. repeat split; reflexivity.
  - destruct (is_telegram_error e); cbn [run do perform fst snd];
      eexists; cbn [trace log set_ext]; rewrite <- ?app_assoc;
      repeat split; reflexivity.
Qed.

(** X7.  [post_eval_gen_report_error] clears the results directory and
    logs the exception before anything else, whatever the later steps
    do; it asks once for the deletion of the progress message, clears
    nothing more, sends at most one notice, and none for an update
    without message or without user. *)
Theorem X7_failure_report_cleans_up_first (cfg : Config) (X : Type)
    (P : Platform X) (u : Update) (pm : Message) (exc : exn) (c : ctx)
    (w : World X) :
  exists evs,
    trace (snd (run cfg P (post_eval_gen_report_error cfg u pm exc) c w))
    = trace w
      ++ [E_clear_dir c (RESULTS_PATH cfg);
          E_log_error c (lit "Exception while handling run_gen_audio:") (Some exc)]
      ++ evs
    /\ delete_attempts evs = [pm]
    /\ clears evs = []
    /\ (List.length (notices evs) <= 1)%nat
    /\ (effective_message u = None \/ effective_user u = None ->
        notices evs = []).
Proof.
  unfold post_eval_gen_report_error.
  cbn [run bind do perform]. rewrite run_bind.
  set (w0 := log _ (log _ _)).
  destruct (delete_progress_msg_events cfg P pm c w0)
    as (r0 & w' & evs0 & -> & T & D & N & C & _ & _ & _).
  assert (T0 : trace w0
               = trace w ++ [E_clear_dir c (RESULTS_PATH cfg);
                             E_log_error c (lit "Exception while handling run_gen_audio:")
                               (Some exc)]).
  { subst w0. cbn [trace log set_files]. now rewrite <- app_assoc. }
  destruct r0 as [[]|e0].
  - destruct (effective_message u) as [m|], (effective_user u) as [usr|];
      cbn [run call perform].
    + destruct (reply_html P _ _ _ _) as [[[]|?] ?]; cbn [run snd trace log set_ext];
        rewrite T, T0, <- !app_assoc; (eexists; split; [reflexivity|]);
        unfold notices, delete_attempts, clears in *; rewrite !flat_map_app, D, N, C;
        cbn; (repeat split; try reflexivity; try lia);
        intros [H|H]; discriminate.
    + cbn [snd]. rewrite T, T0, <- !app_assoc. exists evs0.
      rewrite N. cbn. repeat split; auto.
    + cbn [snd]. rewrite T, T0, <- !app_assoc. exists evs0.
      rewrite N. cbn. repeat split; auto.
    + cbn [snd]. rewrite T, T0, <- !app_assoc. exists evs0.
      rewrite N. cbn. repeat split; auto.
  - cbn [snd]. rewrite T, T0, <- !app_assoc. exists evs0.
    rewrite N. cbn. repeat split; auto.
Qed.

(* ------------------------------------------------------------------ *)
(** ** The job on the worker *)

(** X8.  A voice job calls the transcription once, and the synthesis
    only for a transcription that [validate_text] accepts.  The [data] it
    returns is the transcription, accepted or not, and the audio array
    itself when the transcription raised. *)
Theorem X8_voice_job_synthesises_accepted_text_only (cfg : Config) (X : Type)
    (P : Platform X) (u : Update) (pm : Message) (fn : str)
    (st : UserSettings) (a : ndarray) (vd : str) (loop c : ctx) (w : World X) :
  exists g w1 evs,
    run cfg P (run_gen_audio cfg u pm fn st (Audio a) vd loop) c w = (Ok g, w1)
    /\ trace w1 = trace w ++ evs
    /\ fst (engine_calls evs) = 1%nat
    /\ (snd (engine_calls evs) <= 1)%nat
    /\ (snd (engine_calls evs) = 1%nat <->
        exists t, fst (transcribe_voice P a (ext w)) = Ok t
                  /\ fst (validate_text cfg (effective_user u) t) = true)
    /\ r_data g = match fst (transcribe_voice P a (ext w)) with
                  | Ok t => Text t
                  | Err _ => Audio a
                  end.
Proof.
  unfold run_gen_audio. rewrite run_bind.
  cbn [run_gen_audio_try run bind do perform].
  destruct (transcribe_voice P a (ext w)) as [[t|e] x]; cbn [run fst snd].
  - destruct (validate_text cfg (effective_user u) t) as [[|] val_err_msg] eqn:V;
      cbn [negb run bind do perform fst snd].
    + destruct (tts_audio_from_text P _ _ _ _ _ _ _ _) as [[[[]|e] fs] x'];
        cbn [run bind do perform fst snd];
        do 3 eexists; (split; [reflexivity|]);
        cbn [trace log set_files set_ext spawn]; rewrite <- ?app_assoc;
        (split; [reflexivity|]); cbn;
        (split; [reflexivity|]); (split; [lia|]);
        (split; [|reflexivity]);
        (split; [|reflexivity]); intros _; exists t; rewrite V; now split.
    + do 3 eexists. split; [reflexivity|].
      cbn [trace log set_files set_ext spawn]. rewrite <- ?app_assoc.
      split; [reflexivity|]. cbn.
      split; [reflexivity|]. split; [lia|]. split; [|reflexivity].
      split; [discriminate|].
      intros (t' & E & V'). injection E as <-. rewrite V in V'. discriminate.
  - do 3 eexists. split; [reflexivity|].
    cbn [trace log set_files set_ext spawn]. rewrite <- ?app_assoc.
    split; [reflexivity|]. cbn.
    split; [reflexivity|]. split; [lia|]. split; [|reflexivity].
    split; [discriminate|].
    intros (t' & E & _). discriminate.
Qed.

(** X9.  [run_gen_audio] always returns its tuple, with the update, the
    progress message, the output path and the sample count it was given.
    It never calls [Application.create_task] itself; it hands over at
    most one coroutine, the failure report, and that to the loop it was
    given as [app_loop].  A text job is reported exactly when the
    synthesis raised, and its text is returned unchanged. *)
Theorem X9_job_reports_failure_to_app_loop (cfg : Config) (X : Type)
    (P : Platform X) (u : Update) (pm : Message) (fn : str)
    (st : UserSettings) (d : data) (vd : str) (loop c : ctx) (w : World X) :
  exists g w1 evs,
    run cfg P (run_gen_audio cfg u pm fn st d vd loop) c w = (Ok g, w1)
    /\ trace w1 = trace w ++ evs
    /\ r_update g = u /\ r_progress_msg g = pm
    /\ r_filename_result g = fn /\ r_samples_num g = samples_num st
    /\ created evs = []
    /\ (handoffs evs = []
        \/ exists e,
             handoffs evs = [(T_handle_post_eval_gen_report_error u pm e, loop)])
    /\ (forall t, d = Text t ->
          r_data g = Text t
          /\ (handoffs evs = [] <->
              is_ok (fst (fst (tts_audio_from_text P fn t (voice st) vd
                                 (emotion st) (samples_num st)
                                 (files w) (ext w)))) = true)).
Proof.
  destruct (run_gen_audio_try_events cfg P u fn st d vd c w)
    as (d' & r & w1 & evs & E & T & _ & H & C & _).
  erewrite run_gen_audio_run by exact E.
  assert (D : forall t, d = Text t ->
              d' = Text t
              /\ is_ok r = is_ok (fst (fst (tts_audio_from_text P fn t (voice st) vd
                                             (emotion st) (samples_num st)
                                             (files w) (ext w))))).
  { intros t ->. revert E. cbn [run_gen_audio_try run bind do perform].
    destruct (tts_audio_from_text P _ _ _ _ _ _ _ _) as [[r' fs] x].
    cbn [run fst]. intros E. injection E as <- <- _. auto. }
  destruct r as [[]|e].
  - exists (result_of u pm fn st d'), w1, evs.
    split; [reflexivity|]. split; [assumption|].
    do 4 (split; [reflexivity|]). split; [assumption|].
    split; [now left|].
    intros t Ht. destruct (D t Ht) as [-> <-]. cbn. tauto.
  - eexists (result_of u pm fn st d'), _,
      (evs ++ [E_threadsafe c (T_handle_post_eval_gen_report_error u pm e) loop]).
    split; [reflexivity|].
    split. { unfold handed_off. cbn [perform snd trace spawn log].
             now rewrite T, app_assoc. }
    do 4 (split; [reflexivity|]).
    unfold created, handoffs in *. rewrite !flat_map_app, H, C.
    split; [reflexivity|]. split; [right; exists e; reflexivity|].
    intros t Ht. destruct (D t Ht) as [-> <-]. cbn.
    split; [reflexivity|]. split; discriminate.
Qed.

(* ------------------------------------------------------------------ *)
(** ** The download path of a voice message *)

(** What [replace] returns ends like the string it was given, when the
    replacement ends like it too. *)
Lemma replace_go_last (old new0 : str) (c : char) (k : nat) (s : str) :
  (s = [] \/ exists s0, s = s0 ++ [c]) ->
  (k = O -> s <> [] -> replace_go old (new0 ++ [c]) k s <> [])
  /\ (replace_go old (new0 ++ [c]) k s = []
      \/ exists z, replace_go old (new0 ++ [c]) k s = z ++ [c]).
Proof.
  revert k. induction s as [|c0 s IH]; intros k Hs.
  - split; [intros _ H; now contradiction H|now left].
  - assert (Hs' : s = [] \/ exists s0, s = s0 ++ [c]).
    { destruct Hs as [Hs|[s0 Hs]]; [discriminate|].
      destruct s0 as [|c1 s0]; [left|right].
      - now injection Hs.
      - injection Hs as _ ->. eauto. }
    cbn [replace_go]. destruct k as [|k].
    + destruct (IH (pred (List.length old)) Hs') as [_ IHa].
      destruct (IH O Hs') as [IHn IHb].
      destruct (startswith old (c0 :: s)).
      * split. { intros _ _ H. apply app_eq_nil in H as [H _].
                 now apply app_eq_nil in H as [_ H]. }
        right. destruct IHa as [->|[z ->]].
        -- rewrite app_nil_r. eauto.
        -- exists ((new0 ++ [c]) ++ z). now rewrite <- !app_assoc.
      * split; [discriminate|]. right.
        destruct IHb as [E|[z ->]].
        -- destruct s as [|c1 s].
           ++ cbn [replace_go]. exists [].
              destruct Hs as [Hs|[s0 Hs]]; [discriminate|].
              destruct s0 as [|? [|? ?]]; try discriminate.
              now injection Hs as ->.
           ++ exfalso. apply (IHn eq_refl); [discriminate|exact E].
        -- exists (c0 :: z). reflexivity.
    + destruct (IH k Hs') as [_ IHa]. split; [discriminate|exact IHa].
Qed.

Lemma last_snoc (z : str) (c d : char) : last (z ++ [c]) d = c.
Proof. apply last_last. Qed.

(** X10.  The path to which [gen_audio_from_voice] downloads a voice
    message is never the output path of a job nor one of its sample
    files, whoever the users and whatever the times: the temporary file
    it removes is no result of a synthesis. *)
Theorem X10_voice_download_path_is_no_result_file (results_path cwd : str)
    (u u' : Z) (t t' : Q) (i : Z) :
  voice_file_path results_path cwd u t <> filename_result results_path cwd u' t'
  /\ voice_file_path results_path cwd u t
     <> sample_file (filename_result results_path cwd u' t') i.
Proof.
  destruct (@abspath_join_suffix cwd results_path (ogg_name u t)
              (ogg_name_proper u t)) as (y & Ey).
  destruct (@abspath_join_suffix cwd results_path (wav_name u' t')
              (wav_name_proper u' t')) as (y' & Ey').
  unfold voice_file_path, filename_result. rewrite Ey, Ey'.
  assert (G : last (y ++ ogg_name u t) 0%N = 103%N).
  { unfold ogg_name. change (lit "ogg") with ([111; 103]%N ++ [103%N]).
    rewrite !app_assoc. apply last_snoc. }
  assert (V : exists s0, y' ++ wav_name u' t' = s0 ++ [118%N]).
  { unfold wav_name. change (lit ".wav") with (lit ".wa" ++ [118%N]).
    rewrite !app_assoc. eauto. }
  split.
  - intros E. rewrite E in G. destruct V as [s0 V]. rewrite V, last_snoc in G.
    discriminate.
  - intros E.
    assert (N : lit "_" ++ str_of_Z i ++ lit ".wav"
                = (lit "_" ++ str_of_Z i ++ lit ".wa") ++ [118%N]).
    { rewrite <- !app_assoc. reflexivity. }
    unfold sample_file, replace in E. rewrite N in E.
    destruct (@replace_go_last (lit ".wav") (lit "_" ++ str_of_Z i ++ lit ".wa")
                118%N O (y' ++ wav_name u' t')) as [NE [Z|[z Z]]].
    + right. exact V.
    + apply (NE eq_refl); [|exact Z]. destruct V as [s0 ->].
      intros H. now apply app_eq_nil in H as [_ H].
    + pose proof (eq_trans E Z) as E'. rewrite E', last_snoc in G. discriminate.
Qed.

(* ================================================================== *)
(** * The handlers *)
(* ================================================================== *)

Ltac bot_unfold :=
  unfold Bot.start_cmd, Bot.gen_audio_cmd, Bot.gen_audio_inline,
    Bot.toggle_inline_cmd, Bot.retry_button, Bot.gen_audio_from_voice,
    Bot.error_handler, Bot.create_progress_msg, Bot.download_voice,
    Bot.try_except_telegram, Bot.try_except_finally, Bot.bind, Bot.attr,
    Bot.ask, Bot.ret, Bot.raise, Bot.create_task, Bot.log_error,
    Bot.get_toggle, Bot.set_toggle, Bot.now in *.

Ltac bot_simpl :=
  cbn beta iota zeta delta
    [fst snd Bot.trace Bot.ext Bot.user_data is_ok Bot.sent_of negb] in *.

(** Every call a handler makes is followed to each of its outcomes. *)
Ltac bot_cases :=
  repeat (bot_simpl;
          match goal with
          | |- context [match ?x with _ => _ end] =>
              lazymatch x with
              | context [match _ with _ => _ end] => fail
              | _ => destruct x eqn:?
              end
          end);
  bot_simpl.

(** [validate_text] has accepted the text. *)
Ltac bot_accepted :=
  match goal with
  | V : validate_text _ _ _ = (?b, _), N : negb ?b = false |- _ =>
      rewrite V; destruct b; [clear N | discriminate N]
  end.

Ltac bot_trace :=
  rewrite <- ?app_assoc;
  eexists; split; [first [reflexivity | symmetry; apply app_nil_r]|].

Section HandlerFacts.

Variable cfg : Config.
Variable X : Type.
Variable S : Bot.Services X.

Lemma create_progress_msg_events (rq : Bot.Request) (s : Bot.State X) :
  exists evs,
    Bot.trace (snd (Bot.create_progress_msg cfg S rq s)) = Bot.trace s ++ evs
    /\ Bot.user_data (snd (Bot.create_progress_msg cfg S rq s)) = Bot.user_data s
    /\ Bot.scheduled_by evs = [] /\ Bot.initialised evs = []
    /\ Bot.removals evs = []
    /\ match fst (Bot.create_progress_msg cfg S rq s) with
       | Ok pm =>
           exists ch text,
             Bot.effective_chat rq = Some ch
             /\ evs = [Bot.Chat_action (Bot.id ch) true;
                       Bot.Send_message (Bot.id ch) text false (Some pm)]
       | Err _ =>
           evs = []
           \/ (exists ch, Bot.effective_chat rq = Some ch
                          /\ evs = [Bot.Chat_action (Bot.id ch) false])
           \/ (exists ch text,
                 Bot.effective_chat rq = Some ch
                 /\ evs = [Bot.Chat_action (Bot.id ch) true;
                           Bot.Send_message (Bot.id ch) text false None])
       end.
Proof.
  bot_unfold. bot_cases; bot_trace; repeat (split; [reflexivity|]);
    cbn [app];
    solve [eauto 8 | left; eauto 8 | right; left; eauto 8 | right; right; eauto 8].
Qed.

Lemma toggle_inline_cmd_user_data (rq : Bot.Request) (m : Bot.UserMessage)
    (s : Bot.State X) :
  Bot.message rq = Some m ->
  Bot.user_data (snd (Bot.toggle_inline_cmd cfg S rq s))
  = Some (Bot.py_not (Bot.user_data s)).
Proof.
  intros Hm. bot_unfold. rewrite Hm. bot_simpl.
  destruct s as [x0 [[|]|] tr0]; bot_simpl; cbn [Bot.py_not].
  all: destruct (Bot.reply_text S _ _ _ x0) as [r1 x1]; reflexivity.
Qed.

End HandlerFacts.

(** The retry button under a caption that [validate_text] rejects: the
    job is scheduled all the same. *)
Example retry_under_strict_validation :
  fst (validate_text BotDemo.strict (Some Demo.alice) (lit "hello...")) = false
  /\ Bot.scheduled_by
       (Bot.trace (snd (Bot.retry_button BotDemo.strict BotDemo.services
                          BotDemo.retry_request BotDemo.idle)))
     = [Bot.S_answer_query (Bot.callback_query BotDemo.retry_request);
        Bot.S_task (T_start_gen_task (Demo.request Demo.alice 11)
                      (Text (lit "hello..."))
                      {| message_id := 40; caption := None |})].
Proof. split; vm_compute; reflexivity. Qed.

Example gen_command_joins_its_arguments :
  Bot.scheduled_by
    (Bot.trace (snd (Bot.gen_audio_cmd Demo.cfg BotDemo.services
                       BotDemo.text_request BotDemo.idle)))
  = [Bot.S_task (T_start_gen_task (Demo.request Demo.alice 11)
                   (Text (lit "hello world"))
                   {| message_id := 40; caption := None |})].
Proof. vm_compute. reflexivity. Qed.

(* ------------------------------------------------------------------ *)
(** ** From a request to a scheduled job *)

(** X11.  [gen_audio_cmd] schedules at most one coroutine.  When it
    raises, nothing is scheduled.  When it returns, the user has been
    initialised in the database, and either the arguments were there and
    [validate_text] accepted them joined by blanks, and then
    [start_gen_task] is scheduled for that text with the progress message
    the platform has just sent; or nothing is scheduled, no progress
    message was sent and the user got exactly one reply. *)
Theorem X11_gen_command_schedules_validated_text (cfg : Config) (X : Type)
    (S : Bot.Services X) (rq : Bot.Request) (s : Bot.State X) :
  exists evs,
    Bot.trace (snd (Bot.gen_audio_cmd cfg S rq s)) = Bot.trace s ++ evs
    /\ match fst (Bot.gen_audio_cmd cfg S rq s) with
       | Err _ => Bot.scheduled_by evs = []
       | Ok _ =>
           exists m u,
             Bot.message rq = Some m
             /\ effective_user (Bot.update rq) = Some u
             /\ Bot.initialised evs = [user_id u]
             /\ ((exists a l pm,
                    Bot.args rq = Some (a :: l)
                    /\ fst (validate_text cfg (Some u)
                              (join_with (lit " ") (a :: l))) = true
                    /\ Bot.progress_msgs evs = [pm]
                    /\ Bot.scheduled_by evs
                       = [Bot.S_task
                            (T_start_gen_task (Bot.update rq)
                               (Text (join_with (lit " ") (a :: l))) pm)])
                 \/ (Bot.scheduled_by evs = []
                     /\ Bot.progress_msgs evs = []
                     /\ exists reply, Bot.texts_sent evs = [reply]))
       end.
Proof.
  bot_unfold. bot_cases; bot_trace; cbn [app];
    try reflexivity.
  all: do 2 eexists; do 3 (split; [reflexivity|]).
  all: try solve [right; do 2 (split; [reflexivity|]); eexists; reflexivity].
  all: left; do 3 eexists; split; [reflexivity|]; bot_accepted;
    repeat split; reflexivity.
Qed.

(** X12.  [gen_audio_inline] schedules [start_gen_task] only when the
    inline mode is switched on and [validate_text] accepts the text of
    the message, and then for that very text.  When it returns without
    scheduling, no progress message was sent and the user got exactly one
    reply; with the mode off or unset that reply is the hint, sent with
    [reply_html]. *)
Theorem X12_inline_text_needs_the_mode_switched_on (cfg : Config) (X : Type)
    (S : Bot.Services X) (rq : Bot.Request) (s : Bot.State X) :
  exists evs,
    Bot.trace (snd (Bot.gen_audio_inline cfg S rq s)) = Bot.trace s ++ evs
    /\ Bot.user_data (snd (Bot.gen_audio_inline cfg S rq s)) = Bot.user_data s
    /\ match fst (Bot.gen_audio_inline cfg S rq s) with
       | Err _ => Bot.scheduled_by evs = []
       | Ok _ =>
           exists m u,
             Bot.message rq = Some m
             /\ effective_user (Bot.update rq) = Some u
             /\ Bot.initialised evs = [user_id u]
             /\ ((exists pm,
                    Bot.user_data s = Some true
                    /\ fst (validate_text cfg (Some u) (Bot.text m)) = true
                    /\ Bot.progress_msgs evs = [pm]
                    /\ Bot.html_replies evs = []
                    /\ Bot.scheduled_by evs
                       = [Bot.S_task
                            (T_start_gen_task (Bot.update rq)
                               (Text (Bot.text m)) pm)])
                 \/ (Bot.scheduled_by evs = []
                     /\ Bot.progress_msgs evs = []
                     /\ exists reply,
                          Bot.texts_sent evs = [reply]
                          /\ (Bot.user_data s <> Some true ->
                              reply = Bot.inline_hint cfg (Some u)
                              /\ Bot.html_replies evs = [reply])))
       end.
Proof.
  bot_unfold. unfold Bot.py_not.
  destruct s as [x0 [[|]|] tr0]; bot_cases; bot_trace; cbn [app];
    (split; [reflexivity|]); try reflexivity.
  all: do 2 eexists; do 3 (split; [reflexivity|]).
  all: try solve [right; do 2 (split; [reflexivity|]); eexists;
                  split; [reflexivity|]; intros N;
                  first [now contradiction N | split; reflexivity]].
  all: left; eexists; split; [reflexivity|]; bot_accepted;
    repeat split; reflexivity.
Qed.

(** X13.  [toggle_inline_cmd] on a request with a message switches the
    inline mode: on when it was unset or off, off when it was on.  The
    new value is stored whether or not the reply gets through, the reply
    names the new value, and a second call takes a set mode back to where
    it was. *)
Theorem X13_toggle_switches_inline_mode (cfg : Config) (X : Type)
    (S : Bot.Services X) (rq : Bot.Request) (m : Bot.UserMessage)
    (s : Bot.State X) :
  Bot.message rq = Some m ->
  (exists ok,
     Bot.trace (snd (Bot.toggle_inline_cmd cfg S rq s))
     = Bot.trace s
       ++ [Bot.Reply_text (Bot.msg m)
             (Bot.toggle_reply cfg (effective_user (Bot.update rq))
                (Bot.py_not (Bot.user_data s)))
             (message_id (Bot.msg m)) ok])
  /\ Bot.user_data (snd (Bot.toggle_inline_cmd cfg S rq s))
     = Some (Bot.py_not (Bot.user_data s))
  /\ (forall b,
        Bot.user_data s = Some b ->
        Bot.user_data
          (snd (Bot.toggle_inline_cmd cfg S rq
                  (snd (Bot.toggle_inline_cmd cfg S rq s))))
        = Some b).
Proof.
  intros Hm. bot_unfold. rewrite Hm. bot_simpl.
  destruct s as [x0 [[|]|] tr0]; bot_simpl; cbn [Bot.py_not].
  all: destruct (Bot.reply_text S _ _ _ x0) as [r1 x1] eqn:R1; bot_simpl.
  all: split; [eexists; reflexivity|]; split; [reflexivity|].
  all: intros b Hb; try discriminate Hb; injection Hb as <-.
  all: destruct (Bot.reply_text S _ _ _ x1) as [r2 x2]; reflexivity.
Qed.

(** X13 on Alice's message, with the mode not yet set. *)
Lemma X13_witness :
  Bot.message BotDemo.text_request
  = Some {| Bot.msg := Demo.alice_msg; Bot.text := lit "hello world";
            Bot.voice := None |}
  /\ Bot.user_data
       (snd (Bot.toggle_inline_cmd Demo.cfg BotDemo.services
               BotDemo.text_request BotDemo.idle))
     = Some (Bot.py_not (Bot.user_data BotDemo.idle)).
Proof.
  split; [reflexivity|].
  refine (proj1 (proj2 (@X13_toggle_switches_inline_mode Demo.cfg Z
                          BotDemo.services BotDemo.text_request _
                          BotDemo.idle _))).
  reflexivity.
Defined.

(** X14.  Switching the mode decides what the next text message does.
    After [toggle_inline_cmd] has run from a state in which the mode was
    unset or off, [gen_audio_inline] sends no hint; after it has run from
    a state in which the mode was on, [gen_audio_inline] schedules
    nothing. *)
Theorem X14_toggle_then_inline (cfg : Config) (X : Type)
    (S : Bot.Services X) (rq1 rq2 : Bot.Request) (m1 : Bot.UserMessage)
    (s : Bot.State X) :
  Bot.message rq1 = Some m1 ->
  exists evs,
    Bot.trace (snd (Bot.gen_audio_inline cfg S rq2
                      (snd (Bot.toggle_inline_cmd cfg S rq1 s))))
    = Bot.trace (snd (Bot.toggle_inline_cmd cfg S rq1 s)) ++ evs
    /\ if Bot.py_not (Bot.user_data s)
       then Bot.html_replies evs = []
       else Bot.scheduled_by evs = [].
Proof.
  intros Hm.
  pose proof (@toggle_inline_cmd_user_data cfg X S rq1 m1 s Hm) as U.
  set (s1 := snd (Bot.toggle_inline_cmd cfg S rq1 s)) in *.
  clearbody s1. remember (Bot.py_not (Bot.user_data s)) as b eqn:B. clear B.
  destruct s1 as [x1 d1 tr1]. cbn [Bot.user_data] in U. subst d1.
  bot_unfold. unfold Bot.py_not.
  destruct b; bot_cases; bot_trace; reflexivity.
Qed.

(** X14 on two messages of Alice, with the mode not yet set. *)
Lemma X14_witness :
  Bot.message BotDemo.text_request
  = Some {| Bot.msg := Demo.alice_msg; Bot.text := lit "hello world";
            Bot.voice := None |}
  /\ exists evs,
       Bot.trace (snd (Bot.gen_audio_inline Demo.cfg BotDemo.services
                         BotDemo.text_request
                         (snd (Bot.toggle_inline_cmd Demo.cfg BotDemo.services
                                 BotDemo.text_request BotDemo.idle))))
       = Bot.trace (snd (Bot.toggle_inline_cmd Demo.cfg BotDemo.services
                           BotDemo.text_request BotDemo.idle)) ++ evs
       /\ if Bot.py_not (Bot.user_data BotDemo.idle)
          then Bot.html_replies evs = []
          else Bot.scheduled_by evs = [].
Proof.
  split; [reflexivity|].
  refine (@X14_toggle_then_inline Demo.cfg Z BotDemo.services
            BotDemo.text_request BotDemo.text_request _ BotDemo.idle _).
  reflexivity.
Defined.

(** X15.  [retry_button] never asks [validate_text].  When it returns it
    has initialised the user, scheduled [answer_query] for the query,
    sent the progress message and nothing else, and scheduled
    [start_gen_task] with the caption of the message under the button
    exactly as it stands there, or with [None] when that message has no
    caption.  When it raises, no call of [start_gen_task] is
    scheduled. *)
Theorem X15_retry_schedules_the_caption_as_it_stands (cfg : Config)
    (X : Type) (S : Bot.Services X) (rq : Bot.Request) (s : Bot.State X) :
  exists evs,
    Bot.trace (snd (Bot.retry_button cfg S rq s)) = Bot.trace s ++ evs
    /\ match fst (Bot.retry_button cfg S rq s) with
       | Ok _ =>
           exists u q qm pm,
             effective_user (Bot.update rq) = Some u
             /\ Bot.callback_query rq = Some q
             /\ Bot.query_message q = Some qm
             /\ Bot.initialised evs = [user_id u]
             /\ Bot.progress_msgs evs = [pm]
             /\ List.length (Bot.texts_sent evs) = 1%nat
             /\ Bot.scheduled_by evs
                = [Bot.S_answer_query (Some q);
                   match caption qm with
                   | Some c =>
                       Bot.S_task (T_start_gen_task (Bot.update rq) (Text c) pm)
                   | None => Bot.S_start_gen_task_none (Bot.update rq) pm
                   end]
       | Err _ => filter Bot.is_gen_task (Bot.scheduled_by evs) = []
       end.
Proof.
  bot_unfold. bot_cases; bot_trace; cbn [app]; try reflexivity.
  all: do 4 eexists; do 6 (split; [first [reflexivity | eassumption]|]).
  all: match goal with H : caption _ = _ |- _ => rewrite H end; reflexivity.
Qed.

(* ------------------------------------------------------------------ *)
(** ** Voice messages *)

(** X16.  [gen_audio_from_voice] gives [remove_temp_file] nothing but
    the download path it has built for the user of the update.  When a
    step of the download raises, the path is removed twice, by the
    [except] clause and again by the [finally] clause, no progress
    message is sent, nothing is scheduled, and the handler raises: the
    [TelegramError] "download failure" chained to the cause, unless a
    removal has raised too.  When the handler returns, the path was
    removed once, before the progress message, and [start_gen_task] is
    scheduled on the audio that was loaded. *)
Theorem X16_voice_download_is_removed (cfg : Config) (X : Type)
    (S : Bot.Services X) (rq : Bot.Request) (s : Bot.State X) :
  exists evs,
    Bot.trace (snd (Bot.gen_audio_from_voice cfg S rq s)) = Bot.trace s ++ evs
    /\ Forall (fun p =>
                 exists u t,
                   effective_user (Bot.update rq) = Some u
                   /\ p = voice_file_path (RESULTS_PATH cfg) (getcwd cfg)
                            (user_id u) t)
         (Bot.removals evs)
    /\ if Bot.download_failed evs
       then List.length (Bot.removals evs) = 2%nat
            /\ Bot.scheduled_by evs = []
            /\ Bot.progress_msgs evs = []
            /\ exists e,
                 fst (Bot.gen_audio_from_voice cfg S rq s) = Err e
                 /\ (Bot.failed_removals evs = [] ->
                     exists cause,
                       e = ExnFrom TelegramError
                             (lit "Audio from voice Error: download failure")
                             cause)
       else match fst (Bot.gen_audio_from_voice cfg S rq s) with
            | Ok _ =>
                exists u v a pm p text cid,
                  effective_user (Bot.update rq) = Some u
                  /\ evs = [Bot.Init_user (user_id u) true;
                            Bot.Open_w p true; Bot.Get_file v true;
                            Bot.Download p true; Bot.Load p true;
                            Bot.Remove_temp_file p true;
                            Bot.Chat_action cid true;
                            Bot.Send_message cid text false (Some pm);
                            Bot.Create_task
                              (Bot.S_task
                                 (T_start_gen_task (Bot.update rq) (Audio a) pm))]
            | Err _ =>
                Bot.scheduled_by evs = []
                /\ (List.length (Bot.removals evs) <= 1)%nat
            end.
Proof.
  bot_unfold. bot_cases; bot_trace; cbn [app].
  all: (split; [repeat constructor; eauto|]).
  all: cbn.
  all: try solve [repeat split; try lia; eexists; split; [reflexivity|];
                  first [intros; eexists; reflexivity | discriminate]].
  all: try solve [split; [reflexivity|lia]].
  all: do 7 eexists; split; reflexivity.
Qed.

(** X17.  A message without voice makes [gen_audio_from_voice] raise the
    [TelegramError] "no voice" right after the user was initialised:
    no file is touched, nothing is sent and nothing is scheduled. *)
Theorem X17_message_without_voice_is_refused (cfg : Config) (X : Type)
    (S : Bot.Services X) (rq : Bot.Request) (u : User)
    (m : Bot.UserMessage) (s : Bot.State X) :
  effective_user (Bot.update rq) = Some u ->
  Bot.message rq = Some m ->
  Bot.voice m = None ->
  fst (Bot.init_user S (user_id u) (Bot.ext s)) = Ok tt ->
  fst (Bot.gen_audio_from_voice cfg S rq s)
  = Err (Exn TelegramError (lit "Audio from voice Error: no voice"))
  /\ Bot.trace (snd (Bot.gen_audio_from_voice cfg S rq s))
     = Bot.trace s ++ [Bot.Init_user (user_id u) true].
Proof.
  intros Hu Hm Hv Hi. bot_unfold. rewrite Hu, Hm. bot_simpl.
  destruct (Bot.init_user S (user_id u) (Bot.ext s)) as [r x].
  cbn [fst] in Hi. subst r. bot_simpl. rewrite Hv. split; reflexivity.
Qed.

(** X17 on Alice's text message. *)
Lemma X17_witness :
  effective_user (Bot.update BotDemo.text_request) = Some Demo.alice
  /\ fst (Bot.gen_audio_from_voice Demo.cfg BotDemo.services
            BotDemo.text_request BotDemo.idle)
     = Err (Exn TelegramError (lit "Audio from voice Error: no voice")).
Proof.
  split; [reflexivity|].
  refine (proj1 (@X17_message_without_voice_is_refused Demo.cfg Z
                   BotDemo.services BotDemo.text_request Demo.alice _
                   BotDemo.idle _ _ _ _)); reflexivity.
Defined.

(* ------------------------------------------------------------------ *)
(** ** Errors *)

(** X18.  What [error_handler] tells the user does not depend on the
    error: the error goes to the log and nowhere else.  After the log
    entry the handler does nothing for a missing update, message or
    user.  With all three there it replies once with the fixed text to
    the effective message, and then one of three: the reply got through
    and the handler returns; or the reply failed, the same text went with
    [send_message] to the effective chat, and the handler returns exactly
    when that message was sent; or the reply failed, nothing more was
    sent, and the handler raises something that is not a
    [TelegramError]. *)
Theorem X18_error_reply_hides_the_error (cfg : Config) (X : Type)
    (S : Bot.Services X) (rq : option Bot.Request) (s : Bot.State X) :
  exists r x evs,
    (forall error,
       Bot.error_handler cfg S rq error s
       = (r, {| Bot.ext := x; Bot.user_data := Bot.user_data s;
                Bot.trace :=
                  Bot.trace s
                  ++ Bot.Log_error (lit "Exception while handling an update:")
                       error :: evs |}))
    /\ match rq with
       | Some q =>
           match effective_message (Bot.update q),
                 effective_user (Bot.update q) with
           | Some m, Some u =>
               (evs = [Bot.Reply_html m (Bot.internal_error_reply cfg u)
                         (Some (message_id m)) true]
                /\ r = Ok tt)
               \/ (evs = [Bot.Reply_html m (Bot.internal_error_reply cfg u)
                            (Some (message_id m)) false]
                   /\ exists e, r = Err e /\ is_telegram_error e = false)
               \/ (exists ch sent,
                     Bot.effective_chat q = Some ch
                     /\ evs = [Bot.Reply_html m (Bot.internal_error_reply cfg u)
                                 (Some (message_id m)) false;
                               Bot.Send_message (Bot.id ch)
                                 (Bot.internal_error_reply cfg u) true sent]
                     /\ match sent with
                        | Some _ => r = Ok tt
                        | None => exists e, r = Err e
                        end)
           | _, _ => evs = [] /\ r = Ok tt
           end
       | None => evs = [] /\ r = Ok tt
       end.
Proof.
  bot_unfold. bot_cases.
  all: do 3 eexists; split;
    [intros error; rewrite <- ?app_assoc; cbn [app]; reflexivity|].
  all: repeat match goal with a : unit |- _ => destruct a end.
  all: try solve [split; reflexivity].
  all: try solve [left; split; reflexivity].
  all: try solve [right; right; do 2 eexists;
                  split; [first [reflexivity | eassumption]|];
                  split; [reflexivity|];
                  first [reflexivity | eexists; reflexivity]].
  all: right; left; split; [reflexivity|]; eexists; split; [reflexivity|].
  all: first [reflexivity | assumption].
Qed.

(* ------------------------------------------------------------------ *)
(** ** The database comes first *)

(** X19.  The five handlers that call [db_handle.init_user] do nothing
    one can see before that call has returned: as long as no user was
    initialised, nothing is sent, no file is touched and nothing is
    scheduled.  The only user they initialise is the user of the
    update. *)
Theorem X19_nothing_happens_before_the_user_is_initialised (cfg : Config)
    (X : Type) (S : Bot.Services X) (rq : Bot.Request) (s : Bot.State X)
    (h : Bot.Request -> Bot.State X -> res unit * Bot.State X) :
  In h [Bot.start_cmd cfg S; Bot.gen_audio_cmd cfg S;
        Bot.gen_audio_inline cfg S; Bot.retry_button cfg S;
        Bot.gen_audio_from_voice cfg S] ->
  exists evs,
    Bot.trace (snd (h rq s)) = Bot.trace s ++ evs
    /\ Bot.acts_for_initialised_user rq evs.
Proof.
  unfold Bot.acts_for_initialised_user.
  intros [<-|[<-|[<-|[<-|[<-|[]]]]]]; bot_unfold; bot_cases; bot_trace;
    cbn; (split; [intros H; first [reflexivity | discriminate H]|]);
    intros uid I; repeat destruct I as [<-|I]; try contradiction;
    eexists; split; reflexivity.
Qed.

(** X19 for [gen_audio_cmd] on Alice's request. *)
Lemma X19_witness :
  exists evs,
    Bot.trace (snd (Bot.gen_audio_cmd Demo.cfg BotDemo.services
                      BotDemo.text_request BotDemo.idle))
    = Bot.trace BotDemo.idle ++ evs
    /\ Bot.acts_for_initialised_user BotDemo.text_request evs.
Proof.
  refine (@X19_nothing_happens_before_the_user_is_initialised Demo.cfg Z
            BotDemo.services BotDemo.text_request BotDemo.idle
            (Bot.gen_audio_cmd Demo.cfg BotDemo.services) _).
  right. left. reflexivity.
Defined.

(* ------------------------------------------------------------------ *)
(** ** From [start_gen_task] to the job *)

(** X20.  For an update with a user, [start_gen_task] hands exactly one
    job to the worker loop and registers the done callback on the future
    of that job.  Run on any loop, the job returns a tuple with the
    update, the progress message, the sample count of the user's
    settings and the output path built from the user's id and the clock;
    and whatever it hands over goes to the loop on which
    [start_gen_task] ran. *)
Theorem X20_job_reports_back_to_the_starting_loop (cfg : Config) (X : Type)
    (P : Platform X) (u : Update) (usr : User) (d : data) (pm : Message)
    (c : ctx) (w : World X) :
  effective_user u = Some usr ->
  exists job w',
    run cfg P (start_gen_task cfg u d pm) c w = (Ok tt, w')
    /\ spawned w' = spawned w ++ [(Worker, job, Some (next_future w))]
    /\ callbacks w' = next_future w :: callbacks w
    /\ handoffs (trace w') = handoffs (trace w) ++ [(job, Worker)]
    /\ is_job job = true
    /\ forall c2 (w2 : World X),
         exists g w3 evs,
           run cfg P (body cfg job) c2 w2 = (Ok (Some g), w3)
           /\ trace w3 = trace w2 ++ evs
           /\ r_update g = u /\ r_progress_msg g = pm
           /\ r_filename_result g
              = filename_result (RESULTS_PATH cfg) (getcwd cfg) (user_id usr)
                  (fst (clock P (ext w)))
           /\ r_samples_num g
              = samples_num (get_user_settings cfg (user_id usr))
           /\ Forall (fun h => snd h = c) (handoffs evs).
Proof.
  intros Hu. unfold start_gen_task. rewrite Hu.
  cbn [attr bind do run perform].
  destruct (clock P (ext w)) as [t x]. cbn [run fst].
  do 2 eexists. split; [reflexivity|].
  cbn [spawned callbacks trace log spawn set_ext].
  split; [reflexivity|]. split; [reflexivity|].
  split. { unfold handoffs. rewrite !flat_map_app. cbn [flat_map app].
           now rewrite app_nil_r. }
  split; [reflexivity|].
  intros c2 w2. cbn [body]. rewrite run_bind.
  set (fn := filename_result _ _ _ _).
  set (st := get_user_settings cfg (user_id usr)).
  set (vd := get_user_voice_dir cfg (user_id usr)).
  destruct (run_gen_audio_try_events cfg P u fn st d vd c2 w2)
    as (d' & r & w1 & evs & E & T & _ & H & _ & _).
  erewrite run_gen_audio_run by exact E. cbn [run].
  destruct r as [[]|e].
  - exists (result_of u pm fn st d'), w1, evs.
    split; [reflexivity|]. split; [assumption|].
    do 4 (split; [reflexivity|]). rewrite H. constructor.
  - eexists (result_of u pm fn st d'), _,
      (evs ++ [E_threadsafe c2 (T_handle_post_eval_gen_report_error u pm e) c]).
    split; [reflexivity|].
    split. { unfold handed_off. cbn [perform snd trace spawn log].
             now rewrite T, app_assoc. }
    do 4 (split; [reflexivity|]).
    unfold handoffs in *. rewrite flat_map_app, H. cbn.
    constructor; [reflexivity|constructor].
Qed.

(** X20 on Alice's request, started on the front loop. *)
Lemma X20_witness :
  effective_user (Demo.request Demo.alice 11) = Some Demo.alice
  /\ exists job w',
       run Demo.cfg Demo.platform
         (start_gen_task Demo.cfg (Demo.request Demo.alice 11)
            (Text (lit "boom")) (Demo.progress 12))
         Front (world Demo.start)
       = (Ok tt, w')
       /\ is_job job = true
       /\ spawned w' = spawned (world Demo.start)
                       ++ [(Worker, job, Some (next_future (world Demo.start)))].
Proof.
  split; [reflexivity|].
  destruct (@X20_job_reports_back_to_the_starting_loop Demo.cfg
              Demo.ext_state Demo.platform (Demo.request Demo.alice 11)
              Demo.alice (Text (lit "boom")) (Demo.progress 12) Front
              (world Demo.start) eq_refl)
    as (job & w' & R & Sp & _ & _ & J & _).
  exists job, w'. split; [exact R|]. split; [exact J|exact Sp].
Defined.

(** X21.  The done callback of a job never takes its [except] branch:
    the job's coroutine always ends with a tuple, on which
    [eval_gen_task] schedules [post_eval_gen_task] with the output path
    and the progress message of the job, the sample count of its
    settings, the message of the update and the [data] the job returned,
    which for a text job is the text it was given. *)
Theorem X21_done_callback_always_schedules_delivery (cfg : Config)
    (X : Type) (P : Platform X) (u : Update) (pm : Message) (fn : str)
    (st : UserSettings) (d : data) (vd : str) (loop c c' : ctx)
    (w w' : World X) :
  exists g,
    outcome_of (fst (run cfg P (body cfg (T_run_gen_audio u pm fn st d vd loop))
                       c w))
    = Ok g
    /\ trace (snd (run cfg P (eval_gen_task (Ok g)) c' w'))
       = trace w'
         ++ [E_create_task c'
               (T_post_eval_gen_task u fn (r_data g) (samples_num st)
                  (effective_message u) pm)]
    /\ error_logs (trace (snd (run cfg P (eval_gen_task (Ok g)) c' w')))
       = error_logs (trace w')
    /\ (forall t, d = Text t -> r_data g = Text t).
Proof.
  cbn [body]. rewrite run_bind.
  destruct (run_gen_audio_try_events cfg P u fn st d vd c w)
    as (d' & r & w1 & evs & E & _).
  erewrite run_gen_audio_run by exact E. cbn [run fst outcome_of].
  exists (result_of u pm fn st d').
  split; [reflexivity|]. split; [reflexivity|].
  split.
  { cbn [eval_gen_task run do perform snd trace spawn log].
    unfold error_logs. rewrite flat_map_app. cbn. now rewrite app_nil_r. }
  intros t ->. revert E. cbn [run_gen_audio_try run bind do perform].
  destruct (tts_audio_from_text P _ _ _ _ _ _ _ _) as [[r' fs] x].
  cbn [run]. intros E. now injection E as <- _ _.
Qed.
